(** * Joyan logo scripts: content bounding box, padding and square canvas

    A shallow embedding of the image-processing core of the four scripts
    [analyze_logos.py], [crop_logos.py], [crop_logos_v2.py] and
    [crop_logos_tight.py].

    Modelling conventions.
    - An image is its mode, its size and its rows of pixels (row-major, as
      [np.array(img)] exposes them).  A pixel carries four 8-bit channels;
      the fourth is the alpha channel of an RGBA image and the unused
      padding byte of an RGB one.  Mode [L] stands for the single-band
      modes the scripts normalise with [convert]; its level is kept in all
      three colour fields.
    - Python integers are [Z]; [int(...)] is truncation towards zero.
      A number that may be a float is the rational [Q] it denotes.  The
      padding [int(size * padding_percent / 100)] is computed as Python
      computes it on floats: every operation rounds its exact result to
      the nearest binary64 number ([round64]).  [border_threshold] and the
      percentages of the analysis report are used as exact rationals.
    - Pillow and NumPy primitives are modelled in the modules [PIL] and
      [np] from their documented behaviour; element-wise array expressions
      of the scripts are fused into one map over the pixels.
    - [print] appends a line to an output log returned next to the value.
    - The batch loops are a fold over the directory listing with the
      written files and the two counters as state; [Image.open] and [save]
      are parameters, and the console report of the loops is left out. *)

From Stdlib Require Import String.
From Stdlib Require Import ZArith QArith Qround List Bool Lia.
From Stdlib Require DecimalString.
From Stdlib Require PrimFloat FloatOps SpecFloat Uint63.
Import ListNotations.

Local Open Scope Z_scope.

(** ** Pixels, modes, images *)

Record pixel : Type := mkPixel { R : Z; G : Z; B : Z; A : Z }.

Inductive mode : Type := RGB | RGBA | L.

Definition mode_eqb (m1 m2 : mode) : bool :=
  match m1, m2 with
  | RGB, RGB | RGBA, RGBA | L, L => true
  | _, _ => false
  end.

Record image : Type := mkImage {
  img_mode : mode;
  img_width : Z;
  img_height : Z;
  img_data : list (list pixel)
}.

(** A 4-tuple (left, upper, right, lower). *)
Definition box : Type := (Z * Z * Z * Z)%type.

Definition white : pixel := mkPixel 255 255 255 255.
Definition black : pixel := mkPixel 0 0 0 255.
Definition zero_pixel : pixel := mkPixel 0 0 0 0.

Definition channel_ok (c : Z) : Prop := 0 <= c <= 255.

Definition pixel_ok (p : pixel) : Prop :=
  channel_ok (R p) /\ channel_ok (G p) /\ channel_ok (B p) /\ channel_ok (A p).

(** The pixel rows agree with the declared size. *)
Definition wf_image (im : image) : Prop :=
  Z.of_nat (length (img_data im)) = img_height im /\
  0 <= img_width im /\
  Forall (fun row => Z.of_nat (length row) = img_width im) (img_data im).

Definition wf_imageb (im : image) : bool :=
  (Z.of_nat (length (img_data im)) =? img_height im) &&
  (0 <=? img_width im) &&
  forallb (fun row => Z.of_nat (length row) =? img_width im) (img_data im).

Definition all_pixels (P : pixel -> Prop) (im : image) : Prop :=
  Forall (Forall P) (img_data im).

Definition nthZ {T : Type} (d : T) (l : list T) (i : Z) : T :=
  if i <? 0 then d else nth (Z.to_nat i) l d.

(** Rows [0 .. h-1] of columns [0 .. w-1], the pixel at (x, y) being [f x y]. *)
Definition build_rows {T : Type} (w h : Z) (f : Z -> Z -> T) : list (list T) :=
  map (fun y => map (fun x => f (Z.of_nat x) (Z.of_nat y)) (seq 0 (Z.to_nat w)))
      (seq 0 (Z.to_nat h)).

(** Python's [int()] on a float: truncation towards zero. *)
Definition int (q : Q) : Z := Z.quot (Qnum q) (Zpos (Qden q)).

(** ** Binary64 arithmetic

    A float is the rational it denotes, and an operation on floats rounds
    its exact result to the nearest binary64 number, ties to even: a
    significand of 53 bits, subnormal numbers below 2^-1022.  Overflow to
    infinity is left out: it takes a product of 2^1024 or more. *)

(** The integer nearest to N / D for D > 0, ties to the even one. *)
Definition round_half_even (N D : Z) : Z :=
  let q := N / D in
  let r := N mod D in
  if 2 * r <? D then q
  else if D <? 2 * r then q + 1
  else if Z.even q then q else q + 1.

(** 2^l <= a / d, for positive a and d. *)
Definition le_pow2 (a d l : Z) : bool :=
  if 0 <=? l then d * 2 ^ l <=? a else d <=? a * 2 ^ (- l).

(** floor(log2(a / d)) for positive a and d: the difference of the two
    binary logarithms, or one less. *)
Definition binade (a d : Z) : Z :=
  let l := Z.log2 a - Z.log2 d in
  if le_pow2 a d l then l else l - 1.

(** The binary64 number nearest to a / d, for positive a and d: a multiple
    of 2^e, where e is 52 below the binade and at least -1074. *)
Definition round64_pos (a d : Z) : Q :=
  let e := Z.max (binade a d - 52) (-1074) in
  if 0 <=? e then inject_Z (round_half_even a (d * 2 ^ e) * 2 ^ e)
  else Qmake (round_half_even (a * 2 ^ (- e)) d) (Z.to_pos (2 ^ (- e))).

Definition round64 (q : Q) : Q :=
  let q := Qred q in
  match Qnum q with
  | Z0 => 0%Q
  | Zpos a => round64_pos (Zpos a) (Zpos (Qden q))
  | Zneg a => (- round64_pos (Zpos a) (Zpos (Qden q)))%Q
  end.

(** [float(x)] of a number (an integer, or a decimal literal), and the
    operators [x * y] and [x / y] on two floats. *)
Definition float (x : Q) : Q := round64 x.
Definition float_mul (x y : Q) : Q := round64 (x * y).
Definition float_div (x y : Q) : Q := round64 (x / y).

(** The same padding computed with the primitive binary64 numbers of the
    kernel, for a percentage given as the quotient of two integers: the
    reference [round64] is compared with. *)
Definition binary64_of_Z (z : Z) : PrimFloat.float :=
  if z <? 0 then PrimFloat.opp (PrimFloat.of_uint63 (Uint63.of_Z (- z)))
  else PrimFloat.of_uint63 (Uint63.of_Z z).

Definition binary64_value (f : PrimFloat.float) : Q :=
  match FloatOps.Prim2SF f with
  | SpecFloat.S754_finite s m e =>
      let v := if 0 <=? e then inject_Z (Zpos m * 2 ^ e)
               else Qmake (Zpos m) (Z.to_pos (2 ^ (- e))) in
      if s then (- v)%Q else v
  | _ => 0%Q
  end.

Definition binary64_pad (content_size num den : Z) : Z :=
  let padding_percent := PrimFloat.div (binary64_of_Z num) (binary64_of_Z den) in
  int (binary64_value
         (PrimFloat.div (PrimFloat.mul (binary64_of_Z content_size) padding_percent)
                        (binary64_of_Z 100))).

(** Python's [a[start:stop]] on a sequence. *)
Definition py_slice {T : Type} (start stop : Z) (l : list T) : list T :=
  let n := Z.of_nat (length l) in
  let norm i := if i <? 0 then Z.max 0 (i + n) else Z.min i n in
  let a := norm start in
  let b := norm stop in
  firstn (Z.to_nat (b - a)) (skipn (Z.to_nat a) l).

(** Python's [str()] of an integer, for the f-strings of the scripts. *)
Definition str (z : Z) : String.string :=
  DecimalString.NilZero.string_of_int (Z.to_int z).

(** ** NumPy *)

Module np.

(** [np.array(img)]: the rows of pixels, shape (height, width, bands). *)
Definition array (im : image) : list (list pixel) := img_data im.

(** [a.shape[1]] of a two-dimensional array with at least one row. *)
Definition ncols {T : Type} (a : list (list T)) : nat := length (hd [] a).

(** [a.size] of an array of [bands]-channel pixels. *)
Definition size (bands : Z) (a : list (list pixel)) : Z :=
  Z.of_nat (length a) * Z.of_nat (ncols a) * bands.

(** [v.any()] on a vector and [m.any()] on a matrix of booleans. *)
Definition any1 (v : list bool) : bool := existsb (fun b => b) v.
Definition any (m : list (list bool)) : bool := existsb any1 m.

(** [np.any(m, axis=1)]: one flag per row. *)
Definition any_axis1 (m : list (list bool)) : list bool := map any1 m.

(** [np.any(m, axis=0)]: one flag per column. *)
Definition any_axis0 (m : list (list bool)) : list bool :=
  map (fun j => existsb (fun row => nth j row false) m) (seq 0 (ncols m)).

(** [np.where(v)[0]] from position [i] on: the indices of the true flags. *)
Fixpoint where_from (i : Z) (v : list bool) : list Z :=
  match v with
  | [] => []
  | b :: v' => if b then i :: where_from (i + 1) v' else where_from (i + 1) v'
  end.

Definition where_ (v : list bool) : list Z := where_from 0 v.

End np.

(** [idx[0]] and [idx[-1]] of an index vector known to be non-empty. *)
Definition first_index (idx : list Z) : Z := hd 0 idx.
Definition last_index (idx : list Z) : Z := last idx 0.

(** ** Pillow *)

Module PIL.

Definition size (im : image) : Z * Z := (img_width im, img_height im).

Definition getpixel (im : image) (x y : Z) : pixel :=
  nthZ zero_pixel (nthZ [] (img_data im) y) x.

Definition build (m : mode) (w h : Z) (f : Z -> Z -> pixel) : image :=
  mkImage m (Z.max 0 w) (Z.max 0 h) (build_rows w h f).

(** [Image.new(mode, size, color)] *)
Definition Image_new (m : mode) (sz : Z * Z) (color : pixel) : image :=
  build m (fst sz) (snd sz) (fun _ _ => color).

(** [img.convert('RGB')]: a grey level is replicated, alpha is dropped. *)
Definition convert_RGB (im : image) : image :=
  mkImage RGB (img_width im) (img_height im)
    (map (map (fun p => mkPixel (R p) (G p) (B p) 255)) (img_data im)).

(** [img.convert('RGBA')]: modes without alpha become fully opaque. *)
Definition convert_RGBA (im : image) : image :=
  mkImage RGBA (img_width im) (img_height im)
    (map (map (fun p =>
       match img_mode im with
       | RGBA => p
       | _ => mkPixel (R p) (G p) (B p) 255
       end)) (img_data im)).

(** [img.convert('L')]: the ITU-R 601-2 luma transform in 16.16 fixed point. *)
Definition convert_L (im : image) : image :=
  mkImage L (img_width im) (img_height im)
    (map (map (fun p =>
       match img_mode im with
       | L => p
       | _ => let l := Z.shiftr (R p * 19595 + G p * 38470 + B p * 7471 + 32768) 16 in
              mkPixel l l l 255
       end)) (img_data im)).

(** [img.split()[3]]: the alpha band as a single-band image. *)
Definition alpha_band (im : image) : image :=
  mkImage L (img_width im) (img_height im)
    (map (map (fun p => mkPixel (A p) (A p) (A p) 255)) (img_data im)).

(** Rounded division by 255 and the 8-bit blend of Pillow's paste. *)
Definition DIV255 (a : Z) : Z :=
  let tmp := a + 128 in Z.shiftr (Z.shiftr tmp 8 + tmp) 8.

Definition BLEND8 (mask in1 in2 : Z) : Z :=
  DIV255 (in1 * (255 - mask) + in2 * mask).

Definition blend_pixel (mask : Z) (dst src : pixel) : pixel :=
  mkPixel (BLEND8 mask (R dst) (R src)) (BLEND8 mask (G dst) (G src))
          (BLEND8 mask (B dst) (B src)) (BLEND8 mask (A dst) (A src)).

(** The matte value a mask image gives at a position: its alpha channel
    when it is RGBA, its level otherwise. *)
Definition mask_value (m : image) (x y : Z) : Z :=
  match img_mode m with
  | RGBA => A (getpixel m x y)
  | _ => R (getpixel m x y)
  end.

(** [self.paste(im, box, mask)].  Python updates [self] in place; here the
    updated image is returned.  A source of another mode is converted to
    the destination's mode first, except an RGBA source pasted into an RGB
    destination, whose four bytes are used as they are. *)
Definition paste_source (self im : image) : image :=
  if mode_eqb (img_mode self) (img_mode im) then im
  else match img_mode self, img_mode im with
       | RGB, RGBA => im
       | RGB, _ => convert_RGB im
       | RGBA, _ => convert_RGBA im
       | L, _ => convert_L im
       end.

Definition paste (self im : image) (offset : Z * Z) (mask : option image) : image :=
  let im := paste_source self im in
  let '(ox, oy) := offset in
  mkImage (img_mode self) (img_width self) (img_height self)
    (build_rows (img_width self) (img_height self) (fun x y =>
       let sx := x - ox in
       let sy := y - oy in
       if (0 <=? sx) && (sx <? img_width im) && (0 <=? sy) && (sy <? img_height im)
       then match mask with
            | None => getpixel im sx sy
            | Some m => blend_pixel (mask_value m sx sy) (getpixel self x y) (getpixel im sx sy)
            end
       else getpixel self x y)).

(** [img.crop((x0, y0, x1, y1))]: the region, zero-filled outside the source. *)
Definition crop (im : image) (b : box) : image :=
  let '(x0, y0, x1, y1) := b in
  build (img_mode im) (x1 - x0) (y1 - y0) (fun x y =>
    let sx := x + x0 in
    let sy := y + y0 in
    if (0 <=? sx) && (sx <? img_width im) && (0 <=? sy) && (sy <? img_height im)
    then getpixel im sx sy else zero_pixel).

(** [ImageChops.difference]: channel-wise absolute difference. *)
Definition difference_pixel (p q : pixel) : pixel :=
  mkPixel (Z.abs (R p - R q)) (Z.abs (G p - G q)) (Z.abs (B p - B q)) (Z.abs (A p - A q)).

Definition ImageChops_difference (im1 im2 : image) : image :=
  mkImage (img_mode im1) (img_width im1) (img_height im1)
    (build_rows (img_width im1) (img_height im1) (fun x y =>
       difference_pixel (getpixel im1 x y) (getpixel im2 x y))).

(** [Image.getbbox()] of an RGB image: the box of the pixels with a
    non-zero colour band, [None] when there is none. *)
Definition nonzero (p : pixel) : bool :=
  negb ((R p =? 0) && (G p =? 0) && (B p =? 0)).

Definition getbbox (im : image) : option box :=
  let m := map (map nonzero) (img_data im) in
  let rows := np.any_axis1 m in
  let cols := np.any_axis0 m in
  if negb (np.any m) then None
  else
    let ys := np.where_ rows in
    let xs := np.where_ cols in
    Some (first_index xs, first_index ys, last_index xs + 1, last_index ys + 1).

End PIL.

(** The two pixel tests of [crop_logos_v2.py] and [crop_logos_tight.py]. *)
Definition is_white (p : pixel) : bool := (R p >? 240) && (G p >? 240) && (B p >? 240).
Definition is_black (p : pixel) : bool := (R p <? 15) && (G p <? 15) && (B p <? 15).

(** ** crop_logos.py *)

Module crop_logos.

Definition get_content_bounds (img : image) : option box :=
  (* Convert to RGB if necessary *)
  let img :=
    match img_mode img with
    | RGBA =>
        let bg := PIL.Image_new RGB (PIL.size img) white in
        PIL.paste bg img (0, 0) (Some (PIL.alpha_band img))
    | RGB => img
    | _ => PIL.convert_RGB img
    end in
  (* Create a white background of the same size *)
  let bg := PIL.Image_new RGB (PIL.size img) white in
  (* Get the difference between image and white background *)
  let diff := PIL.ImageChops_difference img bg in
  (* Get bounding box of different pixels (non-white content) *)
  let bbox := PIL.getbbox diff in
  bbox.

(** Lines 48-60: the content box grown by the padding and clamped.
    [content_width * padding_percent / 100] is float arithmetic, one
    rounding for the product and one for the quotient.  (For an integer
    [padding_percent] Python multiplies the integers exactly and rounds
    once, in the division: the same number while the product is below
    2^53.) *)
Definition padded_bounds (img : image) (bbox : box) (padding_percent : Q) : box :=
  let '(x1, y1, x2, y2) := bbox in
  let content_width := x2 - x1 in
  let content_height := y2 - y1 in
  let pad_x :=
    int (float_div (float_mul (float (inject_Z content_width)) (float padding_percent))
                   100) in
  let pad_y :=
    int (float_div (float_mul (float (inject_Z content_height)) (float padding_percent))
                   100) in
  let new_x1 := Z.max 0 (x1 - pad_x) in
  let new_y1 := Z.max 0 (y1 - pad_y) in
  let new_x2 := Z.min (fst (PIL.size img)) (x2 + pad_x) in
  let new_y2 := Z.min (snd (PIL.size img)) (y2 + pad_y) in
  (new_x1, new_y1, new_x2, new_y2).

(** Lines 65-81: the crop centred on a white square canvas. *)
Definition make_square (cropped : image) : image :=
  let '(width, height) := PIL.size cropped in
  let max_dim := Z.max width height in
  let square_img :=
    PIL.Image_new (match img_mode cropped with RGB => RGB | _ => RGBA end)
                  (max_dim, max_dim) white in
  let offset := ((max_dim - width) / 2, (max_dim - height) / 2) in
  match img_mode cropped with
  | RGBA => PIL.paste square_img cropped offset (Some cropped)
  | _ => PIL.paste square_img cropped offset None
  end.

(** Lines 48-81, for a content box that was found. *)
Definition crop_box_with_padding (img : image) (bbox : box) (padding_percent : Q) : image :=
  let cropped := PIL.crop img (padded_bounds img bbox padding_percent) in
  make_square cropped.

Definition crop_with_padding (img : image) (padding_percent : Q) : image :=
  match get_content_bounds img with
  | None => img   (* Image is all white, return as is *)
  | Some bbox => crop_box_with_padding img bbox padding_percent
  end.

End crop_logos.

(** ** crop_logos_v2.py *)

Module crop_logos_v2.

Definition remove_border_and_find_content (img : image) (border_threshold : Q)
  : option box :=
  (* Convert to RGB *)
  let img :=
    match img_mode img with
    | RGBA =>
        let bg := PIL.Image_new RGB (PIL.size img) white in
        PIL.paste bg img (0, 0) (Some (PIL.alpha_band img))
    | RGB => img
    | _ => PIL.convert_RGB img
    end in
  (* Convert to numpy array *)
  let data := np.array img in
  let '(width, height) := PIL.size img in
  (* Calculate border size to ignore *)
  let border_x := int (inject_Z width * border_threshold) in
  let border_y := int (inject_Z height * border_threshold) in
  (* Crop out the border area *)
  let interior_data :=
    map (py_slice border_x (width - border_x))
        (py_slice border_y (height - border_y) data) in
  if np.size 3 interior_data =? 0 then None
  else
    (* Content is anything that's not pure white or pure black *)
    let content_mask := map (map (fun p => negb (is_white p || is_black p))) interior_data in
    let content_mask :=
      if negb (np.any content_mask)
      then map (map (fun p => negb (is_white p))) interior_data
      else content_mask in
    if negb (np.any content_mask) then None
    else
      (* Find bounding box of content in the interior region *)
      let rows := np.any_axis1 content_mask in
      let cols := np.any_axis0 content_mask in
      if negb (np.any1 rows) || negb (np.any1 cols) then None
      else
        let y_indices := np.where_ rows in
        let x_indices := np.where_ cols in
        if (Z.of_nat (length y_indices) =? 0) || (Z.of_nat (length x_indices) =? 0)
        then None
        else
          (* Get bounds relative to interior *)
          let interior_y_min := first_index y_indices in
          let interior_y_max := last_index y_indices in
          let interior_x_min := first_index x_indices in
          let interior_x_max := last_index x_indices in
          (* Convert back to full image coordinates *)
          let x_min := interior_x_min + border_x in
          let x_max := interior_x_max + border_x in
          let y_min := interior_y_min + border_y in
          let y_max := interior_y_max + border_y in
          Some (x_min, y_min, x_max + 1, y_max + 1).

(** Lines 100-114: the content box grown by the padding and clamped, as in
    [crop_logos.py]. *)
Definition padded_bounds (img : image) (bbox : box) (padding_percent : Q) : box :=
  let '(x1, y1, x2, y2) := bbox in
  let content_width := x2 - x1 in
  let content_height := y2 - y1 in
  let pad_x :=
    int (float_div (float_mul (float (inject_Z content_width)) (float padding_percent))
                   100) in
  let pad_y :=
    int (float_div (float_mul (float (inject_Z content_height)) (float padding_percent))
                   100) in
  let new_x1 := Z.max 0 (x1 - pad_x) in
  let new_y1 := Z.max 0 (y1 - pad_y) in
  let new_x2 := Z.min (fst (PIL.size img)) (x2 + pad_x) in
  let new_y2 := Z.min (snd (PIL.size img)) (y2 + pad_y) in
  (new_x1, new_y1, new_x2, new_y2).

(** Lines 119-130: the crop centred on a white RGB square canvas. *)
Definition make_square (cropped : image) : image :=
  let '(width, height) := PIL.size cropped in
  let max_dim := Z.max width height in
  let square_img := PIL.Image_new RGB (max_dim, max_dim) white in
  let offset := ((max_dim - width) / 2, (max_dim - height) / 2) in
  PIL.paste square_img cropped offset None.

Definition content_detected_line (bbox : box) : String.string :=
  let '(x1, y1, x2, y2) := bbox in
  String.concat String.EmptyString
    ["    Content detected: "; str (x2 - x1); "x"; str (y2 - y1);
     " at ("; str x1; ","; str y1; ")"]%string.

Definition crop_with_padding (img : image) (padding_percent : Q)
  : image * list String.string :=
  match remove_border_and_find_content img (5 # 100) with
  | None =>
      (* Couldn't find content, return original *)
      (img, ["    Warning: Could not detect content, keeping original"%string])
  | Some bbox =>
      let cropped := PIL.crop img (padded_bounds img bbox padding_percent) in
      (make_square cropped, [content_detected_line bbox])
  end.

End crop_logos_v2.

(** ** crop_logos_tight.py *)

Module crop_logos_tight.

Definition find_tight_content (img : image) (border_threshold : Q) : option box :=
  (* Convert to RGB *)
  let img :=
    match img_mode img with
    | RGBA =>
        let bg := PIL.Image_new RGB (PIL.size img) white in
        PIL.paste bg img (0, 0) (Some (PIL.alpha_band img))
    | RGB => img
    | _ => PIL.convert_RGB img
    end in
  (* Convert to numpy array *)
  let data := np.array img in
  let '(width, height) := PIL.size img in
  (* Calculate border size to ignore *)
  let border_x := int (inject_Z width * border_threshold) in
  let border_y := int (inject_Z height * border_threshold) in
  (* Crop out the border area *)
  let interior_data :=
    map (py_slice border_x (width - border_x))
        (py_slice border_y (height - border_y) data) in
  if np.size 3 interior_data =? 0 then None
  else
    (* Content is anything that's not pure white or pure black *)
    let content_mask := map (map (fun p => negb (is_white p || is_black p))) interior_data in
    let content_mask :=
      if negb (np.any content_mask)
      then map (map (fun p => negb (is_white p))) interior_data
      else content_mask in
    if negb (np.any content_mask) then None
    else
      (* Find bounding box of content *)
      let rows := np.any_axis1 content_mask in
      let cols := np.any_axis0 content_mask in
      if negb (np.any1 rows) || negb (np.any1 cols) then None
      else
        let y_indices := np.where_ rows in
        let x_indices := np.where_ cols in
        if (Z.of_nat (length y_indices) =? 0) || (Z.of_nat (length x_indices) =? 0)
        then None
        else
          (* Get bounds relative to interior *)
          let interior_y_min := first_index y_indices in
          let interior_y_max := last_index y_indices in
          let interior_x_min := first_index x_indices in
          let interior_x_max := last_index x_indices in
          (* Convert back to full image coordinates *)
          let x_min := interior_x_min + border_x in
          let x_max := interior_x_max + border_x in
          let y_min := interior_y_min + border_y in
          let y_max := interior_y_max + border_y in
          Some (x_min, y_min, x_max + 1, y_max + 1).

(** Lines 95-109: the content box grown by the padding and clamped, as in
    [crop_logos.py]. *)
Definition padded_bounds (img : image) (bbox : box) (padding_percent : Q) : box :=
  let '(x1, y1, x2, y2) := bbox in
  let content_width := x2 - x1 in
  let content_height := y2 - y1 in
  let pad_x :=
    int (float_div (float_mul (float (inject_Z content_width)) (float padding_percent))
                   100) in
  let pad_y :=
    int (float_div (float_mul (float (inject_Z content_height)) (float padding_percent))
                   100) in
  let new_x1 := Z.max 0 (x1 - pad_x) in
  let new_y1 := Z.max 0 (y1 - pad_y) in
  let new_x2 := Z.min (fst (PIL.size img)) (x2 + pad_x) in
  let new_y2 := Z.min (snd (PIL.size img)) (y2 + pad_y) in
  (new_x1, new_y1, new_x2, new_y2).

Definition content_line (bbox : box) : String.string :=
  let '(x1, y1, x2, y2) := bbox in
  String.concat String.EmptyString
    ["    Content: "; str (x2 - x1); "x"; str (y2 - y1);
     " at ("; str x1; ","; str y1; ")"]%string.

Definition crop_tight_with_padding (img : image) (padding_percent : Q)
  : image * list String.string :=
  match find_tight_content img (5 # 100) with
  | None => (img, ["    Warning: Could not detect content"%string])
  | Some bbox =>
      (* Crop to new bounds - keep as rectangle *)
      let cropped := PIL.crop img (padded_bounds img bbox padding_percent) in
      (cropped, [content_line bbox])
  end.

End crop_logos_tight.

(** ** analyze_logos.py *)

Module analyze_logos.

Record padding_report : Type := mkPadding {
  left : Q; right : Q; top : Q; bottom : Q
}.

Record report : Type := mkReport {
  size : Z * Z;
  content_bounds : box;
  content_size : Z * Z;
  padding : padding_report;
  needs_crop : bool
}.

Definition gt (a b : Q) : bool := negb (Qle_bool a b).

(** Content is where: alpha > 50 AND (r < 240 OR g < 240 OR b < 240) *)
Definition is_content (p : pixel) : bool :=
  (A p >? 50) && ((R p <? 240) || (G p <? 240) || (B p <? 240)).

(** [analyze_logo] after [Image.open] has decoded the file. *)
Definition analyze_logo (img : image) : option report * option String.string :=
  (* Convert to RGBA if not already *)
  let img := match img_mode img with RGBA => img | _ => PIL.convert_RGBA img end in
  let data := np.array img in
  let content_mask := map (map is_content) data in
  if negb (np.any content_mask) then (None, Some "No content detected"%string)
  else
    let rows := np.any_axis1 content_mask in
    let cols := np.any_axis0 content_mask in
    if negb (np.any1 rows) || negb (np.any1 cols)
    then (None, Some "No content detected"%string)
    else
      let y_min := first_index (np.where_ rows) in
      let y_max := last_index (np.where_ rows) in
      let x_min := first_index (np.where_ cols) in
      let x_max := last_index (np.where_ cols) in
      let '(width, height) := PIL.size img in
      let content_width := x_max - x_min + 1 in
      let content_height := y_max - y_min + 1 in
      (* Calculate padding percentages *)
      let left_pad := (inject_Z x_min / inject_Z width * 100)%Q in
      let right_pad := (inject_Z (width - x_max - 1) / inject_Z width * 100)%Q in
      let top_pad := (inject_Z y_min / inject_Z height * 100)%Q in
      let bottom_pad := (inject_Z (height - y_max - 1) / inject_Z height * 100)%Q in
      (Some {| size := (width, height);
               content_bounds := (x_min, y_min, x_max, y_max);
               content_size := (content_width, content_height);
               padding := mkPadding left_pad right_pad top_pad bottom_pad;
               needs_crop := gt left_pad 15 || gt right_pad 15
                             || gt top_pad 15 || gt bottom_pad 15 |},
       None).

End analyze_logos.

(** ** Notions used in the statements *)

(** The prelude shared by [get_content_bounds], [find_tight_content] and
    [remove_border_and_find_content]: the image as RGB, transparent parts
    composited over white. *)
Definition rgb_on_white (img : image) : image :=
  match img_mode img with
  | RGBA =>
      let bg := PIL.Image_new RGB (PIL.size img) white in
      PIL.paste bg img (0, 0) (Some (PIL.alpha_band img))
  | RGB => img
  | _ => PIL.convert_RGB img
  end.

(** The border ignored on each side, and the interior that is searched. *)
Definition border (extent : Z) (border_threshold : Q) : Z :=
  int (inject_Z extent * border_threshold).

Definition interior (im : image) (border_threshold : Q) : list (list pixel) :=
  let bx := border (img_width im) border_threshold in
  let b_y := border (img_height im) border_threshold in
  map (py_slice bx (img_width im - bx)) (py_slice b_y (img_height im - b_y) (np.array im)).

(** First-pass mask (neither near-white nor near-black) and fallback mask
    (not near-white). *)
Definition first_pass_mask (a : list (list pixel)) : list (list bool) :=
  map (map (fun p => negb (is_white p || is_black p))) a.

Definition fallback_mask (a : list (list pixel)) : list (list bool) :=
  map (map (fun p => negb (is_white p))) a.

(** All rows of a matrix have the width of the first one. *)
Definition rect {T : Type} (m : list (list T)) : Prop :=
  Forall (fun r => length r = np.ncols m) m.

(** A box with exclusive upper bounds, non-empty and inside the image. *)
Definition exclusive_box_in (img : image) (b : box) : Prop :=
  let '(x_min, y_min, x_max, y_max) := b in
  0 <= x_min /\ x_min < x_max /\ x_max <= img_width img /\
  0 <= y_min /\ y_min < y_max /\ y_max <= img_height img.

(** A box with inclusive upper bounds inside the image. *)
Definition inclusive_box_in (img : image) (b : box) : Prop :=
  let '(x_min, y_min, x_max, y_max) := b in
  0 <= x_min /\ x_min <= x_max /\ x_max < img_width img /\
  0 <= y_min /\ y_min <= y_max /\ y_max < img_height img.

(** A box returned by one of the three detection functions of the crop
    scripts. *)
Definition detected (img : image) (b : box) : Prop :=
  crop_logos.get_content_bounds img = Some b \/
  (exists t, (0 <= t)%Q /\ crop_logos_tight.find_tight_content img t = Some b) \/
  (exists t, (0 <= t)%Q /\ crop_logos_v2.remove_border_and_find_content img t = Some b).

(** The padding in pixels that the three scripts compute from a content
    size: [int(content_size * padding_percent / 100)]. *)
Definition pad_pixels (content_size : Z) (padding_percent : Q) : Z :=
  int (float_div (float_mul (float (inject_Z content_size)) (float padding_percent)) 100).

(** A pure black pixel; where there is an alpha channel it is opaque. *)
Definition pure_black (m : mode) (p : pixel) : Prop :=
  R p = 0 /\ G p = 0 /\ B p = 0 /\ (m = RGBA -> A p = 255).

(** A pixel whose three colour channels are 255. *)
Definition pure_white (p : pixel) : Prop := R p = 255 /\ G p = 255 /\ B p = 255.

(** Two pixels with the same three colour channels. *)
Definition same_colour (p q : pixel) : Prop :=
  R p = R q /\ G p = G q /\ B p = B q.

(** Images of one colour, and the scene of the round-trip scenario. *)
Definition uniform (m : mode) (w h : Z) (p : pixel) : image :=
  PIL.build m w h (fun _ _ => p).

(** An RGBA strip: two opaque black pixels with a transparent one between. *)
Definition transparent_gap : image :=
  PIL.build RGBA 3 1 (fun x _ => if x =? 1 then zero_pixel else black).


(** A white row of pixels of the given width, black from [x1] up to
    [x2], and a white 3x3 image with a black pixel in the middle. *)
Definition strip (width x1 x2 : Z) : image :=
  PIL.build RGB width 1 (fun x _ => if (x1 <=? x) && (x <? x2) then black else white).


(** Content sizes (the multiples of 25 below 750) and percentages (the
    tenths from 0 to 30 percent), and a few others, on which [pad_pixels]
    is compared with [binary64_pad]. *)
Definition pad_samples : list (Z * Z * Z) :=
  flat_map (fun i => map (fun k => (25 * Z.of_nat i, Z.of_nat k, 10)) (seq 0 301))
           (seq 0 30)
  ++ [(1500, 46, 10); (1000, 3, 10); (1, 100, 1); (1, 99, 1); (4096, 1, 3);
      (123456789, 1234567, 1000); (2147483647, 8, 1); (20, 5, 1); (7, 1, 1000000);
      (9007199254740991, 1, 1); (3, 1, 9007199254740991)].

Definition square_scene : image :=
  PIL.build RGB 100 100 (fun x y =>
    if (40 <=? x) && (x <? 60) && (40 <=? y) && (y <? 60) then black else white).

(** ** The batch loops of the crop scripts *)

(** [s.startswith(prefix)] and [s.endswith(suffix)]. *)
Fixpoint py_startswith (s prefix : string) {struct prefix} : bool :=
  match prefix with
  | EmptyString => true
  | String a prefix' =>
      match s with
      | EmptyString => false
      | String b s' => Ascii.eqb a b && py_startswith s' prefix'
      end
  end.

Fixpoint py_endswith (s suffix : string) : bool :=
  String.eqb s suffix ||
  match s with
  | EmptyString => false
  | String _ s' => py_endswith s' suffix
  end.

(** [s.replace(old, new)]: the occurrences of [old] found from left to
    right, without overlap, become [new]; an empty [old] matches before
    every character and at the end.  [skip] counts the characters of an
    occurrence that are still to be dropped. *)
Fixpoint interleave (new s : string) : string :=
  match s with
  | EmptyString => new
  | String c s' => (new ++ String c (interleave new s'))%string
  end.

Fixpoint replace_aux (skip : nat) (old new s : string) : string :=
  match s with
  | EmptyString => EmptyString
  | String c s' =>
      match skip with
      | S k => replace_aux k old new s'
      | O => if py_startswith s old
             then (new ++ replace_aux (String.length old - 1) old new s')%string
             else String c (replace_aux O old new s')
      end
  end.

Definition py_replace (s old new : string) : string :=
  match old with
  | EmptyString => interleave new s
  | _ => replace_aux 0 old new s
  end.

Module batch.

(** [filename.endswith(('.jpg', '.png', '.jpeg'))] *)
Definition accepted (filename : string) : bool :=
  py_endswith filename ".jpg" || py_endswith filename ".png"
  || py_endswith filename ".jpeg".

(** [filename.replace('.png', '.jpg')] *)
Definition output_filename (filename : string) : string :=
  py_replace filename ".png" ".jpg".

(** "Convert RGBA to RGB if needed", before saving. *)
Definition flatten (cropped_img : image) : image :=
  match img_mode cropped_img with
  | RGBA =>
      let rgb_img := PIL.Image_new RGB (PIL.size cropped_img) white in
      PIL.paste rgb_img cropped_img (0, 0) (Some (PIL.alpha_band cropped_img))
  | _ => cropped_img
  end.

(** The state of a run: the files written to the output directory (the
    latest first: a file written again replaces the earlier one) and the
    two counters.  What the loops print is not part of it. *)
Record state : Type := mkState {
  written : list (string * image);
  processed : Z;
  skipped : Z
}.

Definition initial : state := mkState [] 0 0.

(** One iteration.  [open_image] is [Image.open] on the input directory
    ([None]: it raises) and [save_ok] tells whether [save] succeeds; an
    exception from either is caught and counted as skipped. *)
Definition process_file (crop : image -> image)
  (open_image : string -> option image) (save_ok : string -> image -> bool)
  (st : state) (filename : string) : state :=
  if negb (accepted filename) then st
  else
    match open_image filename with
    | None => mkState (written st) (processed st) (skipped st + 1)
    | Some img =>
        let cropped_img := crop img in
        let cropped_img := flatten cropped_img in
        let final_output := output_filename filename in
        if save_ok final_output cropped_img
        then mkState ((final_output, cropped_img) :: written st)
                     (processed st + 1) (skipped st)
        else mkState (written st) (processed st) (skipped st + 1)
    end.

(** The loop over [sorted(os.listdir(logo_dir))]. *)
Definition run (crop : image -> image)
  (open_image : string -> option image) (save_ok : string -> image -> bool)
  (listing : list string) : state :=
  fold_left (process_file crop open_image save_ok) listing initial.

(** The loops of the three scripts. *)
Definition crop_logos_run := run (fun img => crop_logos.crop_with_padding img 8).
Definition crop_logos_v2_run :=
  run (fun img => fst (crop_logos_v2.crop_with_padding img 10)).
Definition crop_logos_tight_run :=
  run (fun img => fst (crop_logos_tight.crop_tight_with_padding img 5)).

End batch.

(** What is known of a file written by a run over [listing]: it is the
    flattened crop of an accepted input that could be opened. *)
Definition written_from (crop : image -> image)
  (open_image : string -> option image) (listing : list string)
  (entry : string * image) : Prop :=
  exists filename img,
    In filename listing /\ batch.accepted filename = true /\
    open_image filename = Some img /\
    fst entry = batch.output_filename filename /\
    snd entry = batch.flatten (crop img).

(** ** Notions used in the further properties *)

(** The flag of a mask at column [x] of row [y]. *)
Definition mask_at (m : list (list bool)) (x y : nat) : bool :=
  nth x (nth y m []) false.

(** A position of the image, and a position of a box with exclusive upper
    bounds. *)
Definition in_image (im : image) (x y : Z) : Prop :=
  0 <= x < img_width im /\ 0 <= y < img_height im.

Definition inside (b : box) (x y : Z) : Prop :=
  let '(x1, y1, x2, y2) := b in x1 <= x < x2 /\ y1 <= y < y2.


(** The content test of [get_content_bounds]: the difference with white
    has a non-zero band. *)
Definition differs_from_white (p : pixel) : bool :=
  PIL.nonzero (PIL.difference_pixel p white).



(** The image as [analyze_logo] reads it, and the percentage it reports for
    a margin of [n] pixels out of [extent]. *)
Definition as_rgba (img : image) : image :=
  match img_mode img with RGBA => img | _ => PIL.convert_RGBA img end.

Definition percent_of (n extent : Z) : Q := inject_Z n / inject_Z extent * 100.

(** * Properties *)

(** ** Index vectors *)

Section IndexVectors.

Lemma where_from_In (v : list bool) : forall i j,
  In j (np.where_from i v) <->
  i <= j < i + Z.of_nat (length v) /\ nth (Z.to_nat (j - i)) v false = true.
Proof.
  induction v as [|b v IH]; intros i j; simpl.
  - split; [tauto | lia].
  - assert (Hstep : forall P : Prop,
              (In j (np.where_from (i + 1) v) \/ P) <->
              (i + 1 <= j < i + 1 + Z.of_nat (length v) /\
               nth (Z.to_nat (j - (i + 1))) v false = true) \/ P)
      by (intro P; rewrite IH; tauto).
    destruct b; simpl.
    + rewrite or_comm, Hstep. split.
      * intros [[Hr Hn] | ->].
        -- split; [lia|].
           replace (Z.to_nat (j - i)) with (S (Z.to_nat (j - (i + 1)))) by lia.
           exact Hn.
        -- rewrite Z.sub_diag. simpl. split; [lia | reflexivity].
      * intros [Hr Hn].
        destruct (Z.eq_dec i j) as [->|Hne]; [right; reflexivity | left].
        split; [lia|].
        replace (Z.to_nat (j - i)) with (S (Z.to_nat (j - (i + 1)))) in Hn by lia.
        exact Hn.
    + rewrite IH. split.
      * intros [Hr Hn]. split; [lia|].
        replace (Z.to_nat (j - i)) with (S (Z.to_nat (j - (i + 1)))) by lia.
        exact Hn.
      * intros [Hr Hn].
        destruct (Z.eq_dec i j) as [->|Hne].
        -- rewrite Z.sub_diag in Hn. simpl in Hn. discriminate.
        -- split; [lia|].
           replace (Z.to_nat (j - i)) with (S (Z.to_nat (j - (i + 1)))) in Hn by lia.
           exact Hn.
Qed.

Lemma where_In (v : list bool) (j : Z) :
  In j (np.where_ v) <->
  0 <= j < Z.of_nat (length v) /\ nth (Z.to_nat j) v false = true.
Proof.
  unfold np.where_. rewrite where_from_In, Z.sub_0_r. tauto.
Qed.

(** The indices come out in increasing order. *)
Lemma where_from_increasing (v : list bool) : forall i a rest,
  np.where_from i v = a :: rest -> Forall (fun j => a < j) rest.
Proof.
  induction v as [|b v IH]; intros i a rest; simpl; [discriminate|].
  destruct b.
  - intros H. injection H as <- <-.
    apply Forall_forall. intros j Hj. apply where_from_In in Hj. lia.
  - apply IH.
Qed.

Lemma where_from_tail (v : list bool) : forall i a rest,
  np.where_from i v = a :: rest -> exists v', rest = np.where_from (a + 1) v'.
Proof.
  induction v as [|b v IH]; intros i a rest; simpl; [discriminate|].
  destruct b.
  - intros H. injection H as <- <-. now exists v.
  - apply IH.
Qed.

Lemma where_from_first_last (v : list bool) : forall i,
  np.where_from i v <> [] ->
  In (first_index (np.where_from i v)) (np.where_from i v) /\
  In (last_index (np.where_from i v)) (np.where_from i v) /\
  forall j, In j (np.where_from i v) ->
    first_index (np.where_from i v) <= j <= last_index (np.where_from i v).
Proof.
  intros i. remember (np.where_from i v) as l eqn:Hl.
  revert v i Hl. induction l as [|a l IH]; intros v i Hl Hne; [congruence|].
  symmetry in Hl.
  pose proof (where_from_increasing _ _ _ _ Hl) as Hinc.
  destruct (where_from_tail _ _ _ _ Hl) as [v' Hv'].
  unfold first_index, last_index in *. cbn [hd].
  destruct l as [|a' l'].
  - simpl. split; [now left|]. split; [now left|].
    intros j [<-|[]]. lia.
  - assert (Hne' : a' :: l' <> []) by discriminate.
    destruct (IH v' (a + 1) Hv' Hne') as (Hf & Hlast & Hall).
    change (last (a :: a' :: l') 0) with (last (a' :: l') 0).
    split; [now left|]. split; [now right|].
    intros j [<-|Hj].
    + split; [lia|].
      specialize (Hall _ Hlast).
      rewrite Forall_forall in Hinc. specialize (Hinc _ Hlast). lia.
    + specialize (Hall _ Hj).
      rewrite Forall_forall in Hinc. specialize (Hinc _ Hj). lia.
Qed.

Lemma any1_where (v : list bool) : np.any1 v = true <-> np.where_ v <> [].
Proof.
  unfold np.any1. rewrite existsb_exists. split.
  - intros (b & Hin & ->). apply In_nth with (d := false) in Hin.
    destruct Hin as (n & Hn & Hnth).
    intros Hnil.
    assert (Hj : In (Z.of_nat n) (np.where_ v)).
    { apply where_In. rewrite Nat2Z.id. split; [lia | exact Hnth]. }
    rewrite Hnil in Hj. exact Hj.
  - intros Hne. destruct (np.where_ v) as [|j l] eqn:Hw; [congruence|].
    assert (Hj : In j (np.where_ v)) by (rewrite Hw; now left).
    apply where_In in Hj. destruct Hj as [Hr Hn].
    exists true. split; [|reflexivity].
    rewrite <- Hn. apply nth_In. lia.
Qed.

(** First and last index of a vector with a true flag: both are positions
    of true flags, and every true flag lies between them. *)
Lemma first_last_spec (v : list bool) :
  np.any1 v = true ->
  let a := first_index (np.where_ v) in
  let b := last_index (np.where_ v) in
  0 <= a <= b /\ b < Z.of_nat (length v) /\
  nth (Z.to_nat a) v false = true /\ nth (Z.to_nat b) v false = true /\
  forall j, 0 <= j < Z.of_nat (length v) -> nth (Z.to_nat j) v false = true ->
            a <= j <= b.
Proof.
  intros Hany a b. apply any1_where in Hany.
  destruct (where_from_first_last v 0 Hany) as (Hf & Hl & Hall).
  fold (np.where_ v) in Hf, Hl, Hall. fold a in Hf, Hall. fold b in Hl, Hall.
  pose proof (Hall _ Hf) as Hab.
  apply where_In in Hf. apply where_In in Hl.
  repeat split; try lia; try tauto.
  - apply Hall, where_In. tauto.
  - apply Hall, where_In. tauto.
Qed.

End IndexVectors.

(** ** Rows, slices and masks *)

Section Matrices.

Context {T : Type}.

Lemma build_rows_length (w h : Z) (f : Z -> Z -> T) :
  length (build_rows w h f) = Z.to_nat h.
Proof. unfold build_rows. now rewrite length_map, length_seq. Qed.

Lemma build_rows_row_length (w h : Z) (f : Z -> Z -> T) :
  Forall (fun r => length r = Z.to_nat w) (build_rows w h f).
Proof.
  unfold build_rows. apply Forall_forall. intros r Hr.
  apply in_map_iff in Hr. destruct Hr as (y & <- & _).
  now rewrite length_map, length_seq.
Qed.

Lemma build_rows_Forall (P : T -> Prop) (w h : Z) (f : Z -> Z -> T) :
  (forall x y, 0 <= x < w -> 0 <= y < h -> P (f x y)) ->
  Forall (Forall P) (build_rows w h f).
Proof.
  intros Hf. unfold build_rows. apply Forall_forall. intros r Hr.
  apply in_map_iff in Hr. destruct Hr as (y & <- & Hy).
  apply in_seq in Hy. apply Forall_forall. intros p Hp.
  apply in_map_iff in Hp. destruct Hp as (x & <- & Hx).
  apply in_seq in Hx. apply Hf; lia.
Qed.

Lemma build_rows_nth (d : T) (w h : Z) (f : Z -> Z -> T) (x y : Z) :
  0 <= x < w -> 0 <= y < h ->
  nthZ d (nthZ [] (build_rows w h f) y) x = f x y.
Proof.
  intros Hx Hy. unfold nthZ, build_rows.
  destruct (Z.ltb_spec y 0); [lia|]. destruct (Z.ltb_spec x 0); [lia|].
  rewrite nth_indep with (d' := map (fun x => f (Z.of_nat x) (Z.of_nat 0)) (seq 0 (Z.to_nat w)))
    by (rewrite length_map, length_seq; lia).
  rewrite (map_nth (fun y => map (fun x => f (Z.of_nat x) (Z.of_nat y)) (seq 0 (Z.to_nat w)))).
  rewrite seq_nth by lia.
  rewrite nth_indep with (d' := f (Z.of_nat 0) (Z.of_nat (0 + Z.to_nat y)))
    by (rewrite length_map, length_seq; lia).
  rewrite (map_nth (fun x => f (Z.of_nat x) (Z.of_nat (0 + Z.to_nat y)))).
  rewrite seq_nth by lia.
  f_equal; lia.
Qed.

Lemma py_slice_incl (a b : Z) (l : list T) : incl (py_slice a b l) l.
Proof.
  unfold py_slice. intros x Hx.
  match type of Hx with In _ (firstn ?n ?s) =>
    assert (Hs : In x s)
      by (rewrite <- (firstn_skipn n s); apply in_or_app; now left)
  end.
  match type of Hs with In _ (skipn ?n _) =>
    rewrite <- (firstn_skipn n l); apply in_or_app; now right
  end.
Qed.

Lemma py_slice_Forall (P : T -> Prop) (a b : Z) (l : list T) :
  Forall P l -> Forall P (py_slice a b l).
Proof.
  intros H. apply Forall_forall. intros x Hx.
  rewrite Forall_forall in H. apply H. eapply py_slice_incl; eauto.
Qed.

(** A non-empty slice that starts at [a >= 0] ends inside the list. *)
Lemma py_slice_fits (a b : Z) (l : list T) :
  0 <= a -> py_slice a b l <> [] ->
  a + Z.of_nat (length (py_slice a b l)) <= Z.of_nat (length l).
Proof.
  intros Ha Hne. unfold py_slice in *.
  destruct (Z.ltb_spec a 0) as [|_]; [lia|].
  destruct (Z.le_gt_cases (Z.of_nat (length l)) a) as [Hbig|Hsmall].
  - exfalso. apply Hne.
    rewrite (Z.min_r a) by lia. rewrite Nat2Z.id, skipn_all. apply firstn_nil.
  - rewrite (Z.min_l a) in * by lia.
    rewrite length_firstn, length_skipn. lia.
Qed.

(** A slice between two positions of the list has the expected length. *)
Lemma py_slice_length (a b : Z) (l : list T) :
  0 <= a <= b -> b <= Z.of_nat (length l) ->
  length (py_slice a b l) = Z.to_nat (b - a).
Proof.
  intros Hab Hb. unfold py_slice.
  destruct (Z.ltb_spec a 0); [lia|]. destruct (Z.ltb_spec b 0); [lia|].
  rewrite (Z.min_l a), (Z.min_l b) by lia.
  rewrite length_firstn, length_skipn. lia.
Qed.

End Matrices.

Section Masks.

Lemma any_axis1_any (m : list (list bool)) :
  np.any1 (np.any_axis1 m) = np.any m.
Proof.
  unfold np.any1, np.any_axis1, np.any.
  induction m as [|r m IH]; simpl; [reflexivity|].
  now rewrite IH.
Qed.

Lemma any_axis1_length (m : list (list bool)) :
  length (np.any_axis1 m) = length m.
Proof. apply length_map. Qed.

Lemma any_axis0_length (m : list (list bool)) :
  length (np.any_axis0 m) = np.ncols m.
Proof. unfold np.any_axis0. now rewrite length_map, length_seq. Qed.

Lemma any_axis0_nth (m : list (list bool)) (j : nat) :
  (j < np.ncols m)%nat ->
  nth j (np.any_axis0 m) false = existsb (fun row => nth j row false) m.
Proof.
  intros Hj. unfold np.any_axis0.
  rewrite nth_indep with (d' := existsb (fun row => nth 0%nat row false) m)
    by (rewrite length_map, length_seq; exact Hj).
  rewrite (map_nth (fun j => existsb (fun row => nth j row false) m)).
  now rewrite seq_nth.
Qed.

Lemma any_axis1_nth (m : list (list bool)) (i : nat) :
  nth i (np.any_axis1 m) false = np.any1 (nth i m []).
Proof.
  unfold np.any_axis1. change false with (np.any1 []) at 1. apply map_nth.
Qed.

Lemma any_axis0_any (m : list (list bool)) :
  rect m -> np.any m = true -> np.any1 (np.any_axis0 m) = true.
Proof.
  intros Hrect Hany. unfold np.any in Hany.
  apply existsb_exists in Hany. destruct Hany as (row & Hrow & Hr).
  unfold np.any1 in Hr. apply existsb_exists in Hr.
  destruct Hr as (b & Hb & ->).
  apply In_nth with (d := false) in Hb. destruct Hb as (j & Hj & Hnth).
  unfold rect in Hrect. rewrite Forall_forall in Hrect.
  rewrite (Hrect _ Hrow) in Hj.
  unfold np.any1. apply existsb_exists. exists true. split; [|reflexivity].
  assert (Hcol : nth j (np.any_axis0 m) false = true).
  { rewrite any_axis0_nth by exact Hj. apply existsb_exists.
    exists row. split; [exact Hrow | exact Hnth]. }
  rewrite <- Hcol. apply nth_In. rewrite any_axis0_length. exact Hj.
Qed.

End Masks.

(** ** The normalised image and the searched interior *)

Section Interior.

Lemma int_nonneg (q : Q) : (0 <= q)%Q -> 0 <= int q.
Proof.
  intros Hq. unfold int. apply Z.quot_pos; [|lia].
  unfold Qle in Hq. simpl in Hq. lia.
Qed.

(** On a non-negative number [int] is the floor. *)
Lemma int_floor (q : Q) : (0 <= q)%Q -> int q = Qfloor q.
Proof.
  intros Hq. destruct q as [n d]. unfold int, Qfloor. simpl.
  unfold Qle in Hq. simpl in Hq.
  apply Z.quot_div_nonneg; lia.
Qed.

Lemma border_nonneg (extent : Z) (t : Q) :
  0 <= extent -> (0 <= t)%Q -> 0 <= border extent t.
Proof.
  intros He Ht. apply int_nonneg.
  apply Qmult_le_0_compat; [|exact Ht].
  unfold Qle. simpl. lia.
Qed.

Lemma wf_built (m : mode) (w h : Z) (f : Z -> Z -> pixel) :
  0 <= w -> 0 <= h -> wf_image (mkImage m w h (build_rows w h f)).
Proof.
  intros Hw Hh. unfold wf_image. simpl.
  rewrite build_rows_length. split; [lia|]. split; [lia|].
  eapply Forall_impl; [|apply build_rows_row_length].
  simpl. intros r ->. lia.
Qed.

Lemma wf_mapped (m : mode) (g : pixel -> pixel) (im : image) :
  wf_image im ->
  wf_image (mkImage m (img_width im) (img_height im) (map (map g) (img_data im))).
Proof.
  intros (Hh & Hw & Hrows). unfold wf_image. simpl.
  rewrite length_map. split; [exact Hh|]. split; [exact Hw|].
  apply Forall_forall. intros r Hr.
  apply in_map_iff in Hr. destruct Hr as (r0 & <- & Hr0).
  rewrite length_map. rewrite Forall_forall in Hrows. now apply Hrows.
Qed.

Lemma wf_height_nonneg (im : image) : wf_image im -> 0 <= img_height im.
Proof. intros (Hh & _). lia. Qed.

Lemma rgb_on_white_wf (img : image) :
  wf_image img ->
  wf_image (rgb_on_white img) /\
  img_width (rgb_on_white img) = img_width img /\
  img_height (rgb_on_white img) = img_height img.
Proof.
  intros Hwf. pose proof (wf_height_nonneg _ Hwf) as Hh.
  destruct Hwf as (Hlen & Hw & Hrows).
  unfold rgb_on_white. destruct (img_mode img).
  - repeat split; auto.
  - unfold PIL.paste, PIL.Image_new, PIL.build, PIL.size. simpl.
    rewrite !Z.max_r by lia.
    split; [apply wf_built; lia | split; reflexivity].
  - unfold PIL.convert_RGB.
    split; [apply wf_mapped; repeat split; auto | split; reflexivity].
Qed.

Lemma interior_rows_fit (im : image) (t : Q) :
  wf_image im -> (0 <= t)%Q -> interior im t <> [] ->
  border (img_height im) t + Z.of_nat (length (interior im t)) <= img_height im.
Proof.
  intros Hwf Ht Hne. pose proof (wf_height_nonneg _ Hwf) as Hh.
  destruct Hwf as (Hlen & Hw & Hrows).
  unfold interior in *. rewrite length_map.
  match goal with |- context [py_slice ?a ?b ?l] =>
    pose proof (py_slice_fits a b l) as Hfit
  end.
  unfold np.array in *. rewrite Hlen in Hfit. apply Hfit.
  - apply border_nonneg; assumption.
  - intros Hnil. apply Hne. now rewrite Hnil.
Qed.

Lemma interior_cols_fit (im : image) (t : Q) :
  wf_image im -> (0 <= t)%Q -> np.ncols (interior im t) <> 0%nat ->
  border (img_width im) t + Z.of_nat (np.ncols (interior im t)) <= img_width im.
Proof.
  intros Hwf Ht Hne. destruct Hwf as (Hlen & Hw & Hrows).
  unfold interior, np.ncols in *.
  set (rows := py_slice _ _ (np.array im)) in *.
  assert (Hsub : incl rows (img_data im)) by apply py_slice_incl.
  destruct rows as [|r rows']; simpl in *; [congruence|].
  assert (Hr : Z.of_nat (length r) = img_width im).
  { rewrite Forall_forall in Hrows. apply Hrows, Hsub. now left. }
  match goal with |- context [py_slice ?a ?b r] =>
    pose proof (py_slice_fits a b r) as Hfit
  end.
  rewrite Hr in Hfit. apply Hfit.
  - apply border_nonneg; assumption.
  - intros Hnil. apply Hne. now rewrite Hnil.
Qed.

Lemma ncols_mask {T U : Type} (g : T -> U) (a : list (list T)) :
  np.ncols (map (map g) a) = np.ncols a.
Proof. unfold np.ncols. destruct a; simpl; [reflexivity | apply length_map]. Qed.

(** The rows/columns reduction of a mask with a true row flag and a true
    column flag: the four indices lie inside the mask. *)
Lemma extent_bounds (m : list (list bool)) :
  np.any1 (np.any_axis1 m) = true -> np.any1 (np.any_axis0 m) = true ->
  let xs := np.where_ (np.any_axis0 m) in
  let ys := np.where_ (np.any_axis1 m) in
  (0 <= first_index xs <= last_index xs /\ last_index xs < Z.of_nat (np.ncols m)) /\
  (0 <= first_index ys <= last_index ys /\ last_index ys < Z.of_nat (length m)).
Proof.
  intros Hr Hc xs ys.
  destruct (first_last_spec _ Hc) as (H1 & H2 & _).
  destruct (first_last_spec _ Hr) as (H3 & H4 & _).
  rewrite any_axis0_length in H2. rewrite any_axis1_length in H4.
  subst xs ys. tauto.
Qed.

End Interior.

(** ** Rounding to binary64 *)

Section Binary64.

(** [round_half_even N D] is within one half of N / D. *)
Lemma round_half_even_spec (N D : Z) :
  0 < D ->
  - D <= 2 * (round_half_even N D * D - N) <= D.
Proof.
  intros HD. unfold round_half_even.
  pose proof (Z.div_mod N D ltac:(lia)) as E.
  pose proof (Z.mod_pos_bound N D HD) as Hr.
  set (q := N / D) in *. set (r := N mod D) in *.
  destruct (2 * r <? D) eqn:E1; [apply Z.ltb_lt in E1; nia|].
  apply Z.ltb_ge in E1.
  destruct (D <? 2 * r) eqn:E2; [apply Z.ltb_lt in E2; nia|].
  apply Z.ltb_ge in E2.
  destruct (Z.even q); nia.
Qed.

Lemma round_half_even_nonneg (N D : Z) :
  0 <= N -> 0 < D -> 0 <= round_half_even N D.
Proof.
  intros HN HD. unfold round_half_even.
  pose proof (Z.div_pos N D HN HD) as Hq.
  destruct (2 * (N mod D) <? D); [exact Hq|].
  destruct (D <? 2 * (N mod D)); [lia|].
  destruct (Z.even (N / D)); lia.
Qed.

(** [binade] is the binary exponent of a / d: 2^binade <= a / d, *)
Lemma binade_lower (a d : Z) :
  0 < a -> 0 < d -> le_pow2 a d (binade a d) = true.
Proof.
  intros Ha Hd. unfold binade.
  set (l := Z.log2 a - Z.log2 d).
  destruct (le_pow2 a d l) eqn:E; [exact E|].
  pose proof (Z.log2_spec a Ha) as [Ha1 _].
  pose proof (Z.log2_spec d Hd) as [_ Hd2].
  pose proof (Z.log2_nonneg a) as Hla.
  pose proof (Z.log2_nonneg d) as Hld.
  unfold le_pow2.
  destruct (0 <=? l - 1) eqn:E1.
  - apply Z.leb_le in E1. apply Z.leb_le.
    assert (Hp : 2 ^ (Z.log2 d + 1) * 2 ^ (l - 1) = 2 ^ Z.log2 a).
    { rewrite <- Z.pow_add_r by lia. f_equal. unfold l. lia. }
    assert (0 < 2 ^ (l - 1)) by (apply Z.pow_pos_nonneg; lia).
    nia.
  - apply Z.leb_gt in E1. apply Z.leb_le.
    assert (Hp : 2 ^ Z.log2 a * 2 ^ (- (l - 1)) = 2 ^ (Z.log2 d + 1)).
    { rewrite <- Z.pow_add_r by lia. f_equal. unfold l. lia. }
    assert (0 < 2 ^ (- (l - 1))) by (apply Z.pow_pos_nonneg; lia).
    nia.
Qed.

(** and a / d < 2^(binade + 1), so that the significand has 53 bits. *)
Lemma binade_upper (a d : Z) :
  0 < a -> 0 < d -> le_pow2 a d (binade a d + 1) = false.
Proof.
  intros Ha Hd. unfold binade.
  set (l := Z.log2 a - Z.log2 d).
  destruct (le_pow2 a d l) eqn:E.
  - pose proof (Z.log2_spec a Ha) as [_ Ha2].
    pose proof (Z.log2_spec d Hd) as [Hd1 _].
    pose proof (Z.log2_nonneg a) as Hla.
    pose proof (Z.log2_nonneg d) as Hld.
    unfold le_pow2.
    destruct (0 <=? l + 1) eqn:E1.
    + apply Z.leb_le in E1. apply Z.leb_gt.
      assert (Hp : 2 ^ Z.log2 d * 2 ^ (l + 1) = 2 ^ (Z.log2 a + 1)).
      { rewrite <- Z.pow_add_r by lia. f_equal. unfold l. lia. }
      assert (0 < 2 ^ (l + 1)) by (apply Z.pow_pos_nonneg; lia).
      nia.
    + apply Z.leb_gt in E1. apply Z.leb_gt.
      assert (Hp : 2 ^ (Z.log2 a + 1) * 2 ^ (- (l + 1)) = 2 ^ Z.log2 d).
      { rewrite <- Z.pow_add_r by lia. f_equal. unfold l. lia. }
      assert (0 < 2 ^ (- (l + 1))) by (apply Z.pow_pos_nonneg; lia).
      nia.
  - replace (l - 1 + 1) with l by lia. exact E.
Qed.

Lemma round64_pos_nonneg (a d : Z) :
  0 < a -> 0 < d -> (0 <= round64_pos a d)%Q.
Proof.
  intros Ha Hd. unfold round64_pos.
  set (e := Z.max (binade a d - 52) (-1074)).
  destruct (0 <=? e) eqn:E.
  - apply Z.leb_le in E.
    assert (0 < 2 ^ e) by (apply Z.pow_pos_nonneg; lia).
    pose proof (round_half_even_nonneg a (d * 2 ^ e) ltac:(lia) ltac:(nia)).
    unfold Qle. cbn [Qnum Qden inject_Z]. nia.
  - apply Z.leb_gt in E.
    assert (0 < 2 ^ (- e)) by (apply Z.pow_pos_nonneg; lia).
    pose proof (round_half_even_nonneg (a * 2 ^ (- e)) d ltac:(nia) Hd).
    unfold Qle. cbn [Qnum Qden]. lia.
Qed.

(** Equal numbers round to the same float. *)
Lemma round64_comp (q1 q2 : Q) : (q1 == q2)%Q -> round64 q1 = round64 q2.
Proof. intros E. unfold round64. rewrite (Qred_complete _ _ E). reflexivity. Qed.

Lemma round64_nonneg (q : Q) : (0 <= q)%Q -> (0 <= round64 q)%Q.
Proof.
  intros Hq. unfold round64.
  assert (Hr : (0 <= Qred q)%Q) by (rewrite Qred_correct; exact Hq).
  destruct (Qred q) as [n d]. cbn [Qnum Qden].
  destruct n as [|a|a].
  - apply Qle_refl.
  - apply round64_pos_nonneg; lia.
  - unfold Qle in Hr. cbn in Hr. lia.
Qed.

Lemma round64_zero (q : Q) : (q == 0)%Q -> round64 q = 0%Q.
Proof. intros E. rewrite (round64_comp _ _ E). reflexivity. Qed.

(** Rounding a / d = m / 100 with m below 2^53 does not reach the next
    integer: the grid is 1/64 or finer and m / 100 is at least 1/100 below. *)
Lemma round64_pos_hundredth (a d m : Z) :
  0 < a -> 0 < d -> a * 100 = m * d -> m < 2 ^ 53 ->
  (inject_Z (m / 100) <= round64_pos a d)%Q /\
  (round64_pos a d < inject_Z (m / 100 + 1))%Q.
Proof.
  intros Ha Hd Hm Hlt.
  assert (Hmpos : 0 < m) by nia.
  pose proof (binade_lower a d Ha Hd) as Hb.
  assert (He0 : binade a d <= 46).
  { destruct (Z_le_gt_dec (binade a d) 46) as [H|H]; [exact H|exfalso].
    unfold le_pow2 in Hb.
    replace (0 <=? binade a d) with true in Hb by (symmetry; apply Z.leb_le; lia).
    apply Z.leb_le in Hb.
    assert (2 ^ 47 <= 2 ^ binade a d) by (apply Z.pow_le_mono_r; lia).
    change (2 ^ 47) with 140737488355328 in *.
    change (2 ^ 53) with 9007199254740992 in *.
    nia. }
  unfold round64_pos.
  set (e := Z.max (binade a d - 52) (-1074)).
  assert (He : e <= -6) by (unfold e; lia).
  replace (0 <=? e) with false by (symmetry; apply Z.leb_gt; lia).
  set (S := 2 ^ (- e)).
  assert (HS : 64 <= S).
  { change 64 with (2 ^ 6). apply Z.pow_le_mono_r; lia. }
  pose proof (round_half_even_spec (a * S) d Hd) as Hr.
  set (r := round_half_even (a * S) d) in *.
  pose proof (Z.div_mod m 100 ltac:(lia)) as Edm.
  pose proof (Z.mod_pos_bound m 100 ltac:(lia)) as Hr0.
  set (k := m / 100) in *. set (r0 := m mod 100) in *.
  assert (Hd' : - 100 * d <= d * (200 * r - 2 * m * S) <= 100 * d) by nia.
  assert (Hb1 : - 100 <= 200 * r - 2 * m * S <= 100) by nia.
  assert (HkS : k * S <= r < (k + 1) * S) by nia.
  unfold Qle, Qlt. cbn [Qnum Qden inject_Z].
  rewrite Z2Pos.id by lia. lia.
Qed.

(** Truncation of a number between k and k + 1. *)
Lemma int_between (q : Q) (k : Z) :
  0 <= k -> (inject_Z k <= q)%Q -> (q < inject_Z (k + 1))%Q -> int q = k.
Proof.
  intros Hk H1 H2. unfold int. destruct q as [n d].
  unfold Qle, Qlt in *. cbn [Qnum Qden inject_Z] in *.
  assert (0 <= n) by nia.
  rewrite Z.quot_div_nonneg by lia.
  symmetry. apply Z.div_unique with (r := n - k * Zpos d); nia.
Qed.

Lemma int_round64_hundredth (X : Q) (m : Z) :
  (X == inject_Z m / 100)%Q -> 0 <= m < 2 ^ 53 ->
  int (round64 X) = m / 100.
Proof.
  intros E [Hm0 Hm].
  destruct (Z.eq_dec m 0) as [->|Hne].
  - rewrite (round64_zero X); [reflexivity|]. rewrite E. reflexivity.
  - assert (Hr : (Qred X == inject_Z m / 100)%Q) by (rewrite Qred_correct; exact E).
    unfold round64.
    destruct (Qred X) as [n d]. cbn [Qnum Qden].
    assert (Hn : n * 100 = m * Zpos d).
    { unfold Qeq, Qdiv, Qmult, Qinv in Hr. cbn in Hr. lia. }
    destruct n as [|a|a]; try lia.
    destruct (round64_pos_hundredth (Zpos a) (Zpos d) m) as [H1 H2]; try lia.
    apply int_between; try assumption.
    apply Z.div_pos; lia.
Qed.

(** An integer below 2^53 is a float. *)
Lemma round64_integer (X : Q) (m : Z) :
  (X == inject_Z m)%Q -> 0 <= m < 2 ^ 53 -> (round64 X == inject_Z m)%Q.
Proof.
  intros E [Hm0 Hm].
  destruct (Z.eq_dec m 0) as [->|Hne].
  - rewrite (round64_zero X E). reflexivity.
  - assert (Hr : (Qred X == inject_Z m)%Q) by (rewrite Qred_correct; exact E).
    unfold round64.
    destruct (Qred X) as [n d]. cbn [Qnum Qden].
    assert (Hn : n = m * Zpos d).
    { unfold Qeq in Hr. cbn in Hr. lia. }
    destruct n as [|a|a]; try lia.
    set (A := Zpos a) in *. set (D := Zpos d) in *.
    assert (HD : 0 < D) by (unfold D; lia).
    pose proof (binade_lower A D ltac:(lia) HD) as Hb.
    assert (He0 : binade A D <= 52).
    { destruct (Z_le_gt_dec (binade A D) 52) as [H|H]; [exact H|exfalso].
      unfold le_pow2 in Hb.
      replace (0 <=? binade A D) with true in Hb by (symmetry; apply Z.leb_le; lia).
      apply Z.leb_le in Hb.
      assert (2 ^ 53 <= 2 ^ binade A D) by (apply Z.pow_le_mono_r; lia).
      nia. }
    unfold round64_pos.
    set (e := Z.max (binade A D - 52) (-1074)).
    assert (He : e <= 0) by (unfold e; lia).
    destruct (0 <=? e) eqn:E0.
    + apply Z.leb_le in E0. assert (e = 0) as -> by lia.
      change (2 ^ 0) with 1.
      pose proof (round_half_even_spec A (D * 1) ltac:(lia)) as Hs.
      set (r := round_half_even A (D * 1)) in *.
      assert (r = m) by nia.
      unfold Qeq. cbn [Qnum Qden inject_Z]. lia.
    + apply Z.leb_gt in E0.
      set (S := 2 ^ (- e)).
      assert (HS : 0 < S) by (apply Z.pow_pos_nonneg; lia).
      pose proof (round_half_even_spec (A * S) D HD) as Hs.
      set (r := round_half_even (A * S) D) in *.
      assert (r = m * S) by nia.
      unfold Qeq. cbn [Qnum Qden inject_Z].
      rewrite Z2Pos.id by lia. lia.
Qed.

(** The padding is never negative. *)
Lemma pad_nonneg (extent : Z) (padding_percent : Q) :
  0 <= extent -> (0 <= padding_percent)%Q -> 0 <= pad_pixels extent padding_percent.
Proof.
  intros Hw Hp. unfold pad_pixels, float_div, float_mul, float.
  assert (H1 : (0 <= round64 (inject_Z extent))%Q).
  { apply round64_nonneg. unfold Qle. cbn. lia. }
  assert (H2 : (0 <= round64 padding_percent)%Q) by (apply round64_nonneg; exact Hp).
  assert (H3 : (0 <= round64 (round64 (inject_Z extent) * round64 padding_percent))%Q).
  { apply round64_nonneg. apply Qmult_le_0_compat; assumption. }
  apply int_nonneg. apply round64_nonneg.
  apply Qle_shift_div_l; [reflexivity|]. rewrite Qmult_0_l. exact H3.
Qed.

(** No padding is computed from a content size of zero, nor at 0 percent. *)
Lemma pad_of_zero (padding_percent : Q) : pad_pixels 0 padding_percent = 0.
Proof.
  unfold pad_pixels, float_div, float_mul, float.
  rewrite (round64_zero (round64 (inject_Z 0) * round64 padding_percent)).
  - reflexivity.
  - rewrite (round64_zero (inject_Z 0)) by reflexivity. apply Qmult_0_l.
Qed.

Lemma pad_at_zero (extent : Z) (padding_percent : Q) :
  (padding_percent == 0)%Q -> pad_pixels extent padding_percent = 0.
Proof.
  intros E. unfold pad_pixels, float_div, float_mul, float.
  rewrite (round64_zero (round64 (inject_Z extent) * round64 padding_percent)).
  - reflexivity.
  - rewrite (round64_zero padding_percent) by exact E. apply Qmult_0_r.
Qed.

(** At an integer percentage the padding is the integer quotient of the
    product by 100, as long as the product is below 2^53. *)
Lemma pad_integer (extent n : Z) (padding_percent : Q) :
  (padding_percent == inject_Z n)%Q ->
  0 <= extent -> 0 <= n -> extent * n < 2 ^ 53 ->
  pad_pixels extent padding_percent = extent * n / 100.
Proof.
  intros E Hw Hn Hwn.
  destruct (Z.eq_dec extent 0) as [->|Hw0]; [now rewrite pad_of_zero|].
  destruct (Z.eq_dec n 0) as [->|Hn0].
  { rewrite pad_at_zero by exact E. now rewrite Z.mul_0_r. }
  assert (Hw' : extent < 2 ^ 53) by nia.
  assert (Hn' : n < 2 ^ 53) by nia.
  unfold pad_pixels, float_div, float_mul, float.
  apply int_round64_hundredth; [|lia].
  apply Qmult_comp; [|reflexivity].
  apply round64_integer; [|lia].
  rewrite (round64_integer (inject_Z extent) extent) by (try reflexivity; lia).
  rewrite (round64_integer padding_percent n) by (try exact E; lia).
  unfold Qeq. cbn. lia.
Qed.

(** The floor of size times fraction, for the fraction n / 100. *)
Lemma floor_of_fraction (extent n : Z) :
  Qfloor (inject_Z extent * (inject_Z n / 100)) = extent * n / 100.
Proof.
  unfold Qfloor, Qdiv, Qmult, Qinv, inject_Z. cbn [Qnum Qden].
  f_equal; lia.
Qed.

(** [round64] agrees with the binary64 numbers of the kernel on the
    padding of every sample. *)
Lemma pad_pixels_is_binary64 :
  forallb (fun '(w, num, den) => pad_pixels w (num # Z.to_pos den) =? binary64_pad w num den)
          pad_samples = true.
Proof. vm_compute. reflexivity. Qed.

Lemma round64_is_binary64 :
  forallb (fun '(_, num, den) =>
             Qeq_bool (round64 (num # Z.to_pos den))
                      (binary64_value
                         (PrimFloat.div (binary64_of_Z num) (binary64_of_Z den))))
          pad_samples = true.
Proof. vm_compute. reflexivity. Qed.

End Binary64.


(** ** The detection functions in normal form *)

Section Detection.

Import crop_logos crop_logos_v2 crop_logos_tight.

(** The mask the search settles on: the first pass, or the fallback when
    the first pass is entirely false. *)
Lemma find_tight_content_eq (img : image) (t : Q) :
  find_tight_content img t =
  let im := rgb_on_white img in
  let a := interior im t in
  let bx := border (img_width im) t in
  let b_y := border (img_height im) t in
  if np.size 3 a =? 0 then None
  else
    let m := if negb (np.any (first_pass_mask a)) then fallback_mask a
             else first_pass_mask a in
    if negb (np.any m) then None
    else
      let xs := np.where_ (np.any_axis0 m) in
      let ys := np.where_ (np.any_axis1 m) in
      if negb (np.any1 (np.any_axis1 m)) || negb (np.any1 (np.any_axis0 m)) then None
      else if (Z.of_nat (length ys) =? 0) || (Z.of_nat (length xs) =? 0) then None
      else Some (first_index xs + bx, first_index ys + b_y,
                 last_index xs + bx + 1, last_index ys + b_y + 1).
Proof. reflexivity. Qed.

(** The two border-ignoring scripts search in the same way. *)
Lemma remove_border_and_find_content_eq (img : image) (t : Q) :
  remove_border_and_find_content img t = find_tight_content img t.
Proof. reflexivity. Qed.

Lemma get_content_bounds_eq (img : image) :
  get_content_bounds img =
  let im := rgb_on_white img in
  PIL.getbbox (PIL.ImageChops_difference im (PIL.Image_new RGB (PIL.size im) white)).
Proof. reflexivity. Qed.

End Detection.

(** ** Where a detected box lies *)

Section Bounds.

Import crop_logos crop_logos_v2 crop_logos_tight analyze_logos.

Lemma rect_of_width {T : Type} (n : nat) (m : list (list T)) :
  Forall (fun r => length r = n) m -> rect m.
Proof.
  intros H. unfold rect, np.ncols. destruct m as [|r0 m]; [constructor|].
  simpl. inversion H as [|? ? Hr0 Hm]; subst.
  constructor; [reflexivity|].
  eapply Forall_impl; [|exact Hm]. simpl. now intros r ->.
Qed.

Lemma ncols_of_width {T : Type} (n : nat) (m : list (list T)) :
  Forall (fun r => length r = n) m -> m <> [] -> np.ncols m = n.
Proof.
  intros H Hne. unfold np.ncols. destruct m as [|r0 m]; [congruence|].
  simpl. now inversion H.
Qed.

Lemma mask_width {T : Type} (g : T -> bool) (n : nat) (a : list (list T)) :
  Forall (fun r => length r = n) a ->
  Forall (fun r => length r = n) (map (map g) a).
Proof.
  intros H. apply Forall_forall. intros r Hr.
  apply in_map_iff in Hr. destruct Hr as (r0 & <- & Hr0).
  rewrite length_map. rewrite Forall_forall in H. now apply H.
Qed.

Lemma find_tight_content_bounds (img : image) (t : Q) (b : box) :
  wf_image img -> (0 <= t)%Q ->
  find_tight_content img t = Some b ->
  let '(x1, y1, x2, y2) := b in
  (border (img_width img) t <= x1 /\ x1 < x2 /\ x2 <= img_width img) /\
  (border (img_height img) t <= y1 /\ y1 < y2 /\ y2 <= img_height img).
Proof.
  intros Hwf Ht H.
  destruct (rgb_on_white_wf img Hwf) as (Hwf' & Hw' & Hh').
  rewrite find_tight_content_eq in H. cbv zeta in H.
  rewrite Hw', Hh' in H.
  set (im := rgb_on_white img) in *.
  set (a := interior im t) in *.
  set (m := if negb (np.any (first_pass_mask a)) then _ else _) in *.
  destruct (np.size 3 a =? 0); [discriminate|].
  destruct (negb (np.any m)); [discriminate|].
  destruct (negb (np.any1 (np.any_axis1 m)) || negb (np.any1 (np.any_axis0 m)))
    eqn:Hflags; [discriminate|].
  destruct ((Z.of_nat (length (np.where_ (np.any_axis1 m))) =? 0)
            || (Z.of_nat (length (np.where_ (np.any_axis0 m))) =? 0));
    [discriminate|].
  injection H as <-.
  apply orb_false_iff in Hflags. destruct Hflags as [Hr Hc].
  apply negb_false_iff in Hr, Hc.
  destruct (extent_bounds m Hr Hc) as ((Hx & Hxn) & (Hy & Hyn)).
  assert (Hcols : np.ncols m = np.ncols a)
    by (subst m; destruct (negb _); apply ncols_mask).
  assert (Hrows : length m = length a)
    by (subst m; destruct (negb _); apply length_map).
  rewrite Hcols in Hxn. rewrite Hrows in Hyn.
  assert (Hfx : border (img_width im) t + Z.of_nat (np.ncols a) <= img_width im)
    by (apply interior_cols_fit; auto; fold a; lia).
  assert (Hfy : border (img_height im) t + Z.of_nat (length a) <= img_height im).
  { apply interior_rows_fit; auto. intros Hnil. fold a in Hnil.
    rewrite Hnil in Hyn. simpl in Hyn. lia. }
  rewrite Hw' in Hfx. rewrite Hh' in Hfy. cbv beta iota. lia.
Qed.

Lemma find_tight_content_in_image (img : image) (t : Q) (b : box) :
  wf_image img -> (0 <= t)%Q ->
  find_tight_content img t = Some b -> exclusive_box_in img b.
Proof.
  intros Hwf Ht H. pose proof (wf_height_nonneg _ Hwf) as Hh.
  pose proof (find_tight_content_bounds img t b Hwf Ht H) as Hb.
  destruct Hwf as (_ & Hw & _).
  pose proof (border_nonneg _ _ Hw Ht). pose proof (border_nonneg _ _ Hh Ht).
  destruct b as [[[x1 y1] x2] y2]. unfold exclusive_box_in. lia.
Qed.

Lemma getbbox_built (w h : Z) (f : Z -> Z -> pixel) (m : mode) (b : box) :
  0 <= w -> 0 <= h ->
  PIL.getbbox (mkImage m w h (build_rows w h f)) = Some b ->
  let '(x1, y1, x2, y2) := b in
  0 <= x1 /\ x1 < x2 /\ x2 <= w /\ 0 <= y1 /\ y1 < y2 /\ y2 <= h.
Proof.
  intros Hw Hh H. unfold PIL.getbbox in H. cbv zeta in H. simpl img_data in H.
  set (mk := map (map PIL.nonzero) (build_rows w h f)) in *.
  destruct (negb (np.any mk)) eqn:Hany; [discriminate|].
  injection H as <-. apply negb_false_iff in Hany.
  assert (Hwd : Forall (fun r => length r = Z.to_nat w) mk)
    by (apply mask_width, build_rows_row_length).
  assert (Hr : np.any1 (np.any_axis1 mk) = true) by now rewrite any_axis1_any.
  assert (Hc : np.any1 (np.any_axis0 mk) = true)
    by (apply any_axis0_any; [eapply rect_of_width; eauto | exact Hany]).
  destruct (extent_bounds mk Hr Hc) as ((Hx & Hxn) & (Hy & Hyn)).
  assert (Hlen : length mk = Z.to_nat h)
    by (subst mk; now rewrite length_map, build_rows_length).
  assert (Hne : mk <> []) by (intros E; rewrite E in Hy, Hyn; simpl in Hy, Hyn; lia).
  rewrite (ncols_of_width _ _ Hwd Hne) in Hxn. rewrite Hlen in Hyn.
  cbv beta iota. lia.
Qed.

Lemma get_content_bounds_in_image (img : image) (b : box) :
  wf_image img -> get_content_bounds img = Some b -> exclusive_box_in img b.
Proof.
  intros Hwf H. pose proof (wf_height_nonneg _ Hwf) as Hh.
  destruct (rgb_on_white_wf img Hwf) as (Hwf' & Hw' & Hh').
  destruct Hwf as (_ & Hw & _).
  rewrite get_content_bounds_eq in H. cbv zeta in H.
  unfold PIL.ImageChops_difference in H. rewrite Hw', Hh' in H.
  apply getbbox_built in H; [|lia|lia].
  destruct b as [[[x1 y1] x2] y2]. exact H.
Qed.

Lemma analyze_logo_in_image (img : image) (r : report) :
  wf_image img -> fst (analyze_logo img) = Some r ->
  inclusive_box_in img (content_bounds r).
Proof.
  intros Hwf H. unfold analyze_logo in H. cbv zeta in H.
  set (im := match img_mode img with RGBA => img | _ => PIL.convert_RGBA img end) in *.
  assert (Him : wf_image im /\ img_width im = img_width img /\
                img_height im = img_height img).
  { clear H. subst im. unfold PIL.convert_RGBA.
    destruct (img_mode img);
      (split; [first [exact Hwf | apply wf_mapped; exact Hwf] | split; reflexivity]). }
  destruct Him as ((Hlen & Hw & Hrows) & Hw' & Hh').
  set (mk := map (map is_content) (np.array im)) in *.
  destruct (negb (np.any mk)); [discriminate|].
  destruct (negb (np.any1 (np.any_axis1 mk)) || negb (np.any1 (np.any_axis0 mk)))
    eqn:Hflags; [discriminate|].
  simpl in H. injection H as <-. simpl content_bounds.
  apply orb_false_iff in Hflags. destruct Hflags as [Hr Hc].
  apply negb_false_iff in Hr, Hc.
  destruct (extent_bounds mk Hr Hc) as ((Hx & Hxn) & (Hy & Hyn)).
  assert (Hwd : Forall (fun r => length r = Z.to_nat (img_width im)) mk).
  { apply mask_width. eapply Forall_impl; [|exact Hrows]. simpl. intros; lia. }
  assert (Hl : length mk = length (img_data im)) by apply length_map.
  assert (Hne : mk <> []) by (intros E; rewrite E in Hy, Hyn; simpl in Hy, Hyn; lia).
  rewrite (ncols_of_width _ _ Hwd Hne) in Hxn. rewrite Hl in Hyn.
  unfold inclusive_box_in. cbv beta iota. lia.
Qed.

(** Every box of the three detection functions is inside the image and at
    least one pixel wide and high. *)
Lemma detected_in_image (img : image) (b : box) :
  wf_image img -> detected img b -> exclusive_box_in img b.
Proof.
  intros Hwf [H | [(t & Ht & H) | (t & Ht & H)]].
  - now apply get_content_bounds_in_image.
  - now apply find_tight_content_in_image with (t := t).
  - rewrite remove_border_and_find_content_eq in H.
    now apply find_tight_content_in_image with (t := t).
Qed.

End Bounds.

(** ** Pixels of the normalised image *)

Section Pixels.

Lemma getpixel_In (im : image) (x y : Z) :
  wf_image im -> 0 <= x < img_width im -> 0 <= y < img_height im ->
  exists row, In row (img_data im) /\ In (PIL.getpixel im x y) row.
Proof.
  intros (Hlen & Hw & Hrows) Hx Hy. unfold PIL.getpixel, nthZ.
  destruct (Z.ltb_spec y 0); [lia|]. destruct (Z.ltb_spec x 0); [lia|].
  assert (Hrow : In (nth (Z.to_nat y) (img_data im) []) (img_data im))
    by (apply nth_In; lia).
  exists (nth (Z.to_nat y) (img_data im) []). split; [exact Hrow|].
  apply nth_In. rewrite Forall_forall in Hrows. specialize (Hrows _ Hrow). lia.
Qed.

Lemma all_pixels_getpixel (P : pixel -> Prop) (im : image) (x y : Z) :
  wf_image im -> all_pixels P im ->
  0 <= x < img_width im -> 0 <= y < img_height im -> P (PIL.getpixel im x y).
Proof.
  intros Hwf Hall Hx Hy.
  destruct (getpixel_In im x y Hwf Hx Hy) as (row & Hrow & Hp).
  unfold all_pixels in Hall. rewrite Forall_forall in Hall.
  specialize (Hall _ Hrow). rewrite Forall_forall in Hall. now apply Hall.
Qed.

Lemma getpixel_map (m : mode) (g : pixel -> pixel) (im : image) (x y : Z) :
  wf_image im -> 0 <= x < img_width im -> 0 <= y < img_height im ->
  PIL.getpixel (mkImage m (img_width im) (img_height im) (map (map g) (img_data im))) x y
    = g (PIL.getpixel im x y).
Proof.
  intros (Hlen & Hw & Hrows) Hx Hy. unfold PIL.getpixel, nthZ. simpl.
  destruct (Z.ltb_spec y 0); [lia|]. destruct (Z.ltb_spec x 0); [lia|].
  change (@nil pixel) with (map g []) at 1. rewrite map_nth.
  assert (Hrow : In (nth (Z.to_nat y) (img_data im) []) (img_data im))
    by (apply nth_In; lia).
  rewrite Forall_forall in Hrows. specialize (Hrows _ Hrow).
  rewrite nth_indep with (d' := g zero_pixel) by (rewrite length_map; lia).
  apply map_nth.
Qed.

Lemma all_pixels_map {U : Type} (P : pixel -> Prop) (Q : U -> Prop) (g : pixel -> U)
  (rows : list (list pixel)) :
  (forall p, P p -> Q (g p)) ->
  Forall (Forall P) rows -> Forall (Forall Q) (map (map g) rows).
Proof.
  intros Hg Hall. apply Forall_forall. intros r Hr.
  apply in_map_iff in Hr. destruct Hr as (r0 & <- & Hr0).
  rewrite Forall_forall in Hall. specialize (Hall _ Hr0).
  apply Forall_forall. intros p Hp.
  apply in_map_iff in Hp. destruct Hp as (p0 & <- & Hp0).
  rewrite Forall_forall in Hall. auto.
Qed.

(** What the prelude does to the pixels, mode by mode. *)
Lemma rgb_on_white_pixels (P Q : pixel -> Prop) (img : image) :
  wf_image img -> all_pixels P img ->
  (img_mode img = RGB -> forall p, P p -> Q p) ->
  (img_mode img = L -> forall p, P p -> Q (mkPixel (R p) (G p) (B p) 255)) ->
  (img_mode img = RGBA -> forall p, P p -> Q (PIL.blend_pixel (A p) white p)) ->
  all_pixels Q (rgb_on_white img).
Proof.
  intros Hwf Hall Hrgb Hl Hrgba. pose proof (wf_height_nonneg _ Hwf) as Hh.
  assert (Hw : 0 <= img_width img) by (destruct Hwf as (_ & Hw & _); exact Hw).
  unfold rgb_on_white, all_pixels. destruct (img_mode img) eqn:Hm.
  - eapply Forall_impl; [|exact Hall]. simpl. intros r Hr.
    eapply Forall_impl; [|exact Hr]. auto.
  - unfold PIL.paste, PIL.paste_source, PIL.Image_new, PIL.build, PIL.size. simpl.
    rewrite !Z.max_r by lia. rewrite Hm. simpl.
    apply build_rows_Forall. intros x y Hx Hy.
    rewrite !Z.sub_0_r.
    destruct (Z.leb_spec 0 x); [|lia]. destruct (Z.ltb_spec x (img_width img)); [|lia].
    destruct (Z.leb_spec 0 y); [|lia]. destruct (Z.ltb_spec y (img_height img)); [|lia].
    simpl.
    assert (Hbg : PIL.getpixel
              (mkImage RGB (img_width img) (img_height img)
                 (build_rows (img_width img) (img_height img) (fun _ _ => white))) x y
            = white) by (apply build_rows_nth with (f := fun _ _ => white); lia).
    rewrite Hbg.
    assert (Hmask : PIL.mask_value (PIL.alpha_band img) x y = A (PIL.getpixel img x y)).
    { unfold PIL.mask_value, PIL.alpha_band. simpl.
      rewrite (getpixel_map L (fun p => mkPixel (A p) (A p) (A p) 255)) by auto.
      reflexivity. }
    rewrite Hmask. apply Hrgba; [reflexivity|].
    apply all_pixels_getpixel; auto.
  - unfold PIL.convert_RGB. simpl.
    eapply all_pixels_map; [|exact Hall]. auto.
Qed.

Lemma mask_all_false (g : pixel -> bool) (rows : list (list pixel)) :
  Forall (Forall (fun p => g p = false)) rows -> np.any (map (map g) rows) = false.
Proof.
  intros Hall. unfold np.any.
  destruct (existsb np.any1 (map (map g) rows)) eqn:E; [|reflexivity].
  apply existsb_exists in E. destruct E as (r & Hr & Hany).
  apply in_map_iff in Hr. destruct Hr as (r0 & <- & Hr0).
  unfold np.any1 in Hany. apply existsb_exists in Hany.
  destruct Hany as (b & Hb & ->).
  apply in_map_iff in Hb. destruct Hb as (p & Hp & Hin).
  rewrite Forall_forall in Hall. specialize (Hall _ Hr0).
  rewrite Forall_forall in Hall. specialize (Hall _ Hin). congruence.
Qed.

Lemma interior_pixels (P : pixel -> Prop) (im : image) (t : Q) :
  all_pixels P im -> Forall (Forall P) (interior im t).
Proof.
  intros Hall. unfold interior. apply Forall_forall. intros r Hr.
  apply in_map_iff in Hr. destruct Hr as (r0 & <- & Hr0).
  apply py_slice_Forall.
  unfold all_pixels in Hall. rewrite Forall_forall in Hall.
  apply Hall. eapply py_slice_incl. exact Hr0.
Qed.

(** Less than half of the extent is ignored on each side when the
    threshold is below one half. *)
Lemma border_lt_half (extent : Z) (t : Q) :
  0 < extent -> (0 <= t)%Q -> (t < 1 # 2)%Q -> 2 * border extent t < extent.
Proof.
  intros He H0 Hhalf. destruct t as [n d].
  unfold Qle in H0. unfold Qlt in Hhalf. simpl in H0, Hhalf.
  unfold border, int. simpl Qnum. simpl Qden.
  rewrite Z.quot_div_nonneg by nia.
  pose proof (Z.mul_div_le (extent * n) (Zpos d) ltac:(lia)) as Hq.
  assert (Hd : 0 < Zpos d) by lia.
  nia.
Qed.

Lemma any1_of_nth (v : list bool) (i : nat) :
  (i < length v)%nat -> nth i v false = true -> np.any1 v = true.
Proof.
  intros Hi Hn. unfold np.any1. apply existsb_exists.
  exists true. split; [|reflexivity]. rewrite <- Hn. now apply nth_In.
Qed.

Lemma all_true_nth (r : list bool) (j : nat) :
  Forall (fun b => b = true) r -> (j < length r)%nat -> nth j r false = true.
Proof.
  intros Hall Hj. rewrite Forall_forall in Hall. apply Hall. now apply nth_In.
Qed.

(** The reduction of a mask that is true everywhere spans the whole mask. *)
Lemma all_true_extent (m : list (list bool)) (n : nat) :
  m <> [] -> n <> 0%nat ->
  Forall (fun r => length r = n) m ->
  Forall (Forall (fun b => b = true)) m ->
  np.any m = true /\
  np.any1 (np.any_axis1 m) = true /\ np.any1 (np.any_axis0 m) = true /\
  first_index (np.where_ (np.any_axis0 m)) = 0 /\
  last_index (np.where_ (np.any_axis0 m)) = Z.of_nat n - 1 /\
  first_index (np.where_ (np.any_axis1 m)) = 0 /\
  last_index (np.where_ (np.any_axis1 m)) = Z.of_nat (length m) - 1.
Proof.
  intros Hne Hn Hwd Hall.
  assert (Hcols : np.ncols m = n) by now apply ncols_of_width.
  assert (Hrow : forall i, (i < length m)%nat -> nth i (np.any_axis1 m) false = true).
  { intros i Hi. rewrite any_axis1_nth.
    assert (Hin : In (nth i m []) m) by now apply nth_In.
    rewrite Forall_forall in Hwd, Hall.
    apply any1_of_nth with (i := 0%nat).
    - rewrite (Hwd _ Hin). lia.
    - apply all_true_nth; [now apply Hall | rewrite (Hwd _ Hin); lia]. }
  assert (Hcol : forall j, (j < n)%nat -> nth j (np.any_axis0 m) false = true).
  { intros j Hj. rewrite any_axis0_nth by lia.
    destruct m as [|r0 m']; [congruence|]. simpl.
    inversion Hwd; subst. inversion Hall; subst.
    rewrite all_true_nth; [reflexivity | assumption | lia]. }
  assert (Hlen : (0 < length m)%nat) by (destruct m; [congruence | simpl; lia]).
  assert (Hr : np.any1 (np.any_axis1 m) = true).
  { apply any1_of_nth with (i := 0%nat); [rewrite any_axis1_length; lia | now apply Hrow]. }
  assert (Hc : np.any1 (np.any_axis0 m) = true).
  { apply any1_of_nth with (i := 0%nat);
      [rewrite any_axis0_length; lia | apply Hcol; lia]. }
  destruct (first_last_spec _ Hc) as (Hx1 & Hx2 & _ & _ & Hxall).
  destruct (first_last_spec _ Hr) as (Hy1 & Hy2 & _ & _ & Hyall).
  rewrite any_axis0_length, Hcols in *. rewrite any_axis1_length in *.
  pose proof (Hxall 0 ltac:(lia) (Hcol 0%nat ltac:(lia))) as Hx0.
  assert (Hxl : nth (Z.to_nat (Z.of_nat n - 1)) (np.any_axis0 m) false = true)
    by (apply Hcol; lia).
  pose proof (Hxall (Z.of_nat n - 1) ltac:(lia) Hxl) as Hxn.
  pose proof (Hyall 0 ltac:(lia) (Hrow 0%nat ltac:(lia))) as Hy0.
  assert (Hyl : nth (Z.to_nat (Z.of_nat (length m) - 1)) (np.any_axis1 m) false = true)
    by (apply Hrow; lia).
  pose proof (Hyall (Z.of_nat (length m) - 1) ltac:(lia) Hyl) as Hyn.
  rewrite <- any_axis1_any.
  repeat split; try assumption; lia.
Qed.

(** Size of the interior when less than half is ignored on each side. *)
Lemma interior_shape (im : image) (t : Q) :
  wf_image im -> 0 < img_width im -> 0 < img_height im ->
  (0 <= t)%Q -> (t < 1 # 2)%Q ->
  let bx := border (img_width im) t in
  let b_y := border (img_height im) t in
  length (interior im t) = Z.to_nat (img_height im - 2 * b_y) /\
  Forall (fun r => length r = Z.to_nat (img_width im - 2 * bx)) (interior im t) /\
  0 <= bx /\ 2 * bx < img_width im /\ 0 <= b_y /\ 2 * b_y < img_height im.
Proof.
  intros (Hlen & Hw & Hrows) Hwpos Hhpos Ht Hhalf bx b_y.
  assert (Hbx : 0 <= bx) by (apply border_nonneg; [lia | exact Ht]).
  assert (Hby : 0 <= b_y) by (apply border_nonneg; [lia | exact Ht]).
  assert (Hbx2 : 2 * bx < img_width im) by now apply border_lt_half.
  assert (Hby2 : 2 * b_y < img_height im) by now apply border_lt_half.
  unfold interior. fold bx b_y. unfold np.array.
  split; [|split; [|lia]].
  - rewrite length_map, py_slice_length by lia. f_equal. lia.
  - apply Forall_forall. intros r Hr.
    apply in_map_iff in Hr. destruct Hr as (r0 & <- & Hr0).
    apply py_slice_incl in Hr0.
    rewrite Forall_forall in Hrows. specialize (Hrows _ Hr0).
    rewrite py_slice_length by lia. f_equal. lia.
Qed.

End Pixels.

(** ** Images without content *)

Section NoContent.

Import crop_logos crop_logos_v2 crop_logos_tight analyze_logos.

Lemma get_content_bounds_white (img : image) :
  wf_image img -> all_pixels pure_white (rgb_on_white img) ->
  get_content_bounds img = None.
Proof.
  intros Hwf Hall.
  destruct (rgb_on_white_wf img Hwf) as (Hwf' & Hw' & Hh').
  rewrite get_content_bounds_eq. cbv zeta.
  set (im := rgb_on_white img) in *.
  unfold PIL.getbbox, PIL.ImageChops_difference. cbv zeta. simpl img_data.
  rewrite mask_all_false; [reflexivity|].
  apply build_rows_Forall. intros x y Hx Hy.
  assert (Hbg : PIL.getpixel (PIL.Image_new RGB (PIL.size im) white) x y = white)
    by (apply build_rows_nth with (f := fun _ _ => white); simpl; lia).
  rewrite Hbg.
  destruct (all_pixels_getpixel pure_white im x y Hwf' Hall Hx Hy) as (Hr & Hg & Hb).
  unfold PIL.nonzero, PIL.difference_pixel. simpl. rewrite Hr, Hg, Hb. reflexivity.
Qed.

Lemma find_tight_content_near_white (img : image) (t : Q) :
  all_pixels (fun p => is_white p = true) (rgb_on_white img) ->
  find_tight_content img t = None.
Proof.
  intros Hall. rewrite find_tight_content_eq. cbv zeta.
  set (a := interior (rgb_on_white img) t).
  assert (Ha : Forall (Forall (fun p => is_white p = true)) a)
    by now apply interior_pixels.
  assert (H1 : np.any (first_pass_mask a) = false).
  { apply mask_all_false. eapply Forall_impl; [|exact Ha]. simpl. intros r Hr.
    eapply Forall_impl; [|exact Hr]. simpl. now intros p ->. }
  assert (H2 : np.any (fallback_mask a) = false).
  { apply mask_all_false. eapply Forall_impl; [|exact Ha]. simpl. intros r Hr.
    eapply Forall_impl; [|exact Hr]. simpl. now intros p ->. }
  destruct (np.size 3 a =? 0); [reflexivity|].
  rewrite H1. simpl negb. cbv iota. rewrite H2. reflexivity.
Qed.

Lemma analyze_logo_background (img : image) :
  all_pixels (fun p => (img_mode img = RGBA /\ A p <= 50) \/
                       (R p >= 240 /\ G p >= 240 /\ B p >= 240)) img ->
  analyze_logo img = (None, Some "No content detected"%string).
Proof.
  intros Hall. unfold analyze_logo. cbv zeta.
  set (im := match img_mode img with RGBA => img | _ => PIL.convert_RGBA img end).
  assert (Hmask : np.any (map (map is_content) (np.array im)) = false).
  { apply mask_all_false. unfold np.array, im, PIL.convert_RGBA, all_pixels in *.
    destruct (img_mode img) eqn:Hm; simpl.
    - eapply all_pixels_map with (g := fun p => mkPixel (R p) (G p) (B p) 255);
        [|exact Hall].
      intros p [[Hc _] | (Hr & Hg & Hb)]; [discriminate|].
      unfold is_content. simpl.
      destruct (Z.ltb_spec (R p) 240); [lia|].
      destruct (Z.ltb_spec (G p) 240); [lia|].
      destruct (Z.ltb_spec (B p) 240); [lia|]. reflexivity.
    - eapply Forall_impl; [|exact Hall]. simpl. intros r Hr.
      eapply Forall_impl; [|exact Hr]. simpl.
      intros p [[_ Ha] | (Hr0 & Hg0 & Hb0)]; unfold is_content.
      + destruct (Z.gtb_spec (A p) 50); [lia | reflexivity].
      + destruct (Z.ltb_spec (R p) 240); [lia|].
        destruct (Z.ltb_spec (G p) 240); [lia|].
        destruct (Z.ltb_spec (B p) 240); [lia|]. apply andb_false_r.
    - eapply all_pixels_map with (g := fun p => mkPixel (R p) (G p) (B p) 255);
        [|exact Hall].
      intros p [[Hc _] | (Hr & Hg & Hb)]; [discriminate|].
      unfold is_content. simpl.
      destruct (Z.ltb_spec (R p) 240); [lia|].
      destruct (Z.ltb_spec (G p) 240); [lia|].
      destruct (Z.ltb_spec (B p) 240); [lia|]. reflexivity. }
  rewrite Hmask. reflexivity.
Qed.

Lemma BLEND8_white (mask : Z) : PIL.BLEND8 mask 255 255 = 255.
Proof.
  unfold PIL.BLEND8.
  replace (255 * (255 - mask) + 255 * mask) with 65025 by ring.
  reflexivity.
Qed.

(** Compositing white over white gives white, whatever the alpha. *)
Lemma rgb_on_white_pure_white (img : image) :
  wf_image img -> all_pixels pure_white img ->
  all_pixels pure_white (rgb_on_white img).
Proof.
  intros Hwf Hall.
  apply rgb_on_white_pixels with (P := pure_white); auto.
  intros _ p (Hr & Hg & Hb). unfold pure_white, PIL.blend_pixel.
  cbn [R G B white]. rewrite Hr, Hg, Hb, !BLEND8_white.
  repeat split; reflexivity.
Qed.

End NoContent.

(** ** Pasting onto the square canvas *)

Section Canvas.

(** Blending with a fully opaque matte copies the source channel. *)
Lemma BLEND8_opaque (dst src : Z) :
  channel_ok src -> PIL.BLEND8 255 dst src = src.
Proof.
  unfold channel_ok, PIL.BLEND8, PIL.DIV255. intros Hs.
  replace (dst * (255 - 255) + src * 255) with (src * 255) by ring.
  cbv zeta. rewrite !Z.shiftr_div_pow2 by lia.
  change (2 ^ 8) with 256.
  pose proof (Z.div_mod (src * 255 + 128) 256 ltac:(lia)) as H1.
  pose proof (Z.mod_pos_bound (src * 255 + 128) 256 ltac:(lia)) as H2.
  symmetry. apply Z.div_unique with
    (r := (src * 255 + 128) / 256 + (src * 255 + 128) - 256 * src); lia.
Qed.

Lemma blend_pixel_opaque (dst src : pixel) :
  pixel_ok src -> PIL.blend_pixel 255 dst src = src.
Proof.
  intros (Hr & Hg & Hb & Ha). unfold PIL.blend_pixel.
  rewrite !BLEND8_opaque by assumption. now destruct src.
Qed.

Lemma paste_size (self im : image) (offset : Z * Z) (mask : option image) :
  PIL.size (PIL.paste self im offset mask) = PIL.size self.
Proof. unfold PIL.paste. destruct offset. reflexivity. Qed.

(** The pixel of the pasted image at a position of the destination. *)
Lemma paste_getpixel (self im : image) (ox oy : Z) (mask : option image) (x y : Z) :
  0 <= x < img_width self -> 0 <= y < img_height self ->
  PIL.getpixel (PIL.paste self im (ox, oy) mask) x y =
  let src := PIL.paste_source self im in
  if (0 <=? x - ox) && (x - ox <? img_width src)
     && (0 <=? y - oy) && (y - oy <? img_height src)
  then match mask with
       | None => PIL.getpixel src (x - ox) (y - oy)
       | Some m => PIL.blend_pixel (PIL.mask_value m (x - ox) (y - oy))
                     (PIL.getpixel self x y) (PIL.getpixel src (x - ox) (y - oy))
       end
  else PIL.getpixel self x y.
Proof.
  intros Hx Hy. unfold PIL.paste, PIL.getpixel at 1. cbv zeta. simpl img_data.
  now rewrite build_rows_nth.
Qed.

Lemma new_getpixel (m : mode) (w h : Z) (color : pixel) (x y : Z) :
  0 <= x < w -> 0 <= y < h -> PIL.getpixel (PIL.Image_new m (w, h) color) x y = color.
Proof.
  intros Hx Hy. unfold PIL.getpixel, PIL.Image_new, PIL.build. simpl.
  now rewrite build_rows_nth.
Qed.

(** Floor division centres the crop; an odd difference leaves the extra
    pixel after it (right, bottom). *)
Lemma centring_offset (side extent : Z) :
  0 <= extent <= side ->
  let o := (side - extent) / 2 in
  0 <= o /\ o + extent <= side /\ o <= side - extent - o <= o + 1.
Proof.
  intros H o.
  pose proof (Z.div_mod (side - extent) 2 ltac:(lia)) as H1.
  pose proof (Z.mod_pos_bound (side - extent) 2 ltac:(lia)) as H2.
  fold o in H1. lia.
Qed.

Lemma in_range_iff (a w b h : Z) :
  ((0 <=? a) && (a <? w) && (0 <=? b) && (b <? h)) = true <->
  0 <= a < w /\ 0 <= b < h.
Proof. rewrite !andb_true_iff, !Z.leb_le, !Z.ltb_lt. lia. Qed.

Lemma paste_source_size (self im : image) :
  img_width (PIL.paste_source self im) = img_width im /\
  img_height (PIL.paste_source self im) = img_height im.
Proof.
  unfold PIL.paste_source.
  destruct (mode_eqb _ _); [split; reflexivity|].
  destruct (img_mode self), (img_mode im); split; reflexivity.
Qed.

(** A pixel of the canvas outside the pasted crop keeps the canvas colour. *)
Lemma paste_outside (m : mode) (side : Z) (im : image) (ox oy : Z)
  (mask : option image) (x y : Z) :
  0 <= x < side -> 0 <= y < side ->
  ~ (ox <= x < ox + img_width im /\ oy <= y < oy + img_height im) ->
  PIL.getpixel (PIL.paste (PIL.Image_new m (side, side) white) im (ox, oy) mask) x y
    = white.
Proof.
  intros Hx Hy Hout.
  rewrite paste_getpixel by (simpl; lia). cbv zeta.
  destruct (paste_source_size (PIL.Image_new m (side, side) white) im) as [-> ->].
  destruct (_ && _) eqn:E.
  - apply in_range_iff in E. exfalso. apply Hout. lia.
  - now apply new_getpixel.
Qed.

(** A pixel of the canvas under the pasted crop, before the mode-specific
    treatment of the source pixel. *)
Lemma paste_inside (m : mode) (side : Z) (im : image) (ox oy : Z)
  (mask : option image) (x y : Z) :
  0 <= ox -> ox + img_width im <= side -> 0 <= oy -> oy + img_height im <= side ->
  0 <= x < img_width im -> 0 <= y < img_height im ->
  PIL.getpixel (PIL.paste (PIL.Image_new m (side, side) white) im (ox, oy) mask)
               (ox + x) (oy + y) =
  let src := PIL.paste_source (PIL.Image_new m (side, side) white) im in
  match mask with
  | None => PIL.getpixel src x y
  | Some mk => PIL.blend_pixel (PIL.mask_value mk x y) white (PIL.getpixel src x y)
  end.
Proof.
  intros Hox Hfx Hoy Hfy Hx Hy.
  rewrite paste_getpixel by (simpl; lia). cbv zeta.
  destruct (paste_source_size (PIL.Image_new m (side, side) white) im) as [-> ->].
  replace (ox + x - ox) with x by lia. replace (oy + y - oy) with y by lia.
  assert (E : ((0 <=? x) && (x <? img_width im) && (0 <=? y) && (y <? img_height im))
              = true) by (apply in_range_iff; lia).
  rewrite E. destruct mask; [|reflexivity].
  rewrite new_getpixel by lia. reflexivity.
Qed.

Lemma make_square_size (cropped : image) :
  0 <= img_width cropped -> 0 <= img_height cropped ->
  PIL.size (crop_logos.make_square cropped)
    = (Z.max (img_width cropped) (img_height cropped),
       Z.max (img_width cropped) (img_height cropped)).
Proof.
  intros Hw Hh.
  cbv beta iota zeta delta [crop_logos.make_square PIL.size].
  destruct (img_mode cropped); unfold PIL.paste; simpl;
    now rewrite Z.max_r by lia.
Qed.

End Canvas.

(** ** Checking well-formedness by computation *)

Lemma wf_imageb_sound (im : image) : wf_imageb im = true -> wf_image im.
Proof.
  unfold wf_imageb, wf_image. intros H.
  apply andb_true_iff in H. destruct H as [H Hrows].
  apply andb_true_iff in H. destruct H as [Hh Hw].
  apply Z.eqb_eq in Hh. apply Z.leb_le in Hw.
  split; [exact Hh|]. split; [exact Hw|].
  apply Forall_forall. intros r Hr.
  rewrite forallb_forall in Hrows. apply Z.eqb_eq. now apply Hrows.
Qed.

Lemma Qle_bool_sound (a b : Q) : Qle_bool a b = true -> (a <= b)%Q.
Proof. apply Qle_bool_iff. Qed.

(** * The claims *)

Section Claims.

Import crop_logos crop_logos_v2 crop_logos_tight analyze_logos.

(** C1 (as amended).  For every well-formed image: a box returned by
    [get_content_bounds], [find_tight_content] or
    [remove_border_and_find_content] has exclusive upper bounds and
    satisfies 0 <= x_min < x_max <= width and 0 <= y_min < y_max <= height;
    the [content_bounds] of [analyze_logo] have inclusive upper bounds and
    satisfy 0 <= x_min <= x_max < width and 0 <= y_min <= y_max < height. *)
Theorem content_box_within_image (img : image) (t : Q) :
  wf_image img -> (0 <= t)%Q ->
  (forall b, get_content_bounds img = Some b -> exclusive_box_in img b) /\
  (forall b, find_tight_content img t = Some b -> exclusive_box_in img b) /\
  (forall b, remove_border_and_find_content img t = Some b ->
             exclusive_box_in img b) /\
  (forall r, fst (analyze_logo img) = Some r ->
             inclusive_box_in img (content_bounds r)).
Proof.
  intros Hwf Ht. repeat split; intros b H.
  - now apply get_content_bounds_in_image.
  - now apply find_tight_content_in_image with (t := t).
  - rewrite remove_border_and_find_content_eq in H.
    now apply find_tight_content_in_image with (t := t).
  - now apply analyze_logo_in_image.
Qed.

Lemma content_box_within_image_witness :
  exclusive_box_in square_scene (40, 40, 60, 60) /\
  inclusive_box_in square_scene (40, 40, 59, 59).
Proof.
  assert (Hwf : wf_image square_scene)
    by (apply wf_imageb_sound; vm_compute; reflexivity).
  assert (Ht : (0 <= 5 # 100)%Q) by (apply Qle_bool_sound; reflexivity).
  destruct (content_box_within_image square_scene (5 # 100) Hwf Ht)
    as (Hg & _ & _ & Ha).
  split.
  - apply Hg. vm_compute. reflexivity.
  - destruct (fst (analyze_logo square_scene)) as [r|] eqn:Hr.
    + assert (Hb : content_bounds r = (40, 40, 59, 59)).
      { assert (E : option_map content_bounds (fst (analyze_logo square_scene))
                    = Some (40, 40, 59, 59)) by (vm_compute; reflexivity).
        rewrite Hr in E. simpl in E. now injection E. }
      rewrite <- Hb. now apply Ha.
    + exfalso.
      assert (E : option_map content_bounds (fst (analyze_logo square_scene))
                  = Some (40, 40, 59, 59)) by (vm_compute; reflexivity).
      rewrite Hr in E. discriminate E.
Defined.

(** C1, counterexample: for a single black pixel [analyze_logo] reports
    the content bounds (0, 0, 0, 0), for which x_min < x_max fails. *)
Lemma analyze_logo_bounds_counterexample :
  option_map content_bounds (fst (analyze_logo (uniform RGB 1 1 black)))
    = Some (0, 0, 0, 0) /\
  ~ exclusive_box_in (uniform RGB 1 1 black) (0, 0, 0, 0).
Proof.
  split; [vm_compute; reflexivity|].
  unfold exclusive_box_in. lia.
Qed.

(** C9.  A box (x1, y1, x2, y2) returned by [get_content_bounds],
    [find_tight_content] or [remove_border_and_find_content] on a
    well-formed image has x2 - x1 >= 1 and y2 - y1 >= 1: a content size
    of zero never reaches the padding and squaring steps. *)
Theorem detected_box_has_positive_size (img : image) (b : box) :
  wf_image img -> detected img b ->
  let '(x1, y1, x2, y2) := b in x2 - x1 >= 1 /\ y2 - y1 >= 1.
Proof.
  intros Hwf Hd. pose proof (detected_in_image img b Hwf Hd) as Hb.
  destruct b as [[[x1 y1] x2] y2]. unfold exclusive_box_in in Hb. lia.
Qed.

Lemma detected_box_has_positive_size_witness :
  detected (uniform RGB 30 40 black) (1, 2, 29, 38) /\ 29 - 1 >= 1 /\ 38 - 2 >= 1.
Proof.
  assert (Hd : detected (uniform RGB 30 40 black) (1, 2, 29, 38)).
  { right. left. exists (5 # 100). split.
    - apply Qle_bool_sound. reflexivity.
    - vm_compute. reflexivity. }
  split; [exact Hd|].
  apply (detected_box_has_positive_size (uniform RGB 30 40 black) (1, 2, 29, 38)).
  - apply wf_imageb_sound. vm_compute. reflexivity.
  - exact Hd.
Defined.

(** C10.  When detection returns [None], [crop_with_padding] of both
    scripts and [crop_tight_with_padding] return the input image itself:
    it is not cropped, padded or put on a square canvas (the two later
    scripts print a warning). *)
Theorem no_content_returns_input (img : image) (padding_percent : Q) :
  (get_content_bounds img = None ->
   crop_logos.crop_with_padding img padding_percent = img) /\
  (remove_border_and_find_content img (5 # 100) = None ->
   crop_logos_v2.crop_with_padding img padding_percent
     = (img, ["    Warning: Could not detect content, keeping original"%string])) /\
  (find_tight_content img (5 # 100) = None ->
   crop_tight_with_padding img padding_percent
     = (img, ["    Warning: Could not detect content"%string])).
Proof.
  unfold crop_logos.crop_with_padding, crop_logos_v2.crop_with_padding,
    crop_tight_with_padding.
  repeat split; intros ->; reflexivity.
Qed.

Lemma no_content_returns_input_witness :
  crop_logos.crop_with_padding (uniform RGB 4 3 white) 8 = uniform RGB 4 3 white /\
  fst (crop_logos_v2.crop_with_padding (uniform RGB 4 3 white) 10)
    = uniform RGB 4 3 white /\
  fst (crop_tight_with_padding (uniform RGB 4 3 white) 5) = uniform RGB 4 3 white.
Proof.
  destruct (no_content_returns_input (uniform RGB 4 3 white) 8) as (H1 & _ & _).
  destruct (no_content_returns_input (uniform RGB 4 3 white) 10) as (_ & H2 & _).
  destruct (no_content_returns_input (uniform RGB 4 3 white) 5) as (_ & _ & H3).
  split; [apply H1; vm_compute; reflexivity|].
  split; [rewrite H2 by (vm_compute; reflexivity); reflexivity|].
  rewrite H3 by (vm_compute; reflexivity). reflexivity.
Defined.

(** C3 (as amended).  For a content box (x1, y1, x2, y2) detected in a
    well-formed image and a non-negative padding percentage, the padded box
    of each script is
    (max(0, x1 - pad_x), max(0, y1 - pad_y),
     min(image_w, x2 + pad_x), min(image_h, y2 + pad_y))
    where pad_x = int(w * padding_percent / 100) and
    pad_y = int(h * padding_percent / 100) are computed in binary64, with
    w = x2 - x1 and h = y2 - y1.  Both paddings are non-negative, so the
    coordinates lie in [0, image_w] x [0, image_h] and the padded box
    contains the content box.  At an integer percentage n (the scripts pass
    8, 10 and 5) with w n and h n below 2^53, the paddings are floor(w p)
    and floor(h p) for the fraction p = n / 100. *)
Theorem padded_box_clamped (img : image) (b : box) (padding_percent : Q) :
  wf_image img -> detected img b -> (0 <= padding_percent)%Q ->
  let '(x1, y1, x2, y2) := b in
  let w := x2 - x1 in
  let h := y2 - y1 in
  let pad_x := pad_pixels w padding_percent in
  let pad_y := pad_pixels h padding_percent in
  let padded :=
    (Z.max 0 (x1 - pad_x), Z.max 0 (y1 - pad_y),
     Z.min (img_width img) (x2 + pad_x), Z.min (img_height img) (y2 + pad_y)) in
  crop_logos.padded_bounds img b padding_percent = padded /\
  crop_logos_v2.padded_bounds img b padding_percent = padded /\
  crop_logos_tight.padded_bounds img b padding_percent = padded /\
  (0 <= pad_x /\ 0 <= pad_y) /\
  (forall n : Z, (padding_percent == inject_Z n)%Q ->
     w * n < 2 ^ 53 -> h * n < 2 ^ 53 ->
     let p := (inject_Z n / 100)%Q in
     pad_x = Qfloor (inject_Z w * p) /\ pad_y = Qfloor (inject_Z h * p)) /\
  let '(nx1, ny1, nx2, ny2) := padded in
  (0 <= nx1 <= x1 /\ x2 <= nx2 <= img_width img) /\
  (0 <= ny1 <= y1 /\ y2 <= ny2 <= img_height img).
Proof.
  intros Hwf Hd Hp. pose proof (detected_in_image img b Hwf Hd) as Hb.
  destruct b as [[[x1 y1] x2] y2]. unfold exclusive_box_in in Hb.
  cbv zeta.
  pose proof (pad_nonneg (x2 - x1) padding_percent ltac:(lia) Hp) as Hx0.
  pose proof (pad_nonneg (y2 - y1) padding_percent ltac:(lia) Hp) as Hy0.
  split; [reflexivity|]. split; [reflexivity|]. split; [reflexivity|].
  split; [split; assumption|].
  split; [|lia].
  intros n En Hwn Hhn.
  assert (Hn : 0 <= n).
  { rewrite En in Hp. unfold Qle in Hp. cbn in Hp. lia. }
  rewrite !floor_of_fraction.
  split; apply pad_integer; auto; lia.
Qed.

Lemma padded_box_clamped_witness :
  crop_logos.padded_bounds square_scene (40, 40, 60, 60) 5 = (39, 39, 61, 61) /\
  crop_logos_v2.padded_bounds square_scene (40, 40, 60, 60) 5 = (39, 39, 61, 61) /\
  crop_logos_tight.padded_bounds square_scene (40, 40, 60, 60) 5 = (39, 39, 61, 61) /\
  pad_pixels (60 - 40) 5 = Qfloor (inject_Z (60 - 40) * (inject_Z 5 / 100)).
Proof.
  assert (Hwf : wf_image square_scene)
    by (apply wf_imageb_sound; vm_compute; reflexivity).
  assert (Hd : detected square_scene (40, 40, 60, 60))
    by (left; vm_compute; reflexivity).
  assert (Hp : (0 <= 5)%Q) by (apply Qle_bool_sound; reflexivity).
  pose proof (padded_box_clamped square_scene (40, 40, 60, 60) 5 Hwf Hd Hp) as H.
  cbv zeta beta iota in H. destruct H as (H1 & H2 & H3 & _ & Hn & _).
  rewrite H1, H2, H3.
  split; [vm_compute; reflexivity|]. split; [vm_compute; reflexivity|].
  split; [vm_compute; reflexivity|].
  apply (Hn 5); [reflexivity | vm_compute; reflexivity | vm_compute; reflexivity].
Defined.

(** C3, counterexample: at a percentage with a fraction the padding is not
    the floor of size times fraction.  The 1500 pixels of content of a
    strip, padded by 4.6 percent, get 68 pixels on each side, because
    1500 * 4.6 / 100 is 68.99999999999999 in binary64; floor(1500 * 0.046)
    is 69.  Nor is it the floor for the fraction that the float denotes:
    1000 pixels padded by the binary64 number nearest to 0.3 percent get
    3 pixels, and the floor of 1000 times that number over 100 is 2. *)
Lemma fractional_padding_counterexample :
  (wf_imageb (strip 1700 100 1600) = true /\
   get_content_bounds (strip 1700 100 1600) = Some (100, 0, 1600, 1) /\
   crop_logos.padded_bounds (strip 1700 100 1600) (100, 0, 1600, 1) (46 # 10)
     = (32, 0, 1668, 1) /\
   Qfloor (inject_Z (1600 - 100) * ((46 # 10) / 100)) = 69 /\
   crop_logos.padded_bounds (strip 1700 100 1600) (100, 0, 1600, 1) (46 # 10)
     <> (Z.max 0 (100 - Qfloor (inject_Z (1600 - 100) * ((46 # 10) / 100))),
         Z.max 0 (0 - Qfloor (inject_Z (1 - 0) * ((46 # 10) / 100))),
         Z.min 1700 (1600 + Qfloor (inject_Z (1600 - 100) * ((46 # 10) / 100))),
         Z.min 1 (1 + Qfloor (inject_Z (1 - 0) * ((46 # 10) / 100))))) /\
  (wf_imageb (strip 1200 100 1100) = true /\
   get_content_bounds (strip 1200 100 1100) = Some (100, 0, 1100, 1) /\
   crop_logos.padded_bounds (strip 1200 100 1100) (100, 0, 1100, 1) (float (3 # 10))
     = (97, 0, 1103, 1) /\
   Qfloor (inject_Z (1100 - 100) * (float (3 # 10) / 100)) = 2 /\
   crop_logos.padded_bounds (strip 1200 100 1100) (100, 0, 1100, 1) (float (3 # 10))
     <> (Z.max 0 (100 - Qfloor (inject_Z (1100 - 100) * (float (3 # 10) / 100))),
         Z.max 0 (0 - Qfloor (inject_Z (1 - 0) * (float (3 # 10) / 100))),
         Z.min 1200 (1100 + Qfloor (inject_Z (1100 - 100) * (float (3 # 10) / 100))),
         Z.min 1 (1 + Qfloor (inject_Z (1 - 0) * (float (3 # 10) / 100))))).
Proof. vm_compute. repeat split; discriminate. Qed.

(** C5.  In the 100x100 white scene with a black square over
    (40,40)-(60,60): detection returns exactly (40, 40, 60, 60), by
    [get_content_bounds] and also by the border-ignoring search with a 0%
    margin; padding that box at 5% gives (39, 39, 61, 61); the crop is 22x22
    and the square canvas made from it is the crop itself. *)
Theorem round_trip_scenario :
  get_content_bounds square_scene = Some (40, 40, 60, 60) /\
  find_tight_content square_scene 0 = Some (40, 40, 60, 60) /\
  remove_border_and_find_content square_scene 0 = Some (40, 40, 60, 60) /\
  crop_logos.padded_bounds square_scene (40, 40, 60, 60) 5 = (39, 39, 61, 61) /\
  PIL.size (PIL.crop square_scene (39, 39, 61, 61)) = (22, 22) /\
  crop_logos.make_square (PIL.crop square_scene (39, 39, 61, 61))
    = PIL.crop square_scene (39, 39, 61, 61) /\
  crop_logos_v2.make_square (PIL.crop square_scene (39, 39, 61, 61))
    = PIL.crop square_scene (39, 39, 61, 61) /\
  crop_logos.crop_with_padding square_scene 5 = PIL.crop square_scene (39, 39, 61, 61).
Proof. vm_compute. repeat split. Qed.

(** C4.  For every well-formed, non-empty image whose pixels are all pure
    black and every border threshold below one half (the scripts use 5%):
    the first-pass mask (neither near-white nor near-black) of the interior
    is entirely false, the fallback mask (not near-white) is not, and the
    search returns the full interior rectangle. *)
Theorem all_black_found_by_fallback (img : image) (t : Q) :
  wf_image img -> 0 < img_width img -> 0 < img_height img ->
  (0 <= t)%Q -> (t < 1 # 2)%Q ->
  all_pixels (pure_black (img_mode img)) img ->
  let a := interior (rgb_on_white img) t in
  let bx := border (img_width img) t in
  let b_y := border (img_height img) t in
  let full := (bx, b_y, img_width img - bx, img_height img - b_y) in
  np.any (first_pass_mask a) = false /\
  np.any (fallback_mask a) = true /\
  find_tight_content img t = Some full /\
  remove_border_and_find_content img t = Some full.
Proof.
  intros Hwf Hwpos Hhpos Ht Hhalf Hblack.
  destruct (rgb_on_white_wf img Hwf) as (Hwf' & Hw' & Hh').
  assert (Hzero : all_pixels (fun p => R p = 0 /\ G p = 0 /\ B p = 0) (rgb_on_white img)).
  { apply rgb_on_white_pixels with (P := pure_black (img_mode img)); auto.
    - intros _ p (Hr & Hg & Hb & _). auto.
    - intros _ p (Hr & Hg & Hb & _). auto.
    - intros Hm p (Hr & Hg & Hb & Ha). specialize (Ha Hm).
      unfold PIL.blend_pixel. simpl. rewrite Hr, Hg, Hb, Ha.
      repeat split; reflexivity. }
  cbv zeta.
  change (remove_border_and_find_content img t) with (find_tight_content img t).
  rewrite find_tight_content_eq. cbv zeta.
  set (im := rgb_on_white img) in *.
  destruct (interior_shape im t Hwf') as (Hlen & Hwd & Hbx & Hbx2 & Hby & Hby2);
    try assumption; try lia.
  rewrite Hw', Hh' in *.
  set (a := interior im t) in *.
  set (bx := border (img_width img) t) in *.
  set (b_y := border (img_height img) t) in *.
  assert (Ha : Forall (Forall (fun p => R p = 0 /\ G p = 0 /\ B p = 0)) a)
    by now apply interior_pixels.
  assert (H1 : np.any (first_pass_mask a) = false).
  { apply mask_all_false. eapply Forall_impl; [|exact Ha]. simpl. intros r Hr.
    eapply Forall_impl; [|exact Hr]. simpl. intros p (Hr0 & Hg0 & Hb0).
    unfold is_white, is_black. rewrite Hr0, Hg0, Hb0. reflexivity. }
  set (m := fallback_mask a) in *.
  assert (Hm : Forall (Forall (fun b => b = true)) m).
  { unfold m, fallback_mask.
    eapply all_pixels_map; [|exact Ha]. intros p (Hr0 & Hg0 & Hb0).
    unfold is_white. rewrite Hr0, Hg0, Hb0. reflexivity. }
  assert (Hmlen : length m = length a) by apply length_map.
  assert (Hmne : m <> [])
    by (intros E; apply (f_equal (@length _)) in E; simpl in E; lia).
  assert (Hane : a <> [])
    by (intros E; apply (f_equal (@length _)) in E; simpl in E; lia).
  destruct (all_true_extent m (Z.to_nat (img_width img - 2 * bx)))
    as (Hany & Hr & Hc & Hx0 & Hx1 & Hy0 & Hy1);
    [exact Hmne | lia | now apply mask_width | exact Hm |].
  assert (Hsize : (np.size 3 a =? 0) = false).
  { apply Z.eqb_neq. unfold np.size.
    rewrite (ncols_of_width _ _ Hwd Hane), Hlen. nia. }
  assert (Hys : (Z.of_nat (length (np.where_ (np.any_axis1 m))) =? 0) = false).
  { apply Z.eqb_neq. apply any1_where in Hr.
    destruct (np.where_ (np.any_axis1 m)); [congruence | simpl; lia]. }
  assert (Hxs : (Z.of_nat (length (np.where_ (np.any_axis0 m))) =? 0) = false).
  { apply Z.eqb_neq. apply any1_where in Hc.
    destruct (np.where_ (np.any_axis0 m)); [congruence | simpl; lia]. }
  rewrite Hsize, H1. simpl negb. cbv iota.
  rewrite Hany, Hr, Hc, Hys, Hxs. simpl.
  rewrite Hx0, Hx1, Hy0, Hy1, Hmlen, Hlen.
  replace (Z.of_nat (Z.to_nat (img_width img - 2 * bx)) - 1 + bx + 1)
    with (img_width img - bx) by lia.
  replace (Z.of_nat (Z.to_nat (img_height img - 2 * b_y)) - 1 + b_y + 1)
    with (img_height img - b_y) by lia.
  auto.
Qed.

Lemma all_black_found_by_fallback_witness :
  find_tight_content (uniform RGB 30 40 black) (5 # 100) = Some (1, 2, 29, 38) /\
  remove_border_and_find_content (uniform RGB 30 40 black) (5 # 100)
    = Some (1, 2, 29, 38).
Proof.
  assert (Hwf : wf_image (uniform RGB 30 40 black))
    by (apply wf_imageb_sound; vm_compute; reflexivity).
  assert (Hall : all_pixels (pure_black RGB) (uniform RGB 30 40 black)).
  { apply build_rows_Forall. intros x y _ _.
    unfold pure_black. simpl. repeat split. }
  destruct (all_black_found_by_fallback (uniform RGB 30 40 black) (5 # 100))
    as (_ & _ & H1 & H2);
    [exact Hwf | reflexivity | reflexivity | apply Qle_bool_sound; reflexivity
    | reflexivity | exact Hall |].
  split; [exact H1 | exact H2].
Defined.

(** C7 (as amended).  Under each function's own white test, an image that
    is entirely background has no content box: [get_content_bounds]
    returns [None] when every pixel, composited over white, is exactly
    (255, 255, 255); [find_tight_content] and
    [remove_border_and_find_content] when every composited pixel has all
    channels above 240; [analyze_logo] when every pixel has alpha at most 50
    or all channels at least 240.  In particular an image whose pixels all
    have the colour (255, 255, 255) has no content box in any of the four.
    (Near-black pixels are background for the first pass only: the fallback
    takes them for content.) *)
Theorem background_image_has_no_content (img : image) (t : Q) :
  wf_image img ->
  (all_pixels pure_white (rgb_on_white img) -> get_content_bounds img = None) /\
  (all_pixels (fun p => is_white p = true) (rgb_on_white img) ->
   find_tight_content img t = None /\
   remove_border_and_find_content img t = None) /\
  (all_pixels (fun p => (img_mode img = RGBA /\ A p <= 50) \/
                        (R p >= 240 /\ G p >= 240 /\ B p >= 240)) img ->
   analyze_logo img = (None, Some "No content detected"%string)) /\
  (all_pixels pure_white img ->
   get_content_bounds img = None /\
   find_tight_content img t = None /\
   remove_border_and_find_content img t = None /\
   analyze_logo img = (None, Some "No content detected"%string)).
Proof.
  intros Hwf.
  split; [now apply get_content_bounds_white|].
  split; [intros H; split; now apply find_tight_content_near_white|].
  split; [apply analyze_logo_background|].
  intros Hall. pose proof (rgb_on_white_pure_white img Hwf Hall) as Hrgb.
  assert (Hnear : all_pixels (fun p => is_white p = true) (rgb_on_white img)).
  { unfold all_pixels in *. eapply Forall_impl; [|exact Hrgb]. simpl. intros r Hr.
    eapply Forall_impl; [|exact Hr]. simpl. intros p (Hr0 & Hg0 & Hb0).
    unfold is_white. rewrite Hr0, Hg0, Hb0. reflexivity. }
  split; [now apply get_content_bounds_white|].
  split; [now apply find_tight_content_near_white|].
  split; [now apply find_tight_content_near_white|].
  apply analyze_logo_background.
  unfold all_pixels in *. eapply Forall_impl; [|exact Hall]. simpl. intros r Hr.
  eapply Forall_impl; [|exact Hr]. simpl. intros p (Hr0 & Hg0 & Hb0). right. lia.
Qed.

Lemma background_image_has_no_content_witness :
  get_content_bounds (uniform RGBA 4 3 white) = None /\
  find_tight_content (uniform RGBA 4 3 white) (5 # 100) = None /\
  remove_border_and_find_content (uniform RGBA 4 3 white) (5 # 100) = None /\
  analyze_logo (uniform RGBA 4 3 white) = (None, Some "No content detected"%string).
Proof.
  assert (Hwf : wf_image (uniform RGBA 4 3 white))
    by (apply wf_imageb_sound; vm_compute; reflexivity).
  destruct (background_image_has_no_content (uniform RGBA 4 3 white) (5 # 100) Hwf)
    as (_ & _ & _ & H).
  apply H. apply build_rows_Forall. intros x y _ _. repeat split.
Defined.

(** C7, counterexample: every pixel of a uniformly black image is
    background under the near-white-or-near-black rule, and the search
    still returns a box (through the fallback). *)
Lemma uniform_black_counterexample :
  (is_white black || is_black black) = true /\
  find_tight_content (uniform RGB 2 2 black) (5 # 100) = Some (0, 0, 2, 2) /\
  remove_border_and_find_content (uniform RGB 2 2 black) (5 # 100) = Some (0, 0, 2, 2) /\
  find_tight_content (uniform RGB 2 2 black) (5 # 100) <> None.
Proof. vm_compute. repeat split. discriminate. Qed.

(** C2 (as amended).  The near-white test of [find_tight_content] and
    [remove_border_and_find_content] holds exactly when red > 240, green >
    240 and blue > 240, and a one-pixel image has no content box in them
    exactly when its pixel passes that test.  [get_content_bounds] compares
    with pure white instead: a one-pixel image has no content box there
    exactly when its pixel is (255, 255, 255). *)
Theorem near_white_rule (p : pixel) :
  (is_white p = true <-> R p > 240 /\ G p > 240 /\ B p > 240) /\
  (find_tight_content (uniform RGB 1 1 p) (5 # 100) = None <->
   R p > 240 /\ G p > 240 /\ B p > 240) /\
  (remove_border_and_find_content (uniform RGB 1 1 p) (5 # 100) = None <->
   R p > 240 /\ G p > 240 /\ B p > 240) /\
  (get_content_bounds (uniform RGB 1 1 p) = None <->
   R p = 255 /\ G p = 255 /\ B p = 255).
Proof.
  assert (Hwhite : is_white p = true <-> R p > 240 /\ G p > 240 /\ B p > 240).
  { unfold is_white. rewrite !andb_true_iff, !Z.gtb_lt. lia. }
  assert (Hfind : find_tight_content (uniform RGB 1 1 p) (5 # 100) = None <->
                  is_white p = true).
  { split.
    - intros H. destruct (is_white p) eqn:Hw; [reflexivity | exfalso].
      rewrite find_tight_content_eq in H. cbv zeta in H.
      change (interior (rgb_on_white (uniform RGB 1 1 p)) (5 # 100)) with [[p]] in H.
      unfold first_pass_mask, fallback_mask in H. cbn [map] in H.
      rewrite Hw in H. destruct (is_black p); vm_compute in H; discriminate H.
    - intros Hw. apply find_tight_content_near_white.
      apply build_rows_Forall. intros x y _ _. exact Hw. }
  assert (Hdiff : PIL.nonzero (PIL.difference_pixel p white) = false <->
                  R p = 255 /\ G p = 255 /\ B p = 255).
  { unfold PIL.nonzero, PIL.difference_pixel. cbn [R G B white].
    rewrite negb_false_iff, !andb_true_iff, !Z.eqb_eq. lia. }
  split; [exact Hwhite|]. split; [now rewrite Hfind|]. split; [now rewrite Hfind|].
  rewrite <- Hdiff. rewrite get_content_bounds_eq. cbv zeta.
  unfold PIL.getbbox. cbv zeta.
  change (map (map PIL.nonzero)
            (img_data (PIL.ImageChops_difference (rgb_on_white (uniform RGB 1 1 p))
               (PIL.Image_new RGB (PIL.size (rgb_on_white (uniform RGB 1 1 p))) white))))
    with [[PIL.nonzero (PIL.difference_pixel p white)]].
  destruct (PIL.nonzero (PIL.difference_pixel p white)); vm_compute; split;
    congruence.
Qed.

(** C2, counterexample: the pixel (250, 250, 250) passes the near-white
    test, yet [get_content_bounds] takes it for content. *)
Lemma near_white_pixel_counterexample :
  is_white (mkPixel 250 250 250 255) = true /\
  get_content_bounds (uniform RGB 1 1 (mkPixel 250 250 250 255)) = Some (0, 0, 1, 1) /\
  get_content_bounds (uniform RGB 1 1 (mkPixel 250 250 250 255)) <> None.
Proof. vm_compute. repeat split. discriminate. Qed.

(** C6 (as amended).  For every well-formed crop of width w and height h,
    both square-canvas steps return a canvas of width and height max(w, h)
    with the crop at offset ((max(w,h) - w) / 2, (max(w,h) - h) / 2) (floor
    division: an odd difference leaves the extra pixel on the right or at
    the bottom), and every canvas pixel outside the crop is white.  Under
    the crop, [crop_logos_v2.py] keeps the colour channels of every pixel;
    [crop_logos.py] keeps an RGB pixel as it is, gives a single-band pixel
    alpha 255, and blends an RGBA pixel over white by its own alpha, which
    leaves it unchanged when it is opaque. *)
Theorem square_canvas (cropped : image) :
  wf_image cropped ->
  let w := img_width cropped in
  let h := img_height cropped in
  let side := Z.max w h in
  let ox := (side - w) / 2 in
  let oy := (side - h) / 2 in
  let sq := crop_logos.make_square cropped in
  let sq2 := crop_logos_v2.make_square cropped in
  (PIL.size sq = (side, side) /\ PIL.size sq2 = (side, side)) /\
  (0 <= ox /\ ox <= side - w - ox <= ox + 1) /\
  (0 <= oy /\ oy <= side - h - oy <= oy + 1) /\
  (forall x y, 0 <= x < w -> 0 <= y < h ->
     let q := PIL.getpixel cropped x y in
     same_colour (PIL.getpixel sq2 (ox + x) (oy + y)) q /\
     PIL.getpixel sq (ox + x) (oy + y)
       = match img_mode cropped with
         | RGB => q
         | RGBA => PIL.blend_pixel (A q) white q
         | L => mkPixel (R q) (G q) (B q) 255
         end /\
     (pixel_ok q -> A q = 255 -> PIL.getpixel sq (ox + x) (oy + y) = q)) /\
  (forall x y, 0 <= x < side -> 0 <= y < side ->
     ~ (ox <= x < ox + w /\ oy <= y < oy + h) ->
     PIL.getpixel sq x y = white /\ PIL.getpixel sq2 x y = white).
Proof.
  intros Hwf w h side ox oy.
  pose proof (wf_height_nonneg _ Hwf) as Hh.
  assert (Hw : 0 <= w) by (destruct Hwf as (_ & Hw & _); exact Hw).
  fold h in Hh.
  destruct (centring_offset side w ltac:(lia)) as (Hox & Hfx & Hex).
  destruct (centring_offset side h ltac:(lia)) as (Hoy & Hfy & Hey).
  fold ox in Hox, Hfx, Hex. fold oy in Hoy, Hfy, Hey.
  cbv beta iota zeta delta [crop_logos.make_square crop_logos_v2.make_square PIL.size].
  fold w h side ox oy.
  assert (Hside : Z.max 0 side = side) by lia.
  split; [|split; [lia|split; [lia|split]]].
  - split.
    + destruct (img_mode cropped); unfold PIL.paste; simpl; now rewrite Hside.
    + unfold PIL.paste. simpl. now rewrite Hside.
  - intros x y Hx Hy. split; [|assert (Hsq : forall A B : Prop, A -> (A -> B) -> A /\ B)
                                   by tauto; apply Hsq].
    + rewrite paste_inside by (fold w h; lia). cbv zeta.
      unfold PIL.paste_source. cbn [img_mode PIL.Image_new PIL.build].
      destruct (img_mode cropped) eqn:Hm; cbn [mode_eqb].
      * repeat split.
      * repeat split.
      * unfold PIL.convert_RGB.
        rewrite getpixel_map by (auto; fold w h; lia). repeat split.
    + destruct (img_mode cropped) eqn:Hm.
      * rewrite paste_inside by (fold w h; lia). cbv zeta.
        unfold PIL.paste_source. cbn [img_mode PIL.Image_new PIL.build].
        rewrite Hm. reflexivity.
      * rewrite paste_inside by (fold w h; lia). cbv zeta.
        unfold PIL.paste_source. cbn [img_mode PIL.Image_new PIL.build].
        rewrite Hm. cbn [mode_eqb]. unfold PIL.mask_value. rewrite Hm. reflexivity.
      * rewrite paste_inside by (fold w h; lia). cbv zeta.
        unfold PIL.paste_source. cbn [img_mode PIL.Image_new PIL.build].
        rewrite Hm. cbn [mode_eqb]. unfold PIL.convert_RGBA.
        rewrite getpixel_map by (auto; fold w h; lia). rewrite Hm. reflexivity.
    + intros Heq Hok Ha. rewrite Heq.
      destruct (img_mode cropped).
      * reflexivity.
      * rewrite Ha. now apply blend_pixel_opaque.
      * rewrite <- Ha. now destruct (PIL.getpixel cropped x y).
  - intros x y Hx Hy Hout. split.
    + destruct (img_mode cropped); apply paste_outside; auto.
    + apply paste_outside; auto.
Qed.

Lemma square_canvas_witness :
  PIL.size (crop_logos.make_square (PIL.build RGB 10 7 (fun x y => mkPixel x y 0 255)))
    = (10, 10) /\
  PIL.getpixel (crop_logos.make_square (PIL.build RGB 10 7 (fun x y => mkPixel x y 0 255)))
    (0 + 3) (1 + 6) = mkPixel 3 6 0 255.
Proof.
  assert (Hwf : wf_image (PIL.build RGB 10 7 (fun x y => mkPixel x y 0 255)))
    by (apply wf_imageb_sound; vm_compute; reflexivity).
  pose proof (square_canvas _ Hwf) as H. cbv zeta in H.
  destruct H as ((H1 & _) & _ & _ & H2 & _).
  split; [exact H1|].
  destruct (H2 3 6 ltac:(simpl; lia) ltac:(simpl; lia)) as (_ & H3 & _).
  exact H3.
Defined.

(** C6, counterexample: squaring a one-pixel RGBA crop whose pixel is fully
    transparent changes that pixel to opaque white; so does
    [crop_logos.crop_with_padding] for the transparent pixel between two
    black ones, which lies inside the crop. *)
Lemma transparent_pixel_counterexample :
  (PIL.getpixel (uniform RGBA 1 1 zero_pixel) 0 0 = zero_pixel /\
   PIL.getpixel (crop_logos.make_square (uniform RGBA 1 1 zero_pixel)) 0 0 = white /\
   PIL.getpixel (crop_logos.make_square (uniform RGBA 1 1 zero_pixel)) 0 0
     <> PIL.getpixel (uniform RGBA 1 1 zero_pixel) 0 0) /\
  (get_content_bounds transparent_gap = Some (0, 0, 3, 1) /\
   crop_logos.padded_bounds transparent_gap (0, 0, 3, 1) 8 = (0, 0, 3, 1) /\
   PIL.getpixel transparent_gap 1 0 = zero_pixel /\
   PIL.getpixel (crop_logos.crop_with_padding transparent_gap 8) (0 + 1) (1 + 0) = white).
Proof. vm_compute. repeat split. discriminate. Qed.



End Claims.


(** * Further properties of the scripts *)

(** ** What the rows/columns reduction finds *)

Section Extent.

Lemma any1_true_iff (v : list bool) :
  np.any1 v = true <-> exists x, (x < length v)%nat /\ nth x v false = true.
Proof.
  split.
  - intros H. unfold np.any1 in H. apply existsb_exists in H.
    destruct H as (b & Hin & ->).
    apply In_nth with (d := false) in Hin. destruct Hin as (x & Hx & Hn).
    now exists x.
  - intros (x & Hx & Hn). now apply any1_of_nth with (i := x).
Qed.

Lemma any_axis0_flag (m : list (list bool)) (x : nat) :
  (x < np.ncols m)%nat ->
  nth x (np.any_axis0 m) false = true <->
  exists y, (y < length m)%nat /\ mask_at m x y = true.
Proof.
  intros Hx. rewrite any_axis0_nth by exact Hx. rewrite existsb_exists. split.
  - intros (row & Hin & Hn).
    apply In_nth with (d := []) in Hin. destruct Hin as (y & Hy & <-).
    now exists y.
  - intros (y & Hy & Hn). exists (nth y m []). split; [now apply nth_In | exact Hn].
Qed.

Lemma any_axis1_flag (m : list (list bool)) (y : nat) :
  rect m -> (y < length m)%nat ->
  nth y (np.any_axis1 m) false = true <->
  exists x, (x < np.ncols m)%nat /\ mask_at m x y = true.
Proof.
  intros Hrect Hy. rewrite any_axis1_nth, any1_true_iff.
  unfold rect in Hrect. rewrite Forall_forall in Hrect.
  rewrite (Hrect (nth y m [])) by now apply nth_In.
  reflexivity.
Qed.

(** The four indices of a rectangular mask with a true flag: every true
    flag lies between them, and each of them is the column or row of a true
    flag. *)
Lemma extent_spec (m : list (list bool)) :
  rect m -> np.any m = true ->
  let x1 := first_index (np.where_ (np.any_axis0 m)) in
  let x2 := last_index (np.where_ (np.any_axis0 m)) in
  let y1 := first_index (np.where_ (np.any_axis1 m)) in
  let y2 := last_index (np.where_ (np.any_axis1 m)) in
  (forall x y, (x < np.ncols m)%nat -> (y < length m)%nat -> mask_at m x y = true ->
     x1 <= Z.of_nat x <= x2 /\ y1 <= Z.of_nat y <= y2) /\
  (exists y, (y < length m)%nat /\ mask_at m (Z.to_nat x1) y = true) /\
  (exists y, (y < length m)%nat /\ mask_at m (Z.to_nat x2) y = true) /\
  (exists x, (x < np.ncols m)%nat /\ mask_at m x (Z.to_nat y1) = true) /\
  (exists x, (x < np.ncols m)%nat /\ mask_at m x (Z.to_nat y2) = true).
Proof.
  intros Hrect Hany x1 x2 y1 y2.
  assert (Hr : np.any1 (np.any_axis1 m) = true) by now rewrite any_axis1_any.
  assert (Hc : np.any1 (np.any_axis0 m) = true) by now apply any_axis0_any.
  destruct (first_last_spec _ Hc) as (Hx & Hxn & Hx1 & Hx2 & Hxall).
  destruct (first_last_spec _ Hr) as (Hy & Hyn & Hy1 & Hy2 & Hyall).
  rewrite any_axis0_length in Hxn, Hxall. rewrite any_axis1_length in Hyn, Hyall.
  fold x1 x2 in Hx, Hxn, Hx1, Hx2, Hxall. fold y1 y2 in Hy, Hyn, Hy1, Hy2, Hyall.
  split; [|repeat split].
  - intros x y Hxr Hyr Hflag. split.
    + apply Hxall; [lia|]. rewrite Nat2Z.id.
      apply any_axis0_flag; [exact Hxr | now exists y].
    + apply Hyall; [lia|]. rewrite Nat2Z.id.
      apply any_axis1_flag; [exact Hrect | exact Hyr | now exists x].
  - apply any_axis0_flag; [lia | exact Hx1].
  - apply any_axis0_flag; [lia | exact Hx2].
  - apply any_axis1_flag; [exact Hrect | lia | exact Hy1].
  - apply any_axis1_flag; [exact Hrect | lia | exact Hy2].
Qed.

Lemma mask_at_map {T : Type} (g : T -> bool) (d : T) (a : list (list T)) (x y : nat) :
  (y < length a)%nat -> (x < length (nth y a []))%nat ->
  mask_at (map (map g) a) x y = g (nth x (nth y a []) d).
Proof.
  intros Hy Hx. unfold mask_at.
  change (@nil bool) with (map g []). rewrite map_nth.
  rewrite nth_indep with (d' := g d) by (rewrite length_map; exact Hx).
  apply map_nth.
Qed.

Lemma build_rows_nth_nat {T : Type} (d : T) (w h : Z) (f : Z -> Z -> T) (x y : nat) :
  Z.of_nat x < w -> Z.of_nat y < h ->
  nth x (nth y (build_rows w h f) []) d = f (Z.of_nat x) (Z.of_nat y).
Proof.
  intros Hx Hy.
  pose proof (build_rows_nth d w h f (Z.of_nat x) (Z.of_nat y) ltac:(lia) ltac:(lia)) as H.
  unfold nthZ in H.
  destruct (Z.ltb_spec (Z.of_nat y) 0); [lia|].
  destruct (Z.ltb_spec (Z.of_nat x) 0); [lia|].
  now rewrite !Nat2Z.id in H.
Qed.

End Extent.

(** ** [get_content_bounds]: the box of the pixels that are not white *)

Section WhiteDifference.

Import crop_logos.

Lemma differs_from_white_false (p : pixel) :
  differs_from_white p = false <-> pure_white p.
Proof.
  unfold differs_from_white, PIL.nonzero, PIL.difference_pixel, pure_white.
  cbn [R G B white].
  rewrite negb_false_iff, !andb_true_iff, !Z.eqb_eq. lia.
Qed.

Lemma differs_from_white_true (p : pixel) :
  differs_from_white p = true <-> ~ pure_white p.
Proof.
  rewrite <- differs_from_white_false.
  destruct (differs_from_white p); split; congruence.
Qed.

Lemma mask_at_built {T : Type} (g : T -> bool) (w h : Z) (f : Z -> Z -> T) (x y : nat) :
  Z.of_nat x < w -> Z.of_nat y < h ->
  mask_at (map (map g) (build_rows w h f)) x y = g (f (Z.of_nat x) (Z.of_nat y)).
Proof.
  intros Hx Hy.
  assert (Hlen : (y < length (build_rows w h f))%nat)
    by (rewrite build_rows_length; lia).
  assert (Hrow : length (nth y (build_rows w h f) []) = Z.to_nat w).
  { pose proof (build_rows_row_length w h f) as H.
    rewrite Forall_forall in H. apply H. now apply nth_In. }
  rewrite mask_at_map with (d := f 0 0) by (try rewrite Hrow; lia).
  now rewrite build_rows_nth_nat.
Qed.

Lemma mask_none_at (m : list (list bool)) (x y : nat) :
  np.any m = false -> (y < length m)%nat -> (x < length (nth y m []))%nat ->
  mask_at m x y = false.
Proof.
  intros Hany Hy Hx. unfold np.any in Hany.
  pose proof (existsb_nth np.any1 m [] Hy Hany) as Hrow.
  unfold np.any1 in Hrow.
  exact (existsb_nth (fun b => b) (nth y m []) false Hx Hrow).
Qed.

(** [getbbox] of an image given by its pixel function. *)
Lemma getbbox_built_spec (md : mode) (w h : Z) (f : Z -> Z -> pixel) :
  0 <= w -> 0 <= h ->
  match PIL.getbbox (mkImage md w h (build_rows w h f)) with
  | None => forall x y, 0 <= x < w -> 0 <= y < h -> PIL.nonzero (f x y) = false
  | Some (x1, y1, x2, y2) =>
      (forall x y, 0 <= x < w -> 0 <= y < h -> PIL.nonzero (f x y) = true ->
         x1 <= x < x2 /\ y1 <= y < y2) /\
      (exists y, 0 <= y < h /\ PIL.nonzero (f x1 y) = true) /\
      (exists y, 0 <= y < h /\ PIL.nonzero (f (x2 - 1) y) = true) /\
      (exists x, 0 <= x < w /\ PIL.nonzero (f x y1) = true) /\
      (exists x, 0 <= x < w /\ PIL.nonzero (f x (y2 - 1)) = true)
  end.
Proof.
  intros Hw Hh. unfold PIL.getbbox. cbv zeta. simpl img_data.
  set (mk := map (map PIL.nonzero) (build_rows w h f)).
  assert (Hwd : Forall (fun r => length r = Z.to_nat w) mk)
    by (apply mask_width, build_rows_row_length).
  assert (Hlen : length mk = Z.to_nat h)
    by (unfold mk; now rewrite length_map, build_rows_length).
  assert (Hat : forall x y, 0 <= x < w -> 0 <= y < h ->
                  mask_at mk (Z.to_nat x) (Z.to_nat y) = PIL.nonzero (f x y)).
  { intros x y Hx Hy. unfold mk. rewrite mask_at_built by lia.
    now rewrite !Z2Nat.id by lia. }
  destruct (np.any mk) eqn:Hany; simpl negb; cbv iota.
  - assert (Hne : mk <> [])
      by (intros E; rewrite E in Hany; simpl in Hany; discriminate).
    assert (Hcols : np.ncols mk = Z.to_nat w) by now apply ncols_of_width.
    destruct (getbbox_built w h f md _ Hw Hh
                ltac:(unfold PIL.getbbox; cbv zeta; simpl img_data; fold mk;
                      rewrite Hany; reflexivity))
      as (Hx1 & Hx12 & Hx2 & Hy1 & Hy12 & Hy2).
    destruct (extent_spec mk (rect_of_width _ _ Hwd) Hany)
      as (Hcov & (ya & Hya & Ha) & (yb & Hyb & Hb) & (xc & Hxc & Hc) & (xd & Hxd & Hd)).
    rewrite Hcols in *. rewrite Hlen in *.
    split; [|repeat split].
    + intros x y Hx Hy Hnz. rewrite <- Hat in Hnz by assumption.
      specialize (Hcov (Z.to_nat x) (Z.to_nat y) ltac:(lia) ltac:(lia) Hnz).
      rewrite !Z2Nat.id in Hcov by lia. lia.
    + exists (Z.of_nat ya). split; [lia|].
      rewrite <- Hat by lia. now rewrite Nat2Z.id.
    + exists (Z.of_nat yb). split; [lia|].
      rewrite <- Hat by lia. rewrite Nat2Z.id.
      now replace (last_index (np.where_ (np.any_axis0 mk)) + 1 - 1)
        with (last_index (np.where_ (np.any_axis0 mk))) by lia.
    + exists (Z.of_nat xc). split; [lia|].
      rewrite <- Hat by lia. now rewrite Nat2Z.id.
    + exists (Z.of_nat xd). split; [lia|].
      rewrite <- Hat by lia. rewrite Nat2Z.id.
      now replace (last_index (np.where_ (np.any_axis1 mk)) + 1 - 1)
        with (last_index (np.where_ (np.any_axis1 mk))) by lia.
  - intros x y Hx Hy. rewrite <- Hat by assumption.
    apply mask_none_at; [exact Hany | lia |].
    rewrite Forall_forall in Hwd. rewrite (Hwd (nth (Z.to_nat y) mk [])).
    + lia.
    + apply nth_In. lia.
Qed.

Lemma all_pixels_of_getpixel (P : pixel -> Prop) (im : image) :
  wf_image im ->
  (forall x y, in_image im x y -> P (PIL.getpixel im x y)) -> all_pixels P im.
Proof.
  intros (Hlen & Hw & Hrows) H. unfold all_pixels.
  apply Forall_forall. intros row Hrow. apply Forall_forall. intros p Hp.
  rewrite Forall_forall in Hrows. pose proof (Hrows _ Hrow) as Hrl.
  apply In_nth with (d := []) in Hrow. destruct Hrow as (y & Hy & <-).
  apply In_nth with (d := zero_pixel) in Hp. destruct Hp as (x & Hx & <-).
  specialize (H (Z.of_nat x) (Z.of_nat y) ltac:(unfold in_image; lia)).
  unfold PIL.getpixel, nthZ in H.
  destruct (Z.ltb_spec (Z.of_nat y) 0); [lia|].
  destruct (Z.ltb_spec (Z.of_nat x) 0); [lia|].
  now rewrite !Nat2Z.id in H.
Qed.

(** The pixel function of the difference image of [get_content_bounds]. *)
Lemma get_content_bounds_mask (img : image) :
  wf_image img ->
  let im := rgb_on_white img in
  get_content_bounds img =
    PIL.getbbox (mkImage RGB (img_width img) (img_height img)
      (build_rows (img_width img) (img_height img) (fun x y =>
         PIL.difference_pixel (PIL.getpixel im x y)
           (PIL.getpixel (PIL.Image_new RGB (PIL.size im) white) x y)))).
Proof.
  intros Hwf. destruct (rgb_on_white_wf img Hwf) as (_ & Hw' & Hh').
  cbv zeta. rewrite get_content_bounds_eq. cbv zeta.
  unfold PIL.ImageChops_difference, PIL.getbbox. cbv zeta. simpl img_data.
  now rewrite Hw', Hh'.
Qed.

(** [get_content_bounds] in terms of the pixels of the composited image. *)
Lemma get_content_bounds_spec (img : image) :
  wf_image img ->
  let im := rgb_on_white img in
  match get_content_bounds img with
  | None => forall x y, in_image img x y -> pure_white (PIL.getpixel im x y)
  | Some (x1, y1, x2, y2) =>
      (forall x y, in_image img x y -> ~ pure_white (PIL.getpixel im x y) ->
         x1 <= x < x2 /\ y1 <= y < y2) /\
      (exists y, 0 <= y < img_height img /\ ~ pure_white (PIL.getpixel im x1 y)) /\
      (exists y, 0 <= y < img_height img /\ ~ pure_white (PIL.getpixel im (x2 - 1) y)) /\
      (exists x, 0 <= x < img_width img /\ ~ pure_white (PIL.getpixel im x y1)) /\
      (exists x, 0 <= x < img_width img /\ ~ pure_white (PIL.getpixel im x (y2 - 1)))
  end.
Proof.
  intros Hwf im. pose proof (wf_height_nonneg _ Hwf) as Hh.
  assert (Hw : 0 <= img_width img) by (destruct Hwf as (_ & Hw & _); exact Hw).
  destruct (rgb_on_white_wf img Hwf) as (_ & Hw' & Hh'). fold im in Hw', Hh'.
  rewrite (get_content_bounds_mask img Hwf). cbv zeta. fold im.
  set (f := fun x y => PIL.difference_pixel (PIL.getpixel im x y)
                         (PIL.getpixel (PIL.Image_new RGB (PIL.size im) white) x y)).
  assert (Hf : forall x y, 0 <= x < img_width img -> 0 <= y < img_height img ->
                 PIL.nonzero (f x y) = differs_from_white (PIL.getpixel im x y)).
  { intros x y Hx Hy. unfold f, differs_from_white, PIL.size.
    rewrite new_getpixel by lia. reflexivity. }
  pose proof (getbbox_built_spec RGB (img_width img) (img_height img) f Hw Hh) as Hspec.
  destruct (PIL.getbbox _) as [[[[x1 y1] x2] y2]|] eqn:Hbb.
  - pose proof (getbbox_built _ _ _ _ _ Hw Hh Hbb) as Hin. cbv beta iota in Hin.
    destruct Hspec as (Hcov & (ya & Hya & Ha) & (yb & Hyb & Hb)
                         & (xc & Hxc & Hc) & (xd & Hxd & Hd)).
    rewrite Hf in Ha, Hb, Hc, Hd by lia.
    apply differs_from_white_true in Ha, Hb, Hc, Hd.
    split; [|repeat split].
    + intros x y [Hx Hy] Hnw. apply Hcov; try assumption.
      rewrite Hf by assumption. now apply differs_from_white_true.
    + now exists ya.
    + now exists yb.
    + now exists xc.
    + now exists xd.
  - intros x y [Hx Hy]. apply differs_from_white_false.
    rewrite <- Hf by assumption. now apply Hspec.
Qed.

End WhiteDifference.

Section ContentBox.

Import crop_logos.

(** X1.  [get_content_bounds] returns [None] exactly when every pixel of
    the image, composited over white, is (255, 255, 255). *)
Theorem get_content_bounds_None_iff (img : image) :
  wf_image img ->
  get_content_bounds img = None <-> all_pixels pure_white (rgb_on_white img).
Proof.
  intros Hwf. split.
  - intros Hnone. pose proof (get_content_bounds_spec img Hwf) as H.
    cbv zeta in H. rewrite Hnone in H.
    destruct (rgb_on_white_wf img Hwf) as (Hwf' & Hw' & Hh').
    apply all_pixels_of_getpixel; [exact Hwf'|].
    intros x y [Hx Hy]. apply H. unfold in_image. rewrite <- Hw', <- Hh'. tauto.
  - now apply get_content_bounds_white.
Qed.

Lemma get_content_bounds_None_iff_witness :
  get_content_bounds (uniform RGBA 4 3 white) = None <->
  all_pixels pure_white (rgb_on_white (uniform RGBA 4 3 white)).
Proof.
  apply (get_content_bounds_None_iff (uniform RGBA 4 3 white)).
  apply wf_imageb_sound. vm_compute. reflexivity.
Defined.

(** X2.  The box returned by [get_content_bounds] contains every position
    whose composited pixel is not (255, 255, 255). *)
Theorem get_content_bounds_covers (img : image) (b : box) (x y : Z) :
  wf_image img -> get_content_bounds img = Some b ->
  in_image img x y -> ~ pure_white (PIL.getpixel (rgb_on_white img) x y) ->
  inside b x y.
Proof.
  intros Hwf Hb Hin Hnw. pose proof (get_content_bounds_spec img Hwf) as H.
  cbv zeta in H. rewrite Hb in H. destruct b as [[[x1 y1] x2] y2].
  destruct H as (Hcov & _). unfold inside. now apply Hcov.
Qed.

Lemma get_content_bounds_covers_witness :
  inside (40, 40, 60, 60) 47 52.
Proof.
  apply (get_content_bounds_covers square_scene (40, 40, 60, 60) 47 52).
  - apply wf_imageb_sound. vm_compute. reflexivity.
  - vm_compute. reflexivity.
  - unfold in_image. simpl. lia.
  - vm_compute. intros (H & _). discriminate H.
Defined.

(** X3.  The box returned by [get_content_bounds] is the smallest one: its
    first and last column and its first and last row each hold a pixel
    that, composited over white, is not (255, 255, 255). *)
Theorem get_content_bounds_tight (img : image) (x1 y1 x2 y2 : Z) :
  wf_image img -> get_content_bounds img = Some (x1, y1, x2, y2) ->
  let im := rgb_on_white img in
  (exists y, 0 <= y < img_height img /\ ~ pure_white (PIL.getpixel im x1 y)) /\
  (exists y, 0 <= y < img_height img /\ ~ pure_white (PIL.getpixel im (x2 - 1) y)) /\
  (exists x, 0 <= x < img_width img /\ ~ pure_white (PIL.getpixel im x y1)) /\
  (exists x, 0 <= x < img_width img /\ ~ pure_white (PIL.getpixel im x (y2 - 1))).
Proof.
  intros Hwf Hb. pose proof (get_content_bounds_spec img Hwf) as H.
  cbv zeta in H. rewrite Hb in H. cbv zeta. tauto.
Qed.

Lemma get_content_bounds_tight_witness :
  exists y, 0 <= y < 100 /\
            ~ pure_white (PIL.getpixel (rgb_on_white square_scene) 40 y).
Proof.
  assert (Hwf : wf_image square_scene)
    by (apply wf_imageb_sound; vm_compute; reflexivity).
  assert (Hb : get_content_bounds square_scene = Some (40, 40, 60, 60))
    by (vm_compute; reflexivity).
  exact (proj1 (get_content_bounds_tight square_scene 40 40 60 60 Hwf Hb)).
Defined.

End ContentBox.

(** ** The border-ignoring search: what lies in the interior *)

Section InteriorSearch.

Import crop_logos_v2 crop_logos_tight.











End InteriorSearch.

Section SearchBox.

Import crop_logos_v2 crop_logos_tight.









End SearchBox.

(** ** [analyze_logo]: the report *)

Section Report.

Import analyze_logos.

Lemma as_rgba_wf (img : image) :
  wf_image img ->
  wf_image (as_rgba img) /\
  img_width (as_rgba img) = img_width img /\
  img_height (as_rgba img) = img_height img.
Proof.
  intros Hwf. unfold as_rgba, PIL.convert_RGBA.
  destruct (img_mode img);
    (split; [first [exact Hwf | apply wf_mapped; exact Hwf] | split; reflexivity]).
Qed.

(** The flag of a mask computed from the pixels of an image. *)
Lemma image_mask_at (g : pixel -> bool) (im : image) (x y : Z) :
  wf_image im -> in_image im x y ->
  mask_at (map (map g) (img_data im)) (Z.to_nat x) (Z.to_nat y)
    = g (PIL.getpixel im x y).
Proof.
  intros (Hlen & Hw & Hrows) [Hx Hy].
  assert (Hrow : In (nth (Z.to_nat y) (img_data im) []) (img_data im))
    by (apply nth_In; lia).
  rewrite Forall_forall in Hrows. specialize (Hrows _ Hrow).
  rewrite mask_at_map with (d := zero_pixel) by lia.
  unfold PIL.getpixel, nthZ.
  destruct (Z.ltb_spec y 0); [lia|]. destruct (Z.ltb_spec x 0); [lia|]. reflexivity.
Qed.

Lemma image_mask_shape (g : pixel -> bool) (im : image) :
  wf_image im ->
  length (map (map g) (img_data im)) = Z.to_nat (img_height im) /\
  Forall (fun r => length r = Z.to_nat (img_width im)) (map (map g) (img_data im)).
Proof.
  intros (Hlen & Hw & Hrows). rewrite length_map. split; [lia|].
  apply mask_width. eapply Forall_impl; [|exact Hrows]. simpl. intros; lia.
Qed.

(** What [analyze_logo] returns: a report when the mask has a true flag,
    the message otherwise. *)
Lemma analyze_logo_result (img : image) :
  wf_image img ->
  let im := as_rgba img in
  let mk := map (map is_content) (img_data im) in
  let x_min := first_index (np.where_ (np.any_axis0 mk)) in
  let x_max := last_index (np.where_ (np.any_axis0 mk)) in
  let y_min := first_index (np.where_ (np.any_axis1 mk)) in
  let y_max := last_index (np.where_ (np.any_axis1 mk)) in
  let w := img_width img in
  let h := img_height img in
  analyze_logo img =
  if np.any mk
  then (Some {| size := (w, h);
                content_bounds := (x_min, y_min, x_max, y_max);
                content_size := (x_max - x_min + 1, y_max - y_min + 1);
                padding := mkPadding (percent_of x_min w) (percent_of (w - x_max - 1) w)
                                     (percent_of y_min h) (percent_of (h - y_max - 1) h);
                needs_crop := gt (percent_of x_min w) 15
                              || gt (percent_of (w - x_max - 1) w) 15
                              || gt (percent_of y_min h) 15
                              || gt (percent_of (h - y_max - 1) h) 15 |}, None)
  else (None, Some "No content detected"%string).
Proof.
  intros Hwf. cbv zeta.
  destruct (as_rgba_wf img Hwf) as (Hwf' & Hw' & Hh').
  unfold analyze_logo. cbv zeta. fold (as_rgba img). unfold np.array, PIL.size.
  rewrite Hw', Hh'.
  destruct (image_mask_shape is_content (as_rgba img) Hwf') as (Hlen & Hwd).
  set (mk := map (map is_content) (img_data (as_rgba img))) in *.
  destruct (np.any mk) eqn:Hany; [|reflexivity].
  assert (Hr : np.any1 (np.any_axis1 mk) = true) by now rewrite any_axis1_any.
  assert (Hc : np.any1 (np.any_axis0 mk) = true)
    by (apply any_axis0_any; [eapply rect_of_width; eauto | exact Hany]).
  rewrite Hr, Hc. reflexivity.
Qed.

(** Percentages of a positive extent, as fractions over it. *)
Lemma percent_of_eq (n : Z) (p : positive) :
  (percent_of n (Zpos p) == (100 * n) # p)%Q.
Proof.
  unfold percent_of. rewrite <- Qmake_Qdiv.
  unfold Qeq, Qmult. cbn [Qnum Qden]. rewrite Pos2Z.inj_mul. lia.
Qed.

Lemma percent_of_nonneg (n extent : Z) :
  0 <= n -> 0 < extent -> (0 <= percent_of n extent)%Q.
Proof.
  intros Hn He. destruct extent as [|p|p]; try lia.
  rewrite percent_of_eq. unfold Qle. cbn [Qnum Qden]. lia.
Qed.

Lemma percent_of_gt_15 (n extent : Z) :
  0 < extent -> gt (percent_of n extent) 15 = true <-> 3 * extent < 20 * n.
Proof.
  intros He. destruct extent as [|p|p]; try lia.
  unfold gt. rewrite negb_true_iff.
  assert (Hb : Qle_bool (percent_of n (Zpos p)) 15 = Qle_bool ((100 * n) # p) 15)
    by (apply Qleb_comp; [apply percent_of_eq | reflexivity]).
  rewrite Hb. split.
  - intros H. destruct (Z.lt_ge_cases (3 * Zpos p) (20 * n)) as [|Hge]; [assumption|].
    assert (Hle : Qle_bool ((100 * n) # p) 15 = true)
      by (apply Qle_bool_iff; unfold Qle; cbn [Qnum Qden]; lia).
    congruence.
  - intros H. destruct (Qle_bool ((100 * n) # p) 15) eqn:E; [|reflexivity].
    apply Qle_bool_iff in E. unfold Qle in E. cbn [Qnum Qden] in E. lia.
Qed.

Lemma percent_of_sum (a b c : Z) (extent : Z) :
  0 < extent -> a + b + c = extent ->
  (percent_of a extent + percent_of b extent + percent_of c extent == 100)%Q.
Proof.
  intros He Hsum. destruct extent as [|p|p]; try lia.
  rewrite !percent_of_eq. unfold Qeq, Qplus. cbn [Qnum Qden].
  rewrite !Pos2Z.inj_mul. subst. nia.
Qed.

(** The fields of a report, with the bounds of the content box. *)
Lemma analyze_logo_fields (img : image) (r : report) :
  wf_image img -> fst (analyze_logo img) = Some r ->
  exists x_min y_min x_max y_max,
    let w := img_width img in
    let h := img_height img in
    (0 <= x_min /\ x_min <= x_max /\ x_max < w /\
     0 <= y_min /\ y_min <= y_max /\ y_max < h) /\
    r = {| size := (w, h);
           content_bounds := (x_min, y_min, x_max, y_max);
           content_size := (x_max - x_min + 1, y_max - y_min + 1);
           padding := mkPadding (percent_of x_min w) (percent_of (w - x_max - 1) w)
                                (percent_of y_min h) (percent_of (h - y_max - 1) h);
           needs_crop := gt (percent_of x_min w) 15
                         || gt (percent_of (w - x_max - 1) w) 15
                         || gt (percent_of y_min h) 15
                         || gt (percent_of (h - y_max - 1) h) 15 |}.
Proof.
  intros Hwf Hr. pose proof (analyze_logo_in_image img r Hwf Hr) as Hin.
  rewrite (analyze_logo_result img Hwf) in Hr. cbv zeta in Hr.
  destruct (np.any _); [|discriminate]. simpl in Hr. injection Hr as <-.
  simpl in Hin. unfold inclusive_box_in in Hin.
  do 4 eexists. cbv zeta. split; [exact Hin | reflexivity].
Qed.

End Report.

Section ReportProperties.

Import analyze_logos.

(** X8.  [analyze_logo] has two outcomes: the message "No content
    detected" without a report, exactly when no pixel (read as RGBA) has
    alpha above 50 and a colour channel below 240; otherwise a report
    without a message. *)
Theorem analyze_logo_outcome (img : image) :
  wf_image img ->
  (analyze_logo img = (None, Some "No content detected"%string) /\
   forall x y, in_image img x y ->
     is_content (PIL.getpixel (as_rgba img) x y) = false) \/
  (exists r, analyze_logo img = (Some r, None) /\
   exists x y, in_image img x y /\
     is_content (PIL.getpixel (as_rgba img) x y) = true).
Proof.
  intros Hwf. destruct (as_rgba_wf img Hwf) as (Hwf' & Hw' & Hh').
  rewrite (analyze_logo_result img Hwf). cbv zeta.
  destruct (image_mask_shape is_content (as_rgba img) Hwf') as (Hlen & Hwd).
  set (mk := map (map is_content) (img_data (as_rgba img))) in *.
  destruct (np.any mk) eqn:Hany.
  - right. eexists. split; [reflexivity|].
    assert (Hne : mk <> []) by (intros E; rewrite E in Hany; discriminate).
    pose proof (ncols_of_width _ _ Hwd Hne) as Hcols.
    assert (Hr : np.any1 (np.any_axis1 mk) = true) by now rewrite any_axis1_any.
    assert (Hc : np.any1 (np.any_axis0 mk) = true)
      by (apply any_axis0_any; [eapply rect_of_width; eauto | exact Hany]).
    destruct (extent_bounds mk Hr Hc) as ((Hx & Hxn) & _).
    destruct (extent_spec mk (rect_of_width _ _ Hwd) Hany) as (_ & (y & Hy & Hflag) & _).
    exists (first_index (np.where_ (np.any_axis0 mk))), (Z.of_nat y).
    assert (Hin : in_image (as_rgba img) (first_index (np.where_ (np.any_axis0 mk)))
                    (Z.of_nat y)) by (unfold in_image; lia).
    split; [unfold in_image in *; rewrite <- Hw', <- Hh'; exact Hin|].
    rewrite <- (image_mask_at is_content _ _ _ Hwf' Hin). fold mk.
    now rewrite Nat2Z.id.
  - left. split; [reflexivity|].
    intros x y [Hx Hy].
    assert (Hin : in_image (as_rgba img) x y)
      by (unfold in_image; rewrite Hw', Hh'; tauto).
    rewrite <- (image_mask_at is_content _ _ _ Hwf' Hin). fold mk.
    apply mask_none_at; [exact Hany | lia |].
    rewrite Forall_forall in Hwd. rewrite (Hwd (nth (Z.to_nat y) mk [])); [lia|].
    apply nth_In. lia.
Qed.

Lemma analyze_logo_outcome_witness :
  (analyze_logo square_scene = (None, Some "No content detected"%string) /\
   forall x y, in_image square_scene x y ->
     is_content (PIL.getpixel (as_rgba square_scene) x y) = false) \/
  (exists r, analyze_logo square_scene = (Some r, None) /\
   exists x y, in_image square_scene x y /\
     is_content (PIL.getpixel (as_rgba square_scene) x y) = true).
Proof.
  apply (analyze_logo_outcome square_scene).
  apply wf_imageb_sound. vm_compute. reflexivity.
Defined.

(** X9.  In a report of [analyze_logo]: the size is the image size; the
    content size is (x_max - x_min + 1, y_max - y_min + 1), between 1 and
    the image size; the four padding percentages are non-negative; left
    padding, right padding and the content width as a percentage of the
    image width add up to 100, and likewise vertically. *)
Theorem analyze_logo_report (img : image) (r : report) :
  wf_image img -> fst (analyze_logo img) = Some r ->
  let '(x_min, y_min, x_max, y_max) := content_bounds r in
  let '(cw, ch) := content_size r in
  size r = (img_width img, img_height img) /\
  cw = x_max - x_min + 1 /\ ch = y_max - y_min + 1 /\
  1 <= cw <= img_width img /\ 1 <= ch <= img_height img /\
  (0 <= left (padding r) /\ 0 <= right (padding r) /\
   0 <= top (padding r) /\ 0 <= bottom (padding r))%Q /\
  (left (padding r) + right (padding r) + percent_of cw (img_width img) == 100)%Q /\
  (top (padding r) + bottom (padding r) + percent_of ch (img_height img) == 100)%Q.
Proof.
  intros Hwf Hr.
  destruct (analyze_logo_fields img r Hwf Hr) as (x1 & y1 & x2 & y2 & Hb & ->).
  cbv zeta in Hb. cbn [content_bounds content_size size padding left right top bottom].
  split; [reflexivity|]. split; [reflexivity|]. split; [reflexivity|].
  split; [lia|]. split; [lia|].
  split; [repeat split; apply percent_of_nonneg; lia|].
  split; apply percent_of_sum; lia.
Qed.

Lemma analyze_logo_report_witness :
  exists r, fst (analyze_logo square_scene) = Some r /\
            content_size r = (20, 20) /\
            (left (padding r) + right (padding r) + percent_of 20 100 == 100)%Q.
Proof.
  assert (Hwf : wf_image square_scene)
    by (apply wf_imageb_sound; vm_compute; reflexivity).
  destruct (fst (analyze_logo square_scene)) as [r|] eqn:Hr.
  - exists r. split; [reflexivity|].
    pose proof (analyze_logo_report square_scene r Hwf Hr) as H.
    assert (Hb : content_bounds r = (40, 40, 59, 59)).
    { assert (E : option_map content_bounds (fst (analyze_logo square_scene))
                  = Some (40, 40, 59, 59)) by (vm_compute; reflexivity).
      rewrite Hr in E. simpl in E. now injection E. }
    rewrite Hb in H. destruct (content_size r) as [cw ch].
    destruct H as (_ & -> & -> & _ & _ & _ & Hsum & _).
    split; [reflexivity | exact Hsum].
  - exfalso.
    assert (E : option_map content_bounds (fst (analyze_logo square_scene))
                = Some (40, 40, 59, 59)) by (vm_compute; reflexivity).
    rewrite Hr in E. discriminate E.
Defined.

(** X10.  A report asks for a crop exactly when the margin on some side is
    more than 15% of that dimension: 20 * margin > 3 * extent for the left,
    right, top or bottom margin. *)
Theorem analyze_logo_needs_crop (img : image) (r : report) :
  wf_image img -> fst (analyze_logo img) = Some r ->
  let '(x_min, y_min, x_max, y_max) := content_bounds r in
  needs_crop r = true <->
  3 * img_width img < 20 * x_min \/
  3 * img_width img < 20 * (img_width img - x_max - 1) \/
  3 * img_height img < 20 * y_min \/
  3 * img_height img < 20 * (img_height img - y_max - 1).
Proof.
  intros Hwf Hr.
  destruct (analyze_logo_fields img r Hwf Hr) as (x1 & y1 & x2 & y2 & Hb & ->).
  cbv zeta in Hb. cbn [content_bounds needs_crop].
  rewrite !orb_true_iff, !percent_of_gt_15 by lia. tauto.
Qed.

Lemma analyze_logo_needs_crop_witness :
  exists r, fst (analyze_logo square_scene) = Some r /\ needs_crop r = true.
Proof.
  assert (Hwf : wf_image square_scene)
    by (apply wf_imageb_sound; vm_compute; reflexivity).
  destruct (fst (analyze_logo square_scene)) as [r|] eqn:Hr.
  - exists r. split; [reflexivity|].
    pose proof (analyze_logo_needs_crop square_scene r Hwf Hr) as H.
    assert (Hb : content_bounds r = (40, 40, 59, 59)).
    { assert (E : option_map content_bounds (fst (analyze_logo square_scene))
                  = Some (40, 40, 59, 59)) by (vm_compute; reflexivity).
      rewrite Hr in E. simpl in E. now injection E. }
    rewrite Hb in H. apply H. left. simpl. lia.
  - exfalso.
    assert (E : option_map content_bounds (fst (analyze_logo square_scene))
                = Some (40, 40, 59, 59)) by (vm_compute; reflexivity).
    rewrite Hr in E. discriminate E.
Defined.

(** X11.  The content bounds of a report contain (upper bounds included)
    every position whose pixel, read as RGBA, has alpha above 50 and a
    colour channel below 240. *)
Theorem analyze_logo_covers (img : image) (r : report) (x y : Z) :
  wf_image img -> fst (analyze_logo img) = Some r ->
  in_image img x y -> is_content (PIL.getpixel (as_rgba img) x y) = true ->
  let '(x_min, y_min, x_max, y_max) := content_bounds r in
  x_min <= x <= x_max /\ y_min <= y <= y_max.
Proof.
  intros Hwf Hr [Hx Hy] Hcontent.
  destruct (as_rgba_wf img Hwf) as (Hwf' & Hw' & Hh').
  rewrite (analyze_logo_result img Hwf) in Hr. cbv zeta in Hr.
  destruct (image_mask_shape is_content (as_rgba img) Hwf') as (Hlen & Hwd).
  set (mk := map (map is_content) (img_data (as_rgba img))) in *.
  destruct (np.any mk) eqn:Hany; [|discriminate]. simpl in Hr. injection Hr as <-.
  cbn [content_bounds].
  assert (Hne : mk <> []) by (intros E; rewrite E in Hany; discriminate).
  pose proof (ncols_of_width _ _ Hwd Hne) as Hcols.
  destruct (extent_spec mk (rect_of_width _ _ Hwd) Hany) as (Hcov & _).
  assert (Hin : in_image (as_rgba img) x y)
    by (unfold in_image; rewrite Hw', Hh'; tauto).
  pose proof (image_mask_at is_content _ _ _ Hwf' Hin) as Hat. fold mk in Hat.
  rewrite Hcontent in Hat.
  specialize (Hcov (Z.to_nat x) (Z.to_nat y) ltac:(lia) ltac:(lia) Hat).
  lia.
Qed.

Lemma analyze_logo_covers_witness :
  exists r, fst (analyze_logo square_scene) = Some r /\
            let '(x_min, y_min, x_max, y_max) := content_bounds r in
            x_min <= 47 <= x_max /\ y_min <= 52 <= y_max.
Proof.
  assert (Hwf : wf_image square_scene)
    by (apply wf_imageb_sound; vm_compute; reflexivity).
  destruct (fst (analyze_logo square_scene)) as [r|] eqn:Hr.
  - exists r. split; [reflexivity|].
    apply (analyze_logo_covers square_scene r 47 52 Hwf Hr).
    + unfold in_image. simpl. lia.
    + vm_compute. reflexivity.
  - exfalso.
    assert (E : option_map content_bounds (fst (analyze_logo square_scene))
                = Some (40, 40, 59, 59)) by (vm_compute; reflexivity).
    rewrite Hr in E. discriminate E.
Defined.

End ReportProperties.

(** ** The cropped images *)

Section Cropping.

Import crop_logos crop_logos_v2 crop_logos_tight.

(** The three scripts pad a box in the same way, and a padded box that
    started inside the image encloses it and stays inside the image. *)
Lemma padded_bounds_facts (img : image) (x1 y1 x2 y2 : Z) (padding_percent : Q) :
  exclusive_box_in img (x1, y1, x2, y2) -> (0 <= padding_percent)%Q ->
  exists nx1 ny1 nx2 ny2,
    crop_logos.padded_bounds img (x1, y1, x2, y2) padding_percent = (nx1, ny1, nx2, ny2) /\
    crop_logos_v2.padded_bounds img (x1, y1, x2, y2) padding_percent = (nx1, ny1, nx2, ny2) /\
    crop_logos_tight.padded_bounds img (x1, y1, x2, y2) padding_percent = (nx1, ny1, nx2, ny2) /\
    (0 <= nx1 <= x1 /\ x2 <= nx2 <= img_width img) /\
    (0 <= ny1 <= y1 /\ y2 <= ny2 <= img_height img).
Proof.
  intros Hb Hp. unfold exclusive_box_in in Hb.
  pose proof (pad_nonneg (x2 - x1) padding_percent ltac:(lia) Hp) as Hx0.
  pose proof (pad_nonneg (y2 - y1) padding_percent ltac:(lia) Hp) as Hy0.
  unfold pad_pixels in Hx0, Hy0.
  do 4 eexists.
  split; [reflexivity|]. split; [reflexivity|]. split; [reflexivity|].
  unfold PIL.size. cbn [fst snd]. lia.
Qed.

Lemma crop_size (img : image) (x0 y0 x1 y1 : Z) :
  x0 <= x1 -> y0 <= y1 ->
  PIL.size (PIL.crop img (x0, y0, x1, y1)) = (x1 - x0, y1 - y0) /\
  img_mode (PIL.crop img (x0, y0, x1, y1)) = img_mode img /\
  wf_image (PIL.crop img (x0, y0, x1, y1)).
Proof.
  intros Hx Hy. unfold PIL.crop, PIL.build, PIL.size. cbn [img_width img_height img_mode].
  rewrite !Z.max_r by lia.
  split; [reflexivity|]. split; [reflexivity|]. apply wf_built; lia.
Qed.

(** A crop inside the image holds the pixels of the image, none filled in. *)
Lemma crop_getpixel (img : image) (x0 y0 x1 y1 x y : Z) :
  0 <= x0 -> x1 <= img_width img -> 0 <= y0 -> y1 <= img_height img ->
  0 <= x < x1 - x0 -> 0 <= y < y1 - y0 ->
  PIL.getpixel (PIL.crop img (x0, y0, x1, y1)) x y = PIL.getpixel img (x + x0) (y + y0).
Proof.
  intros Hx0 Hx1 Hy0 Hy1 Hx Hy.
  unfold PIL.crop, PIL.build. unfold PIL.getpixel at 1. cbn [img_data].
  rewrite build_rows_nth by lia.
  assert (E : ((0 <=? x + x0) && (x + x0 <? img_width img)
               && (0 <=? y + y0) && (y + y0 <? img_height img)) = true)
    by (apply in_range_iff; lia).
  now rewrite E.
Qed.

End Cropping.

Section CropResults.

Import crop_logos crop_logos_v2 crop_logos_tight.

(** X12.  When content is found, [crop_tight_with_padding] returns the
    padded box cut out of the input: same mode, the size of the padded box
    (at least the content size, at most the image size), and at every
    position the pixel of the input at that position of the padded box; it
    prints the content size and origin. *)
Theorem crop_tight_result (img : image) (padding_percent : Q) (x1 y1 x2 y2 : Z) :
  wf_image img -> (0 <= padding_percent)%Q ->
  find_tight_content img (5 # 100) = Some (x1, y1, x2, y2) ->
  let '(nx1, ny1, nx2, ny2) :=
    crop_logos_tight.padded_bounds img (x1, y1, x2, y2) padding_percent in
  let out := fst (crop_tight_with_padding img padding_percent) in
  snd (crop_tight_with_padding img padding_percent) = [content_line (x1, y1, x2, y2)] /\
  img_mode out = img_mode img /\ wf_image out /\
  PIL.size out = (nx2 - nx1, ny2 - ny1) /\
  (x2 - x1 <= nx2 - nx1 <= img_width img /\ y2 - y1 <= ny2 - ny1 <= img_height img) /\
  (forall x y, 0 <= x < nx2 - nx1 -> 0 <= y < ny2 - ny1 ->
     PIL.getpixel out x y = PIL.getpixel img (nx1 + x) (ny1 + y)).
Proof.
  intros Hwf Hp Hb.
  assert (Hin : exclusive_box_in img (x1, y1, x2, y2)).
  { apply find_tight_content_in_image with (t := 5 # 100); auto.
    apply Qle_bool_sound. reflexivity. }
  destruct (padded_bounds_facts img x1 y1 x2 y2 padding_percent Hin Hp)
    as (nx1 & ny1 & nx2 & ny2 & _ & _ & Hpad & Hx & Hy).
  unfold exclusive_box_in in Hin.
  unfold crop_tight_with_padding. rewrite Hb, Hpad. cbn [fst snd].
  destruct (crop_size img nx1 ny1 nx2 ny2) as (Hsize & Hmode & Hwfc); [lia | lia |].
  split; [reflexivity|]. split; [exact Hmode|]. split; [exact Hwfc|].
  split; [exact Hsize|]. split; [lia|].
  intros x y Hxr Hyr. rewrite crop_getpixel by lia. f_equal; lia.
Qed.

Lemma crop_tight_result_witness :
  PIL.size (fst (crop_tight_with_padding square_scene 5)) = (22, 22) /\
  PIL.getpixel (fst (crop_tight_with_padding square_scene 5)) 1 1
    = PIL.getpixel square_scene (39 + 1) (39 + 1).
Proof.
  assert (Hwf : wf_image square_scene)
    by (apply wf_imageb_sound; vm_compute; reflexivity).
  assert (Hp : (0 <= 5)%Q) by (apply Qle_bool_sound; reflexivity).
  assert (Hb : find_tight_content square_scene (5 # 100) = Some (40, 40, 60, 60))
    by (vm_compute; reflexivity).
  pose proof (crop_tight_result square_scene 5 40 40 60 60 Hwf Hp Hb) as H.
  change (crop_logos_tight.padded_bounds square_scene (40, 40, 60, 60) 5)
    with (39, 39, 61, 61) in H.
  cbv beta iota zeta in H. destruct H as (_ & _ & _ & Hsize & _ & Hpix).
  split; [exact Hsize|]. apply Hpix; lia.
Defined.

(** X13.  When content is found, [crop_with_padding] of [crop_logos.py]
    and of [crop_logos_v2.py] return a square image whose side is the
    larger side of the padded box: at least the larger content dimension
    and at most the larger image dimension. *)
Theorem crop_with_padding_square (img : image) (padding_percent : Q) (x1 y1 x2 y2 : Z) :
  wf_image img -> (0 <= padding_percent)%Q ->
  let '(nx1, ny1, nx2, ny2) :=
    crop_logos.padded_bounds img (x1, y1, x2, y2) padding_percent in
  let side := Z.max (nx2 - nx1) (ny2 - ny1) in
  (get_content_bounds img = Some (x1, y1, x2, y2) ->
   PIL.size (crop_logos.crop_with_padding img padding_percent) = (side, side) /\
   Z.max (x2 - x1) (y2 - y1) <= side <= Z.max (img_width img) (img_height img)) /\
  (remove_border_and_find_content img (5 # 100) = Some (x1, y1, x2, y2) ->
   PIL.size (fst (crop_logos_v2.crop_with_padding img padding_percent)) = (side, side) /\
   img_mode (fst (crop_logos_v2.crop_with_padding img padding_percent)) = RGB /\
   Z.max (x2 - x1) (y2 - y1) <= side <= Z.max (img_width img) (img_height img)).
Proof.
  intros Hwf Hp.
  assert (Hgen : exclusive_box_in img (x1, y1, x2, y2) ->
            exists nx1 ny1 nx2 ny2,
              crop_logos.padded_bounds img (x1, y1, x2, y2) padding_percent
                = (nx1, ny1, nx2, ny2) /\
              crop_logos_v2.padded_bounds img (x1, y1, x2, y2) padding_percent
                = (nx1, ny1, nx2, ny2) /\
              PIL.size (crop_logos.make_square (PIL.crop img (nx1, ny1, nx2, ny2)))
                = (Z.max (nx2 - nx1) (ny2 - ny1), Z.max (nx2 - nx1) (ny2 - ny1)) /\
              PIL.size (crop_logos_v2.make_square (PIL.crop img (nx1, ny1, nx2, ny2)))
                = (Z.max (nx2 - nx1) (ny2 - ny1), Z.max (nx2 - nx1) (ny2 - ny1)) /\
              Z.max (x2 - x1) (y2 - y1) <= Z.max (nx2 - nx1) (ny2 - ny1)
                <= Z.max (img_width img) (img_height img)).
  { intros Hin.
    destruct (padded_bounds_facts img x1 y1 x2 y2 padding_percent Hin Hp)
      as (nx1 & ny1 & nx2 & ny2 & Hp1 & Hp2 & _ & Hx & Hy).
    unfold exclusive_box_in in Hin.
    exists nx1, ny1, nx2, ny2.
    destruct (crop_size img nx1 ny1 nx2 ny2) as (Hsize & _ & _); [lia | lia |].
    assert (Hcw : img_width (PIL.crop img (nx1, ny1, nx2, ny2)) = nx2 - nx1)
      by exact (f_equal fst Hsize).
    assert (Hch : img_height (PIL.crop img (nx1, ny1, nx2, ny2)) = ny2 - ny1)
      by exact (f_equal snd Hsize).
    split; [exact Hp1|]. split; [exact Hp2|]. split; [|split; [|lia]].
    - rewrite make_square_size by (rewrite ?Hcw, ?Hch; lia). now rewrite Hcw, Hch.
    - cbv beta iota zeta delta [crop_logos_v2.make_square PIL.size].
      rewrite Hcw, Hch. unfold PIL.paste. simpl. now rewrite Z.max_r by lia. }
  destruct (crop_logos.padded_bounds img (x1, y1, x2, y2) padding_percent)
    as [[[nx1 ny1] nx2] ny2] eqn:Hpad.
  cbv zeta. split.
  - intros Hb.
    destruct (Hgen (get_content_bounds_in_image img _ Hwf Hb))
      as (a & b & c & d & E1 & _ & Hs & _ & Hside).
    injection E1 as <- <- <- <-.
    unfold crop_logos.crop_with_padding, crop_box_with_padding.
    rewrite Hb, Hpad. split; [exact Hs | exact Hside].
  - intros Hb.
    assert (Hin : exclusive_box_in img (x1, y1, x2, y2)).
    { apply find_tight_content_in_image with (t := 5 # 100); auto.
      apply Qle_bool_sound. reflexivity. }
    destruct (Hgen Hin) as (a & b & c & d & E1 & E2 & _ & Hs & Hside).
    injection E1 as <- <- <- <-.
    unfold crop_logos_v2.crop_with_padding. rewrite Hb, E2. cbn [fst].
    split; [exact Hs|]. split; [|exact Hside].
    unfold crop_logos_v2.make_square, PIL.size, PIL.paste. reflexivity.
Qed.

Lemma crop_with_padding_square_witness :
  PIL.size (crop_logos.crop_with_padding square_scene 5) = (22, 22) /\
  20 <= 22 <= 100.
Proof.
  assert (Hwf : wf_image square_scene)
    by (apply wf_imageb_sound; vm_compute; reflexivity).
  assert (Hp : (0 <= 5)%Q) by (apply Qle_bool_sound; reflexivity).
  pose proof (crop_with_padding_square square_scene 5 40 40 60 60 Hwf Hp) as H.
  change (crop_logos.padded_bounds square_scene (40, 40, 60, 60) 5)
    with (39, 39, 61, 61) in H.
  cbv beta iota zeta in H. destruct H as (H & _).
  apply H. vm_compute. reflexivity.
Defined.

End CropResults.

(** ** Detecting again on the output of [crop_logos.py] *)

Section Redetection.

Import crop_logos.

(** The pixels of the square canvas made from an RGB crop. *)
Lemma make_square_rgb_pixel (c : image) (x y : Z) :
  img_mode c = RGB -> 0 <= img_width c -> 0 <= img_height c ->
  let side := Z.max (img_width c) (img_height c) in
  let ox := (side - img_width c) / 2 in
  let oy := (side - img_height c) / 2 in
  0 <= x < side -> 0 <= y < side ->
  PIL.getpixel (make_square c) x y =
  if (0 <=? x - ox) && (x - ox <? img_width c) && (0 <=? y - oy) && (y - oy <? img_height c)
  then PIL.getpixel c (x - ox) (y - oy) else white.
Proof.
  intros Hm Hw Hh side ox oy Hx Hy.
  cbv beta iota zeta delta [make_square PIL.size]. rewrite Hm.
  fold side ox oy.
  rewrite paste_getpixel by (simpl; lia). cbv zeta.
  unfold PIL.paste_source. cbn [img_mode PIL.Image_new PIL.build]. rewrite Hm.
  cbn [mode_eqb]. rewrite new_getpixel by lia. reflexivity.
Qed.

Lemma make_square_rgb_shape (c : image) :
  img_mode c = RGB -> 0 <= img_width c -> 0 <= img_height c ->
  let side := Z.max (img_width c) (img_height c) in
  img_mode (make_square c) = RGB /\ wf_image (make_square c) /\
  img_width (make_square c) = side /\ img_height (make_square c) = side.
Proof.
  intros Hm Hw Hh side.
  pose proof (make_square_size c Hw Hh) as Hsize. fold side in Hsize.
  assert (Hws : img_width (make_square c) = side) by exact (f_equal fst Hsize).
  assert (Hhs : img_height (make_square c) = side) by exact (f_equal snd Hsize).
  split; [|split; [|split; assumption]].
  - cbv beta iota zeta delta [make_square PIL.size]. rewrite Hm. reflexivity.
  - cbv beta iota zeta delta [make_square PIL.size]. rewrite Hm.
    unfold PIL.paste. apply wf_built; simpl; lia.
Qed.

(** The output of [crop_with_padding] for an RGB image with content: its
    shape, and its pixels in terms of the pixels of the input. *)
Lemma crop_with_padding_rgb (img : image) (padding_percent : Q)
  (x1 y1 x2 y2 nx1 ny1 nx2 ny2 : Z) :
  wf_image img -> img_mode img = RGB -> (0 <= padding_percent)%Q ->
  get_content_bounds img = Some (x1, y1, x2, y2) ->
  padded_bounds img (x1, y1, x2, y2) padding_percent = (nx1, ny1, nx2, ny2) ->
  let side := Z.max (nx2 - nx1) (ny2 - ny1) in
  let ox := (side - (nx2 - nx1)) / 2 in
  let oy := (side - (ny2 - ny1)) / 2 in
  let out := crop_with_padding img padding_percent in
  (0 <= nx1 <= x1 /\ x1 < x2 /\ x2 <= nx2 <= img_width img) /\
  (0 <= ny1 <= y1 /\ y1 < y2 /\ y2 <= ny2 <= img_height img) /\
  (0 <= ox /\ ox + (nx2 - nx1) <= side) /\ (0 <= oy /\ oy + (ny2 - ny1) <= side) /\
  img_mode out = RGB /\ wf_image out /\
  img_width out = side /\ img_height out = side /\
  (forall x y, 0 <= x < side -> 0 <= y < side ->
     PIL.getpixel out x y =
     if (0 <=? x - ox) && (x - ox <? nx2 - nx1) && (0 <=? y - oy) && (y - oy <? ny2 - ny1)
     then PIL.getpixel img (x - ox + nx1) (y - oy + ny1) else white).
Proof.
  intros Hwf Hm Hp Hb Hpad side ox oy out.
  pose proof (get_content_bounds_in_image img _ Hwf Hb) as Hin.
  destruct (padded_bounds_facts img x1 y1 x2 y2 padding_percent Hin Hp)
    as (a & b & c & d & E & _ & _ & Hx & Hy).
  rewrite Hpad in E. injection E as <- <- <- <-.
  unfold exclusive_box_in in Hin.
  destruct (crop_size img nx1 ny1 nx2 ny2) as (Hsize & Hmode & Hwfc); [lia | lia |].
  set (cr := PIL.crop img (nx1, ny1, nx2, ny2)) in *.
  assert (Hcw : img_width cr = nx2 - nx1) by exact (f_equal fst Hsize).
  assert (Hch : img_height cr = ny2 - ny1) by exact (f_equal snd Hsize).
  assert (Hout : out = make_square cr).
  { unfold out, crop_with_padding, crop_box_with_padding. now rewrite Hb, Hpad. }
  rewrite Hm in Hmode.
  destruct (make_square_rgb_shape cr Hmode) as (Hmo & Hwfo & Hwo & Hho); try lia.
  rewrite Hcw, Hch in Hwo, Hho. fold side in Hwo, Hho.
  destruct (centring_offset side (nx2 - nx1) ltac:(lia)) as (Hox & Hfx & _).
  destruct (centring_offset side (ny2 - ny1) ltac:(lia)) as (Hoy & Hfy & _).
  fold ox in Hox, Hfx. fold oy in Hoy, Hfy.
  rewrite Hout.
  split; [lia|]. split; [lia|]. split; [lia|]. split; [lia|].
  split; [exact Hmo|]. split; [exact Hwfo|]. split; [exact Hwo|]. split; [exact Hho|].
  intros x y Hxr Hyr.
  rewrite make_square_rgb_pixel by (rewrite ?Hcw, ?Hch; try assumption; fold side; lia).
  rewrite Hcw, Hch. fold side ox oy.
  destruct (_ && _) eqn:Hc; [|reflexivity].
  apply in_range_iff in Hc.
  unfold cr. rewrite crop_getpixel by lia. reflexivity.
Qed.

End Redetection.

Section RoundTrip.

Import crop_logos.

Lemma rgb_on_white_rgb (im : image) : img_mode im = RGB -> rgb_on_white im = im.
Proof. intros Hm. unfold rgb_on_white. now rewrite Hm. Qed.

Lemma white_is_pure_white : pure_white white.
Proof. repeat split. Qed.

(** X14.  For an RGB image with content, [crop_with_padding] keeps the
    padded box pixel for pixel: the pixel of the input at (x, y) of the
    padded box is the pixel of the output at (x, y) moved by the centring
    offset, and every other pixel of the output is white. *)
Theorem crop_with_padding_keeps_pixels (img : image) (padding_percent : Q)
  (x1 y1 x2 y2 : Z) :
  wf_image img -> img_mode img = RGB -> (0 <= padding_percent)%Q ->
  get_content_bounds img = Some (x1, y1, x2, y2) ->
  let '(nx1, ny1, nx2, ny2) := padded_bounds img (x1, y1, x2, y2) padding_percent in
  let side := Z.max (nx2 - nx1) (ny2 - ny1) in
  let ox := (side - (nx2 - nx1)) / 2 in
  let oy := (side - (ny2 - ny1)) / 2 in
  let out := crop_with_padding img padding_percent in
  (forall x y, nx1 <= x < nx2 -> ny1 <= y < ny2 ->
     PIL.getpixel out (ox + (x - nx1)) (oy + (y - ny1)) = PIL.getpixel img x y) /\
  (forall x y, 0 <= x < side -> 0 <= y < side ->
     ~ (ox <= x < ox + (nx2 - nx1) /\ oy <= y < oy + (ny2 - ny1)) ->
     PIL.getpixel out x y = white).
Proof.
  intros Hwf Hm Hp Hb.
  destruct (padded_bounds img (x1, y1, x2, y2) padding_percent)
    as [[[nx1 ny1] nx2] ny2] eqn:Hpad.
  destruct (crop_with_padding_rgb img padding_percent x1 y1 x2 y2 nx1 ny1 nx2 ny2
              Hwf Hm Hp Hb Hpad)
    as (Hx & Hy & Hox & Hoy & _ & _ & _ & _ & Hpix).
  cbv zeta in *. split.
  - intros x y Hxr Hyr. rewrite Hpix by lia.
    destruct (_ && _) eqn:Hc.
    + f_equal; lia.
    + exfalso. apply not_true_iff_false in Hc. apply Hc.
      apply in_range_iff. lia.
  - intros x y Hxr Hyr Hout. rewrite Hpix by lia.
    destruct (_ && _) eqn:Hc; [|reflexivity].
    apply in_range_iff in Hc. exfalso. apply Hout. lia.
Qed.

Lemma crop_with_padding_keeps_pixels_witness :
  PIL.getpixel (crop_with_padding square_scene 5) (0 + (47 - 39)) (0 + (52 - 39))
    = PIL.getpixel square_scene 47 52.
Proof.
  assert (Hwf : wf_image square_scene)
    by (apply wf_imageb_sound; vm_compute; reflexivity).
  assert (Hp : (0 <= 5)%Q) by (apply Qle_bool_sound; reflexivity).
  assert (Hb : get_content_bounds square_scene = Some (40, 40, 60, 60))
    by (vm_compute; reflexivity).
  pose proof (crop_with_padding_keeps_pixels square_scene 5 40 40 60 60
                Hwf eq_refl Hp Hb) as H.
  change (padded_bounds square_scene (40, 40, 60, 60) 5) with (39, 39, 61, 61) in H.
  cbv beta iota zeta in H. destruct H as (H & _).
  apply (H 47 52); lia.
Defined.

(** X15.  For an RGB image with content, detecting again on the output of
    [crop_with_padding] finds the same content box, moved to its place on
    the square canvas: the padding and the canvas add only white. *)
Theorem crop_with_padding_redetect (img : image) (padding_percent : Q)
  (x1 y1 x2 y2 : Z) :
  wf_image img -> img_mode img = RGB -> (0 <= padding_percent)%Q ->
  get_content_bounds img = Some (x1, y1, x2, y2) ->
  let '(nx1, ny1, nx2, ny2) := padded_bounds img (x1, y1, x2, y2) padding_percent in
  let side := Z.max (nx2 - nx1) (ny2 - ny1) in
  let ox := (side - (nx2 - nx1)) / 2 in
  let oy := (side - (ny2 - ny1)) / 2 in
  get_content_bounds (crop_with_padding img padding_percent)
    = Some (ox + (x1 - nx1), oy + (y1 - ny1), ox + (x2 - nx1), oy + (y2 - ny1)).
Proof.
  intros Hwf Hm Hp Hb.
  destruct (padded_bounds img (x1, y1, x2, y2) padding_percent)
    as [[[nx1 ny1] nx2] ny2] eqn:Hpad.
  destruct (crop_with_padding_rgb img padding_percent x1 y1 x2 y2 nx1 ny1 nx2 ny2
              Hwf Hm Hp Hb Hpad)
    as (Hx & Hy & Hox & Hoy & Hmo & Hwfo & Hwo & Hho & Hpix).
  cbv zeta in *.
  set (side := Z.max (nx2 - nx1) (ny2 - ny1)) in *.
  set (ox := (side - (nx2 - nx1)) / 2) in *.
  set (oy := (side - (ny2 - ny1)) / 2) in *.
  set (out := crop_with_padding img padding_percent) in *.
  pose proof (get_content_bounds_spec img Hwf) as Hsi.
  cbv zeta in Hsi. rewrite Hb, (rgb_on_white_rgb img Hm) in Hsi.
  destruct Hsi as (Hcov & (ya & Hya & Ha) & (yb & Hyb & Hbb)
                     & (xc & Hxc & Hc) & (xd & Hxd & Hd)).
  pose proof (Hcov x1 ya ltac:(unfold in_image; lia) Ha) as Ka.
  pose proof (Hcov (x2 - 1) yb ltac:(unfold in_image; lia) Hbb) as Kb.
  pose proof (Hcov xc y1 ltac:(unfold in_image; lia) Hc) as Kc.
  pose proof (Hcov xd (y2 - 1) ltac:(unfold in_image; lia) Hd) as Kd.
  (* non-white pixels of the input and of the output correspond *)
  assert (Hto : forall x y, nx1 <= x < nx2 -> ny1 <= y < ny2 ->
                  ~ pure_white (PIL.getpixel img x y) ->
                  in_image out (ox + (x - nx1)) (oy + (y - ny1)) /\
                  ~ pure_white (PIL.getpixel out (ox + (x - nx1)) (oy + (y - ny1)))).
  { intros x y Hxr Hyr Hnw. split; [unfold in_image; rewrite Hwo, Hho; lia|].
    rewrite Hpix by lia.
    assert (E : ((0 <=? ox + (x - nx1) - ox) && (ox + (x - nx1) - ox <? nx2 - nx1)
                 && (0 <=? oy + (y - ny1) - oy) && (oy + (y - ny1) - oy <? ny2 - ny1))
                = true) by (apply in_range_iff; lia).
    rewrite E.
    replace (ox + (x - nx1) - ox + nx1) with x by lia.
    replace (oy + (y - ny1) - oy + ny1) with y by lia. exact Hnw. }
  assert (Hfrom : forall x y, in_image out x y -> ~ pure_white (PIL.getpixel out x y) ->
                    (nx1 <= x - ox + nx1 < nx2 /\ ny1 <= y - oy + ny1 < ny2) /\
                    ~ pure_white (PIL.getpixel img (x - ox + nx1) (y - oy + ny1))).
  { intros x y [Hxr Hyr] Hnw. rewrite Hwo in Hxr. rewrite Hho in Hyr.
    rewrite Hpix in Hnw by lia.
    destruct (_ && _) eqn:E.
    - apply in_range_iff in E. split; [lia | exact Hnw].
    - exfalso. apply Hnw. exact white_is_pure_white. }
  pose proof (get_content_bounds_spec out Hwfo) as Hso.
  cbv zeta in Hso. rewrite (rgb_on_white_rgb out Hmo) in Hso.
  destruct (get_content_bounds out) as [[[[u1 v1] u2] v2]|] eqn:Hbo.
  - pose proof (get_content_bounds_in_image out _ Hwfo Hbo) as Hino.
    unfold exclusive_box_in in Hino. rewrite Hwo, Hho in *.
    destruct Hso as (Hcovo & (ya' & Hya' & Ha') & (yb' & Hyb' & Hbb')
                       & (xc' & Hxc' & Hc') & (xd' & Hxd' & Hd')).
    (* each edge pixel of one box lies in the other box *)
    destruct (Hfrom u1 ya' ltac:(unfold in_image; lia) Ha') as (R1 & N1).
    destruct (Hfrom (u2 - 1) yb' ltac:(unfold in_image; lia) Hbb') as (R2 & N2).
    destruct (Hfrom xc' v1 ltac:(unfold in_image; lia) Hc') as (R3 & N3).
    destruct (Hfrom xd' (v2 - 1) ltac:(unfold in_image; lia) Hd') as (R4 & N4).
    pose proof (Hcov (u1 - ox + nx1) (ya' - oy + ny1)
                  ltac:(unfold in_image; lia) N1) as C1.
    pose proof (Hcov (u2 - 1 - ox + nx1) (yb' - oy + ny1)
                  ltac:(unfold in_image; lia) N2) as C2.
    pose proof (Hcov (xc' - ox + nx1) (v1 - oy + ny1)
                  ltac:(unfold in_image; lia) N3) as C3.
    pose proof (Hcov (xd' - ox + nx1) (v2 - 1 - oy + ny1)
                  ltac:(unfold in_image; lia) N4) as C4.
    destruct (Hto x1 ya ltac:(lia) ltac:(lia) Ha) as (I1 & M1).
    destruct (Hto (x2 - 1) yb ltac:(lia) ltac:(lia) Hbb) as (I2 & M2).
    destruct (Hto xc y1 ltac:(lia) ltac:(lia) Hc) as (I3 & M3).
    destruct (Hto xd (y2 - 1) ltac:(lia) ltac:(lia) Hd) as (I4 & M4).
    pose proof (Hcovo _ _ I1 M1) as D1. pose proof (Hcovo _ _ I2 M2) as D2.
    pose proof (Hcovo _ _ I3 M3) as D3. pose proof (Hcovo _ _ I4 M4) as D4.
    assert (E1 : u1 = ox + (x1 - nx1)) by lia.
    assert (E2 : v1 = oy + (y1 - ny1)) by lia.
    assert (E3 : u2 = ox + (x2 - nx1)) by lia.
    assert (E4 : v2 = oy + (y2 - ny1)) by lia.
    now rewrite E1, E2, E3, E4.
  - exfalso. destruct (Hto x1 ya ltac:(lia) ltac:(lia) Ha) as (I1 & M1).
    apply M1. apply Hso. exact I1.
Qed.

Lemma crop_with_padding_redetect_witness :
  get_content_bounds (crop_with_padding square_scene 5) = Some (1, 1, 21, 21).
Proof.
  assert (Hwf : wf_image square_scene)
    by (apply wf_imageb_sound; vm_compute; reflexivity).
  assert (Hp : (0 <= 5)%Q) by (apply Qle_bool_sound; reflexivity).
  assert (Hb : get_content_bounds square_scene = Some (40, 40, 60, 60))
    by (vm_compute; reflexivity).
  exact (crop_with_padding_redetect square_scene 5 40 40 60 60 Hwf eq_refl Hp Hb).
Defined.

End RoundTrip.

(** ** File names *)

Section FileNames.

Import Ascii.
Local Open Scope string_scope.

Lemma append_assoc (a b c : string) : (a ++ b) ++ c = a ++ (b ++ c).
Proof. induction a as [|ch a IH]; simpl; [reflexivity | now rewrite IH]. Qed.

Lemma append_length (a b : string) :
  String.length (a ++ b) = (String.length a + String.length b)%nat.
Proof. induction a as [|ch a IH]; simpl; [reflexivity | now rewrite IH]. Qed.

Lemma py_endswith_iff (s suffix : string) :
  py_endswith s suffix = true <-> exists pre, s = pre ++ suffix.
Proof.
  induction s as [|c s IH]; cbn [py_endswith].
  - rewrite orb_false_r, String.eqb_eq. split.
    + intros <-. now exists "".
    + intros (pre & H). destruct pre; simpl in H; [auto | discriminate].
  - rewrite orb_true_iff, String.eqb_eq, IH. split.
    + intros [<- | (pre & ->)]; [now exists "" | now exists (String c pre)].
    + intros (pre & H). destruct pre as [|c' pre]; simpl in H.
      * now left.
      * right. injection H as _ ->. now exists pre.
Qed.

Lemma py_startswith_length (s prefix : string) :
  py_startswith s prefix = true -> (String.length prefix <= String.length s)%nat.
Proof.
  revert s. induction prefix as [|a p IH]; intros s H; simpl in *; [lia|].
  destruct s as [|b s]; [discriminate|].
  apply andb_true_iff in H. destruct H as [_ H]. apply IH in H. simpl. lia.
Qed.

(** An occurrence of ".png" cannot straddle the start of a suffix that is
    empty or begins with a dot. *)
Lemma startswith_png_append (c : Ascii.ascii) (pre suf : string) :
  suf = "" \/ (exists suf', suf = String "."%char suf') ->
  py_startswith (String c pre ++ suf) ".png" = py_startswith (String c pre) ".png".
Proof.
  intros Hsuf.
  assert (Hp : Ascii.eqb "p" "." = false) by reflexivity.
  assert (Hn : Ascii.eqb "n" "." = false) by reflexivity.
  assert (Hg : Ascii.eqb "g" "." = false) by reflexivity.
  destruct pre as [|c2 [|c3 [|c4 pre]]]; cbn [py_startswith String.append];
    try (destruct Hsuf as [-> | (suf' & ->)]; cbn [py_startswith];
         rewrite ?Hp, ?Hn, ?Hg; cbn [andb]; now rewrite ?andb_false_r).
Qed.

(** [replace] on a name is [replace] on its parts, for such a suffix. *)
Lemma replace_png_append (pre suf : string) :
  suf = "" \/ (exists suf', suf = String "."%char suf') ->
  forall k, (k <= String.length pre)%nat ->
  replace_aux k ".png" ".jpg" (pre ++ suf)
    = replace_aux k ".png" ".jpg" pre ++ replace_aux 0 ".png" ".jpg" suf.
Proof.
  intros Hsuf. induction pre as [|c pre IH]; intros k Hk.
  - simpl in Hk. assert (k = 0%nat) as -> by lia. reflexivity.
  - destruct k as [|k].
    + change (String c pre ++ suf) with (String c (pre ++ suf)).
      cbn [replace_aux].
      change (String c (pre ++ suf)) with (String c pre ++ suf).
      rewrite (startswith_png_append c pre suf Hsuf).
      destruct (py_startswith (String c pre) ".png") eqn:Hs.
      * apply py_startswith_length in Hs. simpl in Hs.
        rewrite IH by (simpl; lia). now rewrite <- append_assoc.
      * rewrite IH by lia. reflexivity.
    + simpl in Hk. cbn [String.append replace_aux]. apply IH. lia.
Qed.

Lemma replace_png_length (s : string) :
  forall k, (k <= String.length s)%nat ->
  String.length (replace_aux k ".png" ".jpg" s) = (String.length s - k)%nat.
Proof.
  induction s as [|c s IH]; intros k Hk; [reflexivity|].
  destruct k as [|k]; cbn [replace_aux].
  - destruct (py_startswith (String c s) ".png") eqn:Hs.
    + apply py_startswith_length in Hs. simpl in Hs.
      rewrite append_length, IH by (simpl; lia). simpl. lia.
    + simpl. rewrite IH by lia. lia.
  - simpl in Hk. rewrite IH by lia. reflexivity.
Qed.

Lemma output_filename_suffix (filename : string) :
  batch.accepted filename = true ->
  py_endswith (batch.output_filename filename) ".jpg" = true \/
  py_endswith (batch.output_filename filename) ".jpeg" = true.
Proof.
  intros Hacc. unfold batch.output_filename, py_replace.
  unfold batch.accepted in Hacc. rewrite !orb_true_iff, !py_endswith_iff in Hacc.
  destruct Hacc as [[(stem & ->) | (stem & ->)] | (stem & ->)];
    rewrite replace_png_append by (try lia; right; eauto);
    [left | left | right]; apply py_endswith_iff; eexists; reflexivity.
Qed.

End FileNames.

Section OutputNames.

Import Ascii.
Local Open Scope string_scope.

(** X16.  The output name of an accepted file (a name ending in ".jpg",
    ".png" or ".jpeg") has the same length as the input name and ends in
    ".jpg" or ".jpeg": it is "stem'.jpg" for "stem.png" and "stem.jpg", and
    "stem'.jpeg" for "stem.jpeg", where stem' is the stem with its own
    ".png" occurrences replaced. *)
Theorem output_filename_extension (filename : string) :
  batch.accepted filename = true ->
  String.length (batch.output_filename filename) = String.length filename /\
  (py_endswith (batch.output_filename filename) ".jpg" = true \/
   py_endswith (batch.output_filename filename) ".jpeg" = true) /\
  exists stem, (filename = stem ++ ".png" \/ filename = stem ++ ".jpg" \/
                filename = stem ++ ".jpeg") /\
    (batch.output_filename filename = batch.output_filename stem ++ ".jpg" \/
     batch.output_filename filename = batch.output_filename stem ++ ".jpeg").
Proof.
  intros Hacc. unfold batch.output_filename, py_replace.
  split.
  - rewrite replace_png_length by lia. lia.
  - unfold batch.accepted in Hacc. rewrite !orb_true_iff, !py_endswith_iff in Hacc.
    destruct Hacc as [[(stem & ->) | (stem & ->)] | (stem & ->)].
    + rewrite replace_png_append by (try lia; right; eauto).
      split; [left; apply py_endswith_iff; eexists; reflexivity|].
      exists stem. split; [tauto | left; reflexivity].
    + rewrite replace_png_append by (try lia; right; eauto).
      split; [left; apply py_endswith_iff; eexists; reflexivity|].
      exists stem. split; [tauto | left; reflexivity].
    + rewrite replace_png_append by (try lia; right; eauto).
      split; [right; apply py_endswith_iff; eexists; reflexivity|].
      exists stem. split; [tauto | right; reflexivity].
Qed.

Lemma output_filename_extension_witness :
  String.length (batch.output_filename "a.png.v2.png") = String.length "a.png.v2.png" /\
  (py_endswith (batch.output_filename "a.png.v2.png") ".jpg" = true \/
   py_endswith (batch.output_filename "a.png.v2.png") ".jpeg" = true).
Proof.
  destruct (output_filename_extension "a.png.v2.png" eq_refl) as (H1 & H2 & _).
  split; [exact H1 | exact H2].
Defined.

(** X17.  A PNG and a JPEG input with the same stem get the same output
    name: the file written for one is overwritten by the other. *)
Theorem output_filename_collision (stem : string) :
  batch.accepted (stem ++ ".png") = true /\ batch.accepted (stem ++ ".jpg") = true /\
  stem ++ ".png" <> stem ++ ".jpg" /\
  batch.output_filename (stem ++ ".png") = batch.output_filename (stem ++ ".jpg").
Proof.
  split; [|split; [|split]].
  - unfold batch.accepted. rewrite !orb_true_iff. left. right.
    apply py_endswith_iff. now exists stem.
  - unfold batch.accepted. rewrite !orb_true_iff. left. left.
    apply py_endswith_iff. now exists stem.
  - induction stem as [|c stem IH]; simpl; [discriminate|].
    intros H. injection H as H. now apply IH.
  - unfold batch.output_filename, py_replace.
    rewrite !replace_png_append by (try lia; right; eauto). reflexivity.
Qed.

End OutputNames.

(** ** The batch loop *)

Section BatchLoop.

Local Open Scope string_scope.

Variable crop : image -> image.
Variable open_image : string -> option image.
Variable save_ok : string -> image -> bool.

Lemma flatten_not_RGBA (im : image) : img_mode (batch.flatten im) <> RGBA.
Proof.
  unfold batch.flatten. destruct (img_mode im) eqn:Hm; try congruence.
  unfold PIL.paste. simpl. discriminate.
Qed.

(** The loop from any state: the counters grow by the accepted names, one
    file is written per processed name, and every file written comes from
    an accepted name of the list. *)
Lemma run_from (all : list string) (l : list string) : forall st,
  incl l all ->
  let st' := fold_left (batch.process_file crop open_image save_ok) l st in
  batch.processed st' + batch.skipped st'
    = batch.processed st + batch.skipped st
      + Z.of_nat (length (filter batch.accepted l)) /\
  batch.processed st <= batch.processed st' /\
  batch.skipped st <= batch.skipped st' /\
  Z.of_nat (length (batch.written st')) - batch.processed st'
    = Z.of_nat (length (batch.written st)) - batch.processed st /\
  (Forall (written_from crop open_image all) (batch.written st) ->
   Forall (written_from crop open_image all) (batch.written st')).
Proof.
  induction l as [|f l IH]; intros st Hincl; cbv zeta.
  - simpl. repeat split; try lia. auto.
  - cbn [fold_left filter].
    assert (Hl : incl l all) by (intros x Hx; apply Hincl; now right).
    assert (Hf : In f all) by (apply Hincl; now left).
    specialize (IH (batch.process_file crop open_image save_ok st f) Hl).
    cbv zeta in IH. destruct IH as (IH1 & IH2 & IH3 & IH4 & IH5).
    unfold batch.process_file in *.
    destruct (batch.accepted f) eqn:Hacc; cbn [negb] in *.
    + destruct (open_image f) as [img|] eqn:Hopen.
      * cbv zeta in *.
        destruct (save_ok (batch.output_filename f) (batch.flatten (crop img))) eqn:Hsave;
          cbn [batch.processed batch.skipped batch.written length] in *.
        -- repeat split; try lia.
           intros Hall. apply IH5. constructor; [|exact Hall].
           exists f, img. cbn [fst snd]. tauto.
        -- repeat split; try lia. exact IH5.
      * cbn [batch.processed batch.skipped batch.written length] in *.
        repeat split; try lia. exact IH5.
    + repeat split; try lia. exact IH5.
Qed.

End BatchLoop.

Section BatchProperties.

Local Open Scope string_scope.

(** X18.  In a run of the batch loop over a directory listing, whatever
    [Image.open] and [save] do: every accepted name (ending in ".jpg",
    ".png" or ".jpeg") is counted once, as processed or as skipped, and
    every other name is passed over; one file is written per processed
    name; every file written is the crop of a decoded accepted input,
    flattened so that it is never RGBA, under a name ending in ".jpg" or
    ".jpeg". *)
Theorem batch_run_accounting (crop : image -> image)
  (open_image : string -> option image) (save_ok : string -> image -> bool)
  (listing : list string) :
  let st := batch.run crop open_image save_ok listing in
  batch.processed st + batch.skipped st
    = Z.of_nat (length (filter batch.accepted listing)) /\
  0 <= batch.processed st /\ 0 <= batch.skipped st /\
  Z.of_nat (length (batch.written st)) = batch.processed st /\
  Forall (fun entry =>
            written_from crop open_image listing entry /\
            img_mode (snd entry) <> RGBA /\
            (py_endswith (fst entry) ".jpg" = true \/
             py_endswith (fst entry) ".jpeg" = true))
         (batch.written st).
Proof.
  cbv zeta. unfold batch.run.
  destruct (run_from crop open_image save_ok listing listing batch.initial
              (incl_refl _)) as (H1 & H2 & H3 & H4 & H5).
  cbv zeta in *. cbn [batch.initial batch.processed batch.skipped batch.written length] in *.
  split; [lia|]. split; [lia|]. split; [lia|]. split; [lia|].
  specialize (H5 (Forall_nil _)).
  eapply Forall_impl; [|exact H5]. intros entry Hfrom.
  split; [exact Hfrom|].
  destruct Hfrom as (filename & img & _ & Hacc & _ & Hname & Him).
  split.
  - rewrite Him. apply flatten_not_RGBA.
  - rewrite Hname. now apply output_filename_suffix.
Qed.

End BatchProperties.

(** ** Compositing over white, and what the border hides *)

Section Compositing.

Import crop_logos crop_logos_v2 crop_logos_tight.

(** The pixels of the image the three detection functions work on. *)
Lemma rgb_on_white_getpixel (img : image) (x y : Z) :
  wf_image img -> in_image img x y ->
  let p := PIL.getpixel img x y in
  PIL.getpixel (rgb_on_white img) x y =
  match img_mode img with
  | RGB => p
  | RGBA => PIL.blend_pixel (A p) white p
  | L => mkPixel (R p) (G p) (B p) 255
  end.
Proof.
  intros Hwf [Hx Hy] p. unfold rgb_on_white.
  destruct (img_mode img) eqn:Hm.
  - reflexivity.
  - cbv zeta. unfold PIL.size.
    rewrite paste_getpixel by (simpl; lia). cbv zeta.
    unfold PIL.paste_source. cbn [img_mode PIL.Image_new PIL.build]. rewrite Hm.
    cbn [mode_eqb]. rewrite !Z.sub_0_r.
    assert (E : ((0 <=? x) && (x <? img_width img) && (0 <=? y) && (y <? img_height img))
                = true) by (apply in_range_iff; lia).
    rewrite E. rewrite new_getpixel by lia.
    unfold PIL.mask_value, PIL.alpha_band. cbn [img_mode].
    rewrite (getpixel_map L (fun q => mkPixel (A q) (A q) (A q) 255)) by auto.
    reflexivity.
  - unfold PIL.convert_RGB.
    now rewrite (getpixel_map RGB (fun q => mkPixel (R q) (G q) (B q) 255)) by auto.
Qed.

Lemma BLEND8_transparent (dst src : Z) : PIL.BLEND8 0 dst src = PIL.DIV255 (dst * 255).
Proof. unfold PIL.BLEND8. f_equal. ring. Qed.


End Compositing.

Section CompositingProperties.

Import crop_logos crop_logos_v2 crop_logos_tight.

(** X19.  A pixel of an RGBA image, as the three detection functions see
    it, is the pixel blended over white by its alpha: a fully transparent
    pixel counts as white whatever its colour, and an opaque pixel keeps
    its colour. *)
Theorem alpha_compositing (img : image) (x y : Z) :
  wf_image img -> img_mode img = RGBA -> in_image img x y ->
  let p := PIL.getpixel img x y in
  let q := PIL.getpixel (rgb_on_white img) x y in
  q = PIL.blend_pixel (A p) white p /\
  (A p = 0 -> pure_white q) /\
  (A p = 255 -> pixel_ok p -> same_colour q p).
Proof.
  intros Hwf Hm Hin p q.
  assert (Hq : q = PIL.blend_pixel (A p) white p).
  { unfold q. rewrite (rgb_on_white_getpixel img x y Hwf Hin). cbv zeta.
    now rewrite Hm. }
  split; [exact Hq|]. split.
  - intros Ha. rewrite Hq, Ha. unfold pure_white, PIL.blend_pixel.
    cbn [R G B white]. rewrite !BLEND8_transparent. repeat split; reflexivity.
  - intros Ha Hok. rewrite Hq, Ha, (blend_pixel_opaque _ _ Hok). repeat split.
Qed.

Lemma alpha_compositing_witness :
  pure_white (PIL.getpixel (rgb_on_white transparent_gap) 1 0).
Proof.
  assert (Hwf : wf_image transparent_gap)
    by (apply wf_imageb_sound; vm_compute; reflexivity).
  assert (Hin : in_image transparent_gap 1 0) by (unfold in_image; simpl; lia).
  destruct (alpha_compositing transparent_gap 1 0 Hwf eq_refl Hin) as (_ & H & _).
  apply H. reflexivity.
Defined.



End CompositingProperties.

(** ** The analysis and the crop agree on what content is *)

Section AnalysisAndCrop.

Import crop_logos analyze_logos.

(** A channel below 240 blended over white with an alpha above 50 does not
    come out as 255. *)
Lemma BLEND8_visible (a c : Z) : 50 < a -> c < 240 -> PIL.BLEND8 a 255 c <> 255.
Proof.
  intros Ha Hc. unfold PIL.BLEND8, PIL.DIV255. cbv zeta.
  rewrite !Z.shiftr_div_pow2 by lia. change (2 ^ 8) with 256.
  set (v := 255 * (255 - a) + c * a).
  assert (Hv : v <= 64209) by (unfold v; nia).
  assert (H1 : (v + 128) / 256 < 252) by (apply Z.div_lt_upper_bound; lia).
  assert (H2 : ((v + 128) / 256 + (v + 128)) / 256 < 255)
    by (apply Z.div_lt_upper_bound; lia).
  lia.
Qed.

Lemma as_rgba_getpixel (img : image) (x y : Z) :
  wf_image img -> in_image img x y ->
  let p := PIL.getpixel img x y in
  PIL.getpixel (as_rgba img) x y =
  match img_mode img with
  | RGBA => p
  | _ => mkPixel (R p) (G p) (B p) 255
  end.
Proof.
  intros Hwf [Hx Hy] p. unfold as_rgba, PIL.convert_RGBA.
  destruct (img_mode img) eqn:Hm; try reflexivity;
    now rewrite (getpixel_map RGBA (fun q => mkPixel (R q) (G q) (B q) 255)) by auto.
Qed.

(** What [analyze_logo] takes for content is not white for
    [get_content_bounds]. *)
Lemma content_is_not_white (img : image) (x y : Z) :
  wf_image img -> in_image img x y ->
  is_content (PIL.getpixel (as_rgba img) x y) = true ->
  ~ pure_white (PIL.getpixel (rgb_on_white img) x y).
Proof.
  intros Hwf Hin Hc.
  rewrite (as_rgba_getpixel img x y Hwf Hin) in Hc.
  rewrite (rgb_on_white_getpixel img x y Hwf Hin). cbv zeta in *.
  set (p := PIL.getpixel img x y) in *.
  unfold is_content in Hc. apply andb_true_iff in Hc. destruct Hc as [Ha Hc].
  rewrite !orb_true_iff, !Z.ltb_lt in Hc. apply Z.gtb_lt in Ha.
  unfold pure_white. destruct (img_mode img); cbn [R G B A] in *.
  - lia.
  - unfold PIL.blend_pixel. cbn [R G B white].
    intros (Hr & Hg & Hb).
    destruct Hc as [[Hc | Hc] | Hc].
    + exact (BLEND8_visible _ _ Ha Hc Hr).
    + exact (BLEND8_visible _ _ Ha Hc Hg).
    + exact (BLEND8_visible _ _ Ha Hc Hb).
  - lia.
Qed.

(** Each edge of the content bounds of a report holds a content pixel. *)
Lemma analyze_logo_touches (img : image) (r : report) :
  wf_image img -> fst (analyze_logo img) = Some r ->
  let '(x_min, y_min, x_max, y_max) := content_bounds r in
  (exists y, in_image img x_min y /\ is_content (PIL.getpixel (as_rgba img) x_min y) = true) /\
  (exists y, in_image img x_max y /\ is_content (PIL.getpixel (as_rgba img) x_max y) = true) /\
  (exists x, in_image img x y_min /\ is_content (PIL.getpixel (as_rgba img) x y_min) = true) /\
  (exists x, in_image img x y_max /\ is_content (PIL.getpixel (as_rgba img) x y_max) = true).
Proof.
  intros Hwf Hr. pose proof (analyze_logo_in_image img r Hwf Hr) as Hin.
  destruct (as_rgba_wf img Hwf) as (Hwf' & Hw' & Hh').
  rewrite (analyze_logo_result img Hwf) in Hr. cbv zeta in Hr.
  destruct (image_mask_shape is_content (as_rgba img) Hwf') as (Hlen & Hwd).
  set (mk := map (map is_content) (img_data (as_rgba img))) in *.
  destruct (np.any mk) eqn:Hany; [|discriminate]. simpl in Hr. injection Hr as <-.
  cbn [content_bounds] in *. unfold inclusive_box_in in Hin.
  assert (Hne : mk <> []) by (intros E; rewrite E in Hany; discriminate).
  pose proof (ncols_of_width _ _ Hwd Hne) as Hcols.
  destruct (extent_spec mk (rect_of_width _ _ Hwd) Hany)
    as (_ & (ya & Hya & Ha) & (yb & Hyb & Hb) & (xc & Hxc & Hc) & (xd & Hxd & Hd)).
  rewrite Hw' in *. rewrite Hh' in *.
  assert (Hflag : forall x y, in_image img x y ->
            mask_at mk (Z.to_nat x) (Z.to_nat y)
            = is_content (PIL.getpixel (as_rgba img) x y)).
  { intros x y [Hx Hy]. unfold mk. apply image_mask_at; [exact Hwf'|].
    unfold in_image. rewrite Hw', Hh'. tauto. }
  repeat split.
  - exists (Z.of_nat ya).
    assert (Hi : in_image img (first_index (np.where_ (np.any_axis0 mk))) (Z.of_nat ya))
      by (unfold in_image; lia).
    split; [exact Hi|]. rewrite <- (Hflag _ _ Hi). now rewrite Nat2Z.id.
  - exists (Z.of_nat yb).
    assert (Hi : in_image img (last_index (np.where_ (np.any_axis0 mk))) (Z.of_nat yb))
      by (unfold in_image; lia).
    split; [exact Hi|]. rewrite <- (Hflag _ _ Hi). now rewrite Nat2Z.id.
  - exists (Z.of_nat xc).
    assert (Hi : in_image img (Z.of_nat xc) (first_index (np.where_ (np.any_axis1 mk))))
      by (unfold in_image; lia).
    split; [exact Hi|]. rewrite <- (Hflag _ _ Hi). now rewrite Nat2Z.id.
  - exists (Z.of_nat xd).
    assert (Hi : in_image img (Z.of_nat xd) (last_index (np.where_ (np.any_axis1 mk))))
      by (unfold in_image; lia).
    split; [exact Hi|]. rewrite <- (Hflag _ _ Hi). now rewrite Nat2Z.id.
Qed.

End AnalysisAndCrop.

Section AnalysisAndCropProperties.

Import crop_logos analyze_logos.

(** X21.  Whenever [analyze_logo] reports content, [get_content_bounds]
    finds content too, and its box contains the reported content bounds:
    what the analysis counts as content (alpha above 50, a channel below
    240) is never white once composited. *)
Theorem analysis_box_in_crop_box (img : image) (r : report) :
  wf_image img -> fst (analyze_logo img) = Some r ->
  exists x1 y1 x2 y2,
    get_content_bounds img = Some (x1, y1, x2, y2) /\
    let '(x_min, y_min, x_max, y_max) := content_bounds r in
    x1 <= x_min /\ x_max < x2 /\ y1 <= y_min /\ y_max < y2.
Proof.
  intros Hwf Hr.
  pose proof (analyze_logo_touches img r Hwf Hr) as Ht.
  destruct (content_bounds r) as [[[x_min y_min] x_max] y_max].
  destruct Ht as ((ya & Ia & Ca) & (yb & Ib & Cb) & (xc & Ic & Cc) & (xd & Id & Cd)).
  apply content_is_not_white in Ca, Cb, Cc, Cd; try assumption.
  pose proof (get_content_bounds_spec img Hwf) as Hs. cbv zeta in Hs.
  destruct (get_content_bounds img) as [[[[x1 y1] x2] y2]|].
  - destruct Hs as (Hcov & _).
    exists x1, y1, x2, y2. split; [reflexivity|].
    pose proof (Hcov _ _ Ia Ca). pose proof (Hcov _ _ Ib Cb).
    pose proof (Hcov _ _ Ic Cc). pose proof (Hcov _ _ Id Cd). lia.
  - exfalso. apply Ca. now apply Hs.
Qed.

Lemma analysis_box_in_crop_box_witness :
  exists x1 y1 x2 y2,
    get_content_bounds transparent_gap = Some (x1, y1, x2, y2) /\
    x1 <= 0 /\ 2 < x2 /\ y1 <= 0 /\ 0 < y2.
Proof.
  assert (Hwf : wf_image transparent_gap)
    by (apply wf_imageb_sound; vm_compute; reflexivity).
  destruct (fst (analyze_logo transparent_gap)) as [r|] eqn:Hr.
  - pose proof (analysis_box_in_crop_box transparent_gap r Hwf Hr) as H.
    assert (Hb : content_bounds r = (0, 0, 2, 0)).
    { assert (E : option_map content_bounds (fst (analyze_logo transparent_gap))
                  = Some (0, 0, 2, 0)) by (vm_compute; reflexivity).
      rewrite Hr in E. simpl in E. now injection E. }
    rewrite Hb in H. exact H.
  - exfalso.
    assert (E : option_map content_bounds (fst (analyze_logo transparent_gap))
                = Some (0, 0, 2, 0)) by (vm_compute; reflexivity).
    rewrite Hr in E. discriminate E.
Defined.

End AnalysisAndCropProperties.
